(** * update_panos_endoflife: a shallow embedding of the updater script

    The script [.github/scripts/update_panos_endoflife.py] reads a feed of
    PAN-OS releases, keeps the highest version of every release cycle,
    scans [pan-os.md] for release blocks and rewrites the blocks whose
    [latest] version is older than the feed's.

    Text is modelled as [string]: a sequence of characters with code
    points 0..255.  On that range Python's [\d] is exactly [0-9] and
    [\s] is the set listed in [is_space]; a text with a code point above
    255 (where [\d] and int() know more decimal digits) is outside the
    model.  Python integers are [Z], match offsets are [nat], a dict
    keyed by strings is a [gmap string], a raised exception is the
    [Raise] outcome of [result].

    int() is modelled on digit runs of any length.  CPython 3.11 and
    later raises ValueError on a run of more than [int_max_str_digits]
    digits; the statements that say when a function returns or raises
    keep to strings within that limit. *)

From Stdlib Require Import ZArith Ascii DecimalString.
From Stdlib Require DecimalZ.
From stdpp Require Import gmap strings list.

Local Open Scope Z_scope.

(** ** Outcomes *)

Inductive exn : Type :=
| TypeError          (* ordering a tuple against None *)
| ValueError         (* strptime on a malformed timestamp, int(), unpacking *)
| FileNotFoundError  (* open() of a missing path *)
| OSError            (* open() for writing of a path that cannot be opened *)
| SystemExit (code : Z)
| TemplateEscape.    (* a replacement template holding a backslash: the re
                        module would interpret it; outside this model *)

Inductive result (A : Type) : Type :=
| Ok (a : A)
| Raise (e : exn).
Arguments Ok {A} a.
Arguments Raise {A} e.

Definition rbind {A B} (r : result A) (k : A -> result B) : result B :=
  match r with
  | Ok a => k a
  | Raise e => Raise e
  end.

Notation "'let?' x ':=' r 'in' k" := (rbind r (fun x => k))
  (at level 10, x pattern, r at level 100, k at level 200).

(** ** Characters and strings *)

Module Str.

Definition code (c : ascii) : nat := nat_of_ascii c.

(** [\d] *)
Definition is_digit (c : ascii) : bool :=
  (48 <=? code c)%nat && (code c <=? 57)%nat.

(** [\s], and the characters removed by [str.strip()] *)
Definition is_space (c : ascii) : bool :=
  let n := code c in
  ((9 <=? n)%nat && (n <=? 13)%nat) || ((28 <=? n)%nat && (n <=? 32)%nat)
  || (n =? 133)%nat || (n =? 160)%nat.

Definition newline : ascii := "010"%char.
Definition quote : ascii := "034"%char.
Definition backslash : ascii := "092"%char.

Definition ascii_eqb (a b : ascii) : bool := Ascii.eqb a b.

Fixpoint len (s : string) : nat :=
  match s with
  | EmptyString => O
  | String _ s' => S (len s')
  end.

(** [s[:n]] and [s[n:]] for a non-negative [n] *)
Fixpoint take (n : nat) (s : string) : string :=
  match n, s with
  | S n', String c s' => String c (take n' s')
  | _, _ => EmptyString
  end.

Fixpoint drop (n : nat) (s : string) : string :=
  match n, s with
  | S n', String _ s' => drop n' s'
  | _, _ => s
  end.

(** [s.startswith(p)]; the remainder after a literal [p] *)
Fixpoint strip_prefix (p s : string) : option string :=
  match p with
  | EmptyString => Some s
  | String a p' =>
      match s with
      | String b s' => if ascii_eqb a b then strip_prefix p' s' else None
      | EmptyString => None
      end
  end.

Definition starts_with (p s : string) : bool :=
  match strip_prefix p s with Some _ => true | None => false end.

(** [needle in s] *)
Fixpoint contains (needle s : string) : bool :=
  starts_with needle s ||
  match s with
  | EmptyString => false
  | String _ s' => contains needle s'
  end.

(** the longest prefix of characters satisfying [p], and what follows *)
Fixpoint span (p : ascii -> bool) (s : string) : string * string :=
  match s with
  | String c s' =>
      if p c then let '(a, b) := span p s' in (String c a, b)
      else (EmptyString, s)
  | EmptyString => (EmptyString, EmptyString)
  end.

Fixpoint all (p : ascii -> bool) (s : string) : bool :=
  match s with
  | EmptyString => true
  | String c s' => p c && all p s'
  end.

Fixpoint rev_onto (acc s : string) : string :=
  match s with
  | EmptyString => acc
  | String c s' => rev_onto (String c acc) s'
  end.

Definition rev (s : string) : string := rev_onto EmptyString s.

Fixpoint lstrip (p : ascii -> bool) (s : string) : string :=
  match s with
  | String c s' => if p c then lstrip p s' else s
  | EmptyString => EmptyString
  end.

(** [s.strip()] and [s.strip(chars)]: both ends *)
Definition strip (p : ascii -> bool) (s : string) : string :=
  rev (lstrip p (rev (lstrip p s))).

(** [s.split(sep)] for a one-character separator *)
Fixpoint split (sep : ascii) (s : string) : list string :=
  match s with
  | EmptyString => [EmptyString]
  | String c s' =>
      if ascii_eqb c sep then EmptyString :: split sep s'
      else match split sep s' with
           | w :: ws => String c w :: ws
           | [] => [String c EmptyString]
           end
  end.

(** [s.replace(a, b)] for single characters *)
Fixpoint replace (a b : ascii) (s : string) : string :=
  match s with
  | EmptyString => EmptyString
  | String c s' => String (if ascii_eqb c a then b else c) (replace a b s')
  end.

(** [int(s)] on a run of decimal digits; the limit of CPython on the
    length of the run ([int_max_str_digits] below) is left out *)
Definition digit_value (c : ascii) : Z := Z.of_nat (code c) - 48.

Fixpoint int_acc (acc : Z) (s : string) : Z :=
  match s with
  | EmptyString => acc
  | String c s' => int_acc (10 * acc + digit_value c) s'
  end.

Definition int_of_digits (s : string) : Z := int_acc 0 s.

(** [int(s)]: the script applies it to digit runs only; on any other
    string this model answers [None] (Python raises ValueError on most) *)
Definition py_int (s : string) : option Z :=
  match s with
  | EmptyString => None
  | _ => if all is_digit s then Some (int_of_digits s) else None
  end.

(** [str(n)], as an f-string renders an int *)
Definition py_str (n : Z) : string := NilZero.string_of_int (Z.to_int n).

End Str.

(** ** Version tuples *)

Definition VersionTuple : Type := Z * Z * Z * Z.

Definition zero_tuple : VersionTuple := (0, 0, 0, 0).

(** Python's lexicographic [>] on 4-tuples of ints *)
Definition tuple_gt (a b : VersionTuple) : bool :=
  let '(a1, a2, a3, a4) := a in
  let '(b1, b2, b3, b4) := b in
  match a1 ?= b1 with
  | Gt => true
  | Lt => false
  | Eq =>
      match a2 ?= b2 with
      | Gt => true
      | Lt => false
      | Eq =>
          match a3 ?= b3 with
          | Gt => true
          | Lt => false
          | Eq => a4 >? b4
          end
      end
  end.

(** [(a1, a2) >= (b1, b2)] *)
Definition pair_ge (a b : Z * Z) : bool :=
  match fst a ?= fst b with
  | Gt => true
  | Lt => false
  | Eq => snd a >=? snd b
  end.

(** ** Regular-expression pieces

    Every pattern of the script is deterministic under backtracking: a
    greedy run (digits, non-quote characters, non-space characters) is
    always followed by something outside the class of the run, so giving
    back characters never helps.  Each matcher below therefore takes the
    greedy run and goes on. *)

(** [(\d+)]: a non-empty digit run and the rest *)
Definition digits1 (s : string) : option (string * string) :=
  match Str.span Str.is_digit s with
  | (EmptyString, _) => None
  | (d, r) => Some (d, r)
  end.

(** [$] without MULTILINE: at the end, or just before a final newline *)
Definition at_dollar (s : string) : bool :=
  match s with
  | EmptyString => true
  | String c EmptyString => Str.ascii_eqb c Str.newline
  | _ => false
  end.

(** [(\d+)\.(\d+)\.(\d+)]: the three groups and the rest *)
Definition match_triple (s : string) : option (string * string * string * string) :=
  match digits1 s with
  | None => None
  | Some (g1, r) =>
      match Str.strip_prefix "." r with
      | None => None
      | Some r =>
          match digits1 r with
          | None => None
          | Some (g2, r) =>
              match Str.strip_prefix "." r with
              | None => None
              | Some r =>
                  match digits1 r with
                  | None => None
                  | Some (g3, r) => Some (g1, g2, g3, r)
                  end
              end
          end
      end
  end.

(** [(?:-h(\d+))?]: group 4 when the optional part matches *)
Definition match_hotfix (s : string) : option (string * string) :=
  match Str.strip_prefix "-h" s with
  | None => None
  | Some r => digits1 r
  end.

(** ** parse_version *)

Definition parse_version (version_str : string) : option VersionTuple :=
  match match_triple version_str with
  | None => None
  | Some (g1, g2, g3, r) =>
      let major := Str.int_of_digits g1 in
      let minor := Str.int_of_digits g2 in
      let patch := Str.int_of_digits g3 in
      match match_hotfix r with
      | Some (g4, r') =>
          if at_dollar r' then Some (major, minor, patch, Str.int_of_digits g4)
          else if at_dollar r then Some (major, minor, patch, 0)
          else None
      | None =>
          if at_dollar r then Some (major, minor, patch, 0) else None
      end
  end.

(** ** get_release_cycle: [re.match(r"(\d+\.\d+)", s)] *)

Definition get_release_cycle (version_str : string) : option string :=
  match digits1 version_str with
  | None => None
  | Some (d1, r) =>
      match Str.strip_prefix "." r with
      | None => None
      | Some r =>
          match digits1 r with
          | None => None
          | Some (d2, _) => Some (d1 +:+ "." +:+ d2)
          end
      end
  end.

(** ** build_release_notes_url *)

Definition docs_host : string := "https://docs.paloaltonetworks.com".

(** [base_dashed] and [full_dashed] of lines 54-59 *)
Definition base_dashed (version_str : string) : string :=
  let parts := Str.split "-" version_str in
  let base_version := default EmptyString (head parts) in
  Str.replace "." "-" base_version.

Definition full_dashed (version_str : string) : string :=
  let parts := Str.split "-" version_str in
  let hotfix := parts !! 1%nat in
  match hotfix with
  | None | Some EmptyString => base_dashed version_str
  | Some h => base_dashed version_str +:+ "-" +:+ h
  end.

Definition build_release_notes_url (version_str : string) : result (option string) :=
  match get_release_cycle version_str with
  | None => Ok None
  | Some EmptyString => Ok None
  | Some cycle =>
      (* major, minor = map(int, cycle.split(".")) *)
      match Str.split "." cycle with
      | [a; b] =>
          match Str.py_int a, Str.py_int b with
          | Some major, Some minor =>
              let cycle_dashed := Str.py_str major +:+ "-" +:+ Str.py_str minor in
              let base_dashed := base_dashed version_str in
              let full_dashed := full_dashed version_str in
              if pair_ge (major, minor) (12, 1) then
                Ok (Some (docs_host +:+ "/ngfw/release-notes/" +:+ cycle_dashed
                          +:+ "/pan-os-" +:+ base_dashed +:+ "-known-and-addressed-issues"
                          +:+ "/pan-os-" +:+ full_dashed +:+ "-addressed-issues"))
              else if pair_ge (major, minor) (10, 1) then
                Ok (Some (docs_host +:+ "/pan-os/" +:+ cycle_dashed
                          +:+ "/pan-os-release-notes"
                          +:+ "/pan-os-" +:+ base_dashed +:+ "-known-and-addressed-issues"
                          +:+ "/pan-os-" +:+ full_dashed +:+ "-addressed-issues"))
              else if pair_ge (major, minor) (8, 1) then
                Ok (Some (docs_host +:+ "/pan-os/" +:+ cycle_dashed
                          +:+ "/pan-os-release-notes"
                          +:+ "/pan-os-" +:+ cycle_dashed +:+ "-addressed-issues"
                          +:+ "/pan-os-" +:+ full_dashed +:+ "-addressed-issues"))
              else Ok None
          | _, _ => Raise ValueError
          end
      | _ => Raise ValueError
      end
  end.

(** ** load_json_versions *)

(** one decoded entry of PaloAltoVersions.json *)
Record ReleaseRecord : Type := mkRecord {
  rec_version : string;      (* entry["version"] *)
  rec_released_on : string   (* entry["released-on"] *)
}.

(** a value of the dict the loader returns *)
Record CycleEntry : Type := mkEntry {
  version : string;
  date : string
}.

Section Loader.

(** [datetime.strptime(s, "%Y/%m/%d %H:%M:%S").strftime("%Y-%m-%d")] of
    the standard library; [None] when strptime raises ValueError *)
Variable released_date : string -> option string.

Definition load_step (cycles : gmap string CycleEntry) (entry : ReleaseRecord)
  : result (gmap string CycleEntry) :=
  let version_str := rec_version entry in
  match parse_version version_str with
  | None => Ok cycles
  | Some parsed =>
      match get_release_cycle version_str with
      | None | Some EmptyString => Ok cycles
      | Some cycle =>
          match released_date (rec_released_on entry) with
          | None => Raise ValueError
          | Some d =>
              match cycles !! cycle with
              | None => Ok (<[cycle := mkEntry version_str d]> cycles)
              | Some stored =>
                  match parse_version (version stored) with
                  | None => Raise TypeError
                  | Some old =>
                      if tuple_gt parsed old
                      then Ok (<[cycle := mkEntry version_str d]> cycles)
                      else Ok cycles
                  end
              end
          end
      end
  end.

(** the loop of lines 92-112 over the decoded entries *)
Fixpoint load_loop (cycles : gmap string CycleEntry) (entries : list ReleaseRecord)
  : result (gmap string CycleEntry) :=
  match entries with
  | [] => Ok cycles
  | entry :: rest =>
      match load_step cycles entry with
      | Ok cycles' => load_loop cycles' rest
      | Raise e => Raise e
      end
  end.

Definition load_json_entries (entries : list ReleaseRecord)
  : result (gmap string CycleEntry) :=
  load_loop ∅ entries.

End Loader.

(** ** parse_md_releases *)

Record Release : Type := mkRelease {
  releaseCycle : string;
  latest : option string;
  latestReleaseDate : option string;
  link : option string;
  _start : nat;
  _end : nat;
  _text : string
}.

Definition q : string := String Str.quote EmptyString.

Definition is_quote (c : ascii) : bool := Str.ascii_eqb c Str.quote.
Definition is_newline (c : ascii) : bool := Str.ascii_eqb c Str.newline.

Definition nl : string := String Str.newline EmptyString.

(** the lookahead [(?=\n  - releaseCycle:|\n---)] *)
Definition terminator_here (s : string) : bool :=
  Str.starts_with (nl +:+ "  - releaseCycle:") s || Str.starts_with (nl +:+ "---") s.

(** lazy [.*?] under DOTALL followed by the lookahead: the number of
    characters taken up to the first place where the lookahead holds *)
Fixpoint lazy_until_terminator (s : string) : option nat :=
  if terminator_here s then Some O
  else match s with
       | EmptyString => None
       | String _ s' => S <$> lazy_until_terminator s'
       end.

Definition block_head : string := "  - releaseCycle: " +:+ q.

(** the pattern of line 125 tried at one place (where [^] holds):
    group 1 and the length of the match *)
Definition match_block (s : string) : option (string * nat) :=
  match Str.strip_prefix block_head s with
  | None => None
  | Some r =>
      match Str.span (fun c => negb (is_quote c)) r with
      | (EmptyString, _) => None
      | (cycle, String _ r') =>
          match lazy_until_terminator r' with
          | Some k => Some (cycle, (Str.len block_head + Str.len cycle + 1 + k)%nat)
          | None => None
          end
      | (_, EmptyString) => None
      end
  end.

(** [re.search(rf"    {field}: (.+)", text)]: group 1 of the first match *)
Fixpoint search_field (head text : string) : option string :=
  let here :=
    match Str.strip_prefix head text with
    | Some r =>
        match Str.span (fun c => negb (is_newline c)) r with
        | (EmptyString, _) => None
        | (g, _) => Some g
        end
    | None => None
    end in
  match here with
  | Some g => Some g
  | None =>
      match text with
      | EmptyString => None
      | String _ text' => search_field head text'
      end
  end.

Definition extract (field text : string) : option string :=
  match search_field ("    " +:+ field +:+ ": ") text with
  | None => None
  | Some g =>
      let val := Str.strip Str.is_space g in
      Some (Str.strip is_quote val)
  end.

Definition make_release (cycle : string) (start len : nat) (block : string) : Release :=
  {| releaseCycle := cycle;
     latest := extract "latest" block;
     latestReleaseDate := extract "latestReleaseDate" block;
     link := extract "link" block;
     _start := start;
     _end := (start + len)%nat;
     _text := block |}.

(** [pattern.finditer(content)]: [pos] is the offset of [s] in the content,
    [bol] tells whether [^] holds there, [skip] counts the characters of
    the last match still to be passed over *)
Fixpoint finditer (pos : nat) (bol : bool) (skip : nat) (s : string) : list Release :=
  match s with
  | EmptyString => []
  | String c s' =>
      let bol' := is_newline c in
      match skip with
      | S k => finditer (S pos) bol' k s'
      | O =>
          match (if bol then match_block s else None) with
          | Some (cycle, n) =>
              make_release cycle pos n (Str.take n s)
                :: finditer (S pos) bol' (pred n) s'
          | None => finditer (S pos) bol' O s'
          end
      end
  end.

Definition parse_md_releases (content : string) : list Release :=
  finditer O true O content.

(** ** apply_updates *)

(** [re.sub(pattern, template, text)] for a pattern whose matches are never
    empty: [try] gives the length of the match starting at a place, [repl]
    is the text that replaces every match (group 1 of these patterns is a
    literal, so the expansion of the template is one fixed string), [skip]
    counts the characters of the last match still to be passed over *)
Fixpoint sub_scan (try : string -> option nat) (repl : string)
    (skip : nat) (s : string) : string :=
  match s with
  | EmptyString => EmptyString
  | String c s' =>
      match skip with
      | S k => sub_scan try repl k s'
      | O =>
          match try s with
          | Some n => repl +:+ sub_scan try repl (pred n) s'
          | None => String c (sub_scan try repl O s')
          end
      end
  end.

(** a template [\g<1>] followed by interpolated text is that text taken
    literally as long as it holds no backslash *)
Definition literal_template (tail : string) : bool :=
  negb (Str.contains (String Str.backslash EmptyString) tail).

Definition re_sub (try : string -> option nat) (group1 tail text : string)
  : result string :=
  if literal_template tail
  then Ok (sub_scan try (group1 +:+ tail) O text)
  else Raise TemplateEscape.

Definition latest_head : string := "    latest: ".
Definition date_head : string := "    latestReleaseDate: ".
Definition link_head : string := "    link: ".

(** [(    latest: )] then a quote, non-quote characters, a quote *)
Definition match_latest (s : string) : option nat :=
  match Str.strip_prefix (latest_head +:+ q) s with
  | None => None
  | Some r =>
      match Str.span (fun c => negb (is_quote c)) r with
      | (old, String _ _) => Some (Str.len latest_head + 1 + Str.len old + 1)%nat
      | (_, EmptyString) => None
      end
  end.

(** [(head)\S+] *)
Definition match_head_nonspace (head s : string) : option nat :=
  match Str.strip_prefix head s with
  | None => None
  | Some r =>
      match Str.span (fun c => negb (Str.is_space c)) r with
      | (EmptyString, _) => None
      | (w, _) => Some (Str.len head + Str.len w)%nat
      end
  end.

(** lines 174-196: the rewritten text of one block *)
Definition update_block (block new_version new_date : string) : result string :=
  let? new_url := build_release_notes_url new_version in
  let? updated_block :=
    re_sub match_latest latest_head (q +:+ new_version +:+ q) block in
  let? updated_block :=
    re_sub (match_head_nonspace date_head) date_head new_date updated_block in
  match new_url with
  | None | Some EmptyString => Ok updated_block
  | Some url =>
      if Str.contains "    link:" updated_block
      then re_sub (match_head_nonspace link_head) link_head url updated_block
      else Ok updated_block
  end.

Definition change_description (cycle current_version new_version : string) : string :=
  cycle +:+ ": " +:+ current_version +:+ " -> " +:+ new_version.

(** one turn of the loop of lines 160-199 *)
Definition apply_step (json_cycles : gmap string CycleEntry)
    (st : string * list string) (release : Release)
  : result (string * list string) :=
  let '(content, changes) := st in
  let cycle := releaseCycle release in
  match json_cycles !! cycle with
  | None => Ok st
  | Some entry =>
      let current_version := default EmptyString (latest release) in
      let new_version := version entry in
      let new_date := date entry in
      let current_parsed :=
        match current_version with
        | EmptyString => Some zero_tuple
        | _ => parse_version current_version
        end in
      match parse_version new_version with
      | None => Ok st
      | Some new_parsed =>
          match current_parsed with
          | None => Raise TypeError
          | Some cur =>
              if tuple_gt new_parsed cur then
                let? updated_block := update_block (_text release) new_version new_date in
                Ok (Str.take (_start release) content +:+ updated_block
                      +:+ Str.drop (_end release) content,
                    changes ++ [change_description cycle current_version new_version])
              else Ok st
          end
      end
  end.

Fixpoint apply_loop (json_cycles : gmap string CycleEntry)
    (st : string * list string) (releases : list Release)
  : result (string * list string) :=
  match releases with
  | [] => Ok st
  | release :: rest =>
      let? st' := apply_step json_cycles st release in
      apply_loop json_cycles st' rest
  end.

Definition apply_updates (content : string) (releases : list Release)
    (json_cycles : gmap string CycleEntry) : result (string * list string) :=
  apply_loop json_cycles (content, []) (reverse releases).

(** ** main *)

(** what the run can observe and change: the text of the files (as
    [f.read()] returns it), the lines printed so far, and whether a path
    can be opened for writing *)
Record World : Type := mkWorld {
  files : gmap string string;
  stdout : list string;
  writable : string -> bool
}.

Record Args : Type := mkArgs {
  arg_json : string;
  arg_md : string;
  arg_output : string
}.

(** a computation that changes the world and returns or raises *)
Definition IO (A : Type) : Type := World -> World * result A.

Definition io_ret {A} (a : A) : IO A := fun w => (w, Ok a).

Definition io_bind {A B} (m : IO A) (k : A -> IO B) : IO B :=
  fun w =>
    match m w with
    | (w', Ok a) => k a w'
    | (w', Raise e) => (w', Raise e)
    end.

Definition io_lift {A} (r : result A) : IO A := fun w => (w, r).

Notation "x <- m ;; k" := (io_bind m (fun x => k))
  (at level 100, m at next level, right associativity).
Notation "m ;;; k" := (io_bind m (fun _ => k))
  (at level 100, right associativity).

Definition read_file (path : string) : IO string :=
  fun w =>
    match files w !! path with
    | Some text => (w, Ok text)
    | None => (w, Raise FileNotFoundError)
    end.

(** [with open(path, "w") as f: f.write(text)]: open() raises before
    anything is written when the path cannot be opened *)
Definition write_file (path text : string) : IO unit :=
  fun w =>
    if writable w path
    then (mkWorld (<[path := text]> (files w)) (stdout w) (writable w), Ok tt)
    else (w, Raise OSError).

Definition print (line : string) : IO unit :=
  fun w => (mkWorld (files w) (stdout w ++ [line]) (writable w), Ok tt).

Definition sys_exit (code : Z) : IO unit :=
  fun w => (w, Raise (SystemExit code)).

Fixpoint print_all (lines : list string) : IO unit :=
  match lines with
  | [] => io_ret tt
  | line :: rest => print line ;;; print_all rest
  end.

(** the exit status of the process *)
Definition exit_code {A} (r : result A) : Z :=
  match r with
  | Ok _ => 0
  | Raise (SystemExit code) => code
  | Raise _ => 1
  end.

Section Main.

Variable released_date : string -> option string.

(** [json.load] of the standard library, on the text of the feed file *)
Variable json_load : string -> result (list ReleaseRecord).

Definition load_json_versions (json_path : string) : IO (gmap string CycleEntry) :=
  text <- read_file json_path ;;
  entries <- io_lift (json_load text) ;;
  io_lift (load_json_entries released_date entries).

Definition main (args : Args) : IO unit :=
  json_cycles <- load_json_versions (arg_json args) ;;
  content <- read_file (arg_md args) ;;
  let releases := parse_md_releases content in
  r <- io_lift (apply_updates content releases json_cycles) ;;
  let '(updated_content, changes) := r in
  match changes with
  | [] => print "NO_UPDATES" ;;; sys_exit 0
  | _ =>
      write_file (arg_output args) updated_content ;;;
      print "UPDATES_FOUND" ;;;
      print_all changes
  end.

End Main.

(** ** The limit of int() *)

(** [sys.int_max_str_digits] as CPython 3.11 and later sets it: int() of
    a longer digit run raises ValueError.  A string of at most that many
    characters holds no longer run. *)
Definition int_max_str_digits : nat := 4300.

(** ** The version format, in the words of the specification *)

Definition digit_run (d : string) : Prop :=
  d <> "" /\ Str.all Str.is_digit d = true.

(** [major.minor.patch] with an optional [-hN] suffix, and nothing else *)
Inductive version_format : string -> Prop :=
| vf_plain g1 g2 g3 :
    digit_run g1 -> digit_run g2 -> digit_run g3 ->
    version_format (g1 +:+ "." +:+ g2 +:+ "." +:+ g3)
| vf_hotfix g1 g2 g3 g4 :
    digit_run g1 -> digit_run g2 -> digit_run g3 -> digit_run g4 ->
    version_format (g1 +:+ "." +:+ g2 +:+ "." +:+ g3 +:+ "-h" +:+ g4).

(** the characters a string of that format is made of *)
Definition version_char (c : ascii) : bool :=
  Str.is_digit c || Str.ascii_eqb c "." || Str.ascii_eqb c "-" || Str.ascii_eqb c "h".

(** a digit run that is the decimal rendering of its value: no leading zero *)
Definition canonical (d : string) : bool :=
  match d with
  | String c (String _ _) => negb (Str.ascii_eqb c "0")
  | _ => true
  end.

(** ** The order on release cycles, in the words of the specification *)

(** cycle [major.minor] is at least [a.b] *)
Definition cycle_ge (major minor a b : Z) : Prop :=
  a < major \/ (major = a /\ b <= minor).

(** the three URL templates *)
Definition template_A (cycle_dashed base full : string) : string :=
  "https://docs.paloaltonetworks.com/ngfw/release-notes/" +:+ cycle_dashed
  +:+ "/pan-os-" +:+ base +:+ "-known-and-addressed-issues"
  +:+ "/pan-os-" +:+ full +:+ "-addressed-issues".

Definition template_B (cycle_dashed base full : string) : string :=
  "https://docs.paloaltonetworks.com/pan-os/" +:+ cycle_dashed
  +:+ "/pan-os-release-notes"
  +:+ "/pan-os-" +:+ base +:+ "-known-and-addressed-issues"
  +:+ "/pan-os-" +:+ full +:+ "-addressed-issues".

Definition template_C (cycle_dashed full : string) : string :=
  "https://docs.paloaltonetworks.com/pan-os/" +:+ cycle_dashed
  +:+ "/pan-os-release-notes"
  +:+ "/pan-os-" +:+ cycle_dashed +:+ "-addressed-issues"
  +:+ "/pan-os-" +:+ full +:+ "-addressed-issues".

(** ** Blocks that are already up to date, in the words of the specification *)

(** the block's [latest] parses to the same tuple as the feed's version
    for its cycle *)
Definition latest_equals_feed (json_cycles : gmap string CycleEntry) (r : Release) : Prop :=
  forall e, json_cycles !! releaseCycle r = Some e ->
    exists s t, latest r = Some s /\ parse_version s = Some t /\
                parse_version (version e) = Some t.

(** the block's [latest] parses, and the feed's version for its cycle is
    not strictly greater *)
Definition latest_at_least_feed (json_cycles : gmap string CycleEntry) (r : Release) : Prop :=
  forall e, json_cycles !! releaseCycle r = Some e ->
    exists s cur, latest r = Some s /\ parse_version s = Some cur /\
      forall new, parse_version (version e) = Some new -> tuple_gt new cur = false.

(** ** The record the loader must keep, in the words of the specification *)

(** record [r] belongs to [cycle] and parses to [t] *)
Definition candidate (cycle : string) (r : ReleaseRecord) (t : VersionTuple) : Prop :=
  parse_version (rec_version r) = Some t /\
  get_release_cycle (rec_version r) = Some cycle.

(** record number [i] of the feed is the first of its cycle with the
    greatest tuple: no record of the cycle is strictly greater, and every
    earlier one is strictly smaller *)
Definition first_greatest (feed : list ReleaseRecord) (cycle : string)
    (i : nat) (r : ReleaseRecord) (t : VersionTuple) : Prop :=
  feed !! i = Some r /\ candidate cycle r t /\
  forall j r' t', feed !! j = Some r' -> candidate cycle r' t' ->
    tuple_gt t' t = false /\ ((j < i)%nat -> tuple_gt t t' = true).

(** what the loader's dict holds after the records [pre]: every entry is
    the first greatest record of its cycle, with its normalised date, and a
    cycle without entry has no parseable record *)
Definition loaded (released_date : string -> option string)
    (pre : list ReleaseRecord) (m : gmap string CycleEntry) : Prop :=
  forall cycle,
    match m !! cycle with
    | Some e =>
        exists i r t, first_greatest pre cycle i r t /\
          version e = rec_version r /\
          released_date (rec_released_on r) = Some (date e)
    | None => forall r t, r ∈ pre -> ~ candidate cycle r t
    end.

(** ** Well-formed dates and the link field, in the words of the specification *)

(** a date as the loader writes it with [%Y-%m-%d]: digits and dashes *)
Definition date_char (c : ascii) : bool :=
  Str.is_digit c || Str.ascii_eqb c "-".

Definition iso_date (d : string) : Prop :=
  d <> "" /\ Str.all date_char d = true.

(** the block holds a [link] field, as line 191 tests it *)
Definition has_link_field (text : string) : bool :=
  Str.contains "    link:" text.

(** character [c] occurs in [s] *)
Fixpoint char_in (c : ascii) (s : string) : bool :=
  match s with
  | EmptyString => false
  | String x s' => Str.ascii_eqb x c || char_in c s'
  end.

(** no character of [t] occurs in [needle] *)
Definition avoids (needle t : string) : bool :=
  Str.all (fun c => negb (char_in c needle)) t.

(** the characters of a string that parses as a version *)
Definition parsed_char (c : ascii) : bool := version_char c || is_newline c.

(** any character but the backslash *)
Definition plain_char (c : ascii) : bool := negb (Str.ascii_eqb c Str.backslash).

(** ** Sample inputs *)

(** a stand-in for strptime/strftime on well-formed timestamps: the first
    ten characters with slashes turned into dashes *)
Definition sample_released_date (s : string) : option string :=
  Some (Str.replace "/" "-" (Str.take 10 s)).

Definition sample_feed : list ReleaseRecord :=
  [mkRecord "10.2.3" "2025/01/01 00:00:00";
   mkRecord "10.2.4-h1" "2025/06/01 00:00:00"].


Definition sample_cycles : gmap string CycleEntry :=
  {[ "10.2" := mkEntry "10.2.4-h1" "2025-06-01" ]}.

(** a document with one block of cycle 10.2, whose [latest] is given *)
Definition sample_doc (current : string) : string :=
  "releases:" +:+ nl
  +:+ "  - releaseCycle: " +:+ q +:+ "10.2" +:+ q +:+ nl
  +:+ "    latest: " +:+ q +:+ current +:+ q +:+ nl
  +:+ "    latestReleaseDate: 2025-01-01" +:+ nl
  +:+ "    link: https://example.invalid/old" +:+ nl
  +:+ "---" +:+ nl.




(** the text [apply_updates] gives for the document with [latest] 10.2.3 *)
Definition sample_updated : string :=
  Eval vm_compute in
    match apply_updates (sample_doc "10.2.3")
            (parse_md_releases (sample_doc "10.2.3")) sample_cycles with
    | Ok (updated, _) => updated
    | Raise _ => EmptyString
    end.

(** a block text without [link] field *)
Definition sample_block_no_link : string :=
  "  - releaseCycle: " +:+ q +:+ "10.2" +:+ q +:+ nl
  +:+ "    latest: " +:+ q +:+ "10.2.3" +:+ q +:+ nl
  +:+ "    latestReleaseDate: 2025-01-01".

(** ** Blocks in document order *)

(** the blocks of [l] follow each other without overlap: each one is not
    empty and starts at or after [lo], the end of the one before *)
Fixpoint in_order (lo : nat) (l : list Release) : Prop :=
  match l with
  | [] => True
  | r :: l' => (lo <= _start r)%nat /\ (_start r < _end r)%nat /\ in_order (_end r) l'
  end.

(** ** The outcome of one block, in the words of apply_updates *)

(** the tuple the block's [latest] is compared as (line 169): the zero
    tuple when the field is missing or empty, None when it is a non-empty
    string that does not parse *)
Definition current_tuple (r : Release) : option VersionTuple :=
  match default EmptyString (latest r) with
  | EmptyString => Some zero_tuple
  | s => parse_version s
  end.

(** the feed entry that replaces the block's version: the entry of the
    block's cycle, when its version parses to a tuple strictly greater
    than the current one *)
Definition newer_entry (json_cycles : gmap string CycleEntry) (r : Release)
  : option CycleEntry :=
  match json_cycles !! releaseCycle r with
  | None => None
  | Some e =>
      match parse_version (version e), current_tuple r with
      | Some new, Some cur => if tuple_gt new cur then Some e else None
      | _, _ => None
      end
  end.

(** the comparison of line 171 fails on the block: its cycle is in the
    mapping with a version that parses, and its [latest] does not parse *)
Definition comparison_fails (json_cycles : gmap string CycleEntry) (r : Release) : Prop :=
  exists e, json_cycles !! releaseCycle r = Some e /\
    is_Some (parse_version (version e)) /\ current_tuple r = None.

(** the change lines of a block: one when it is updated *)
Definition block_changes (json_cycles : gmap string CycleEntry) (r : Release)
  : list string :=
  match newer_entry json_cycles r with
  | Some e => [change_description (releaseCycle r)
                 (default EmptyString (latest r)) (version e)]
  | None => []
  end.

(** [new] is the text that stands for the block after the run *)
Definition block_result (json_cycles : gmap string CycleEntry) (r : Release)
    (new : string) : Prop :=
  match newer_entry json_cycles r with
  | Some e => update_block (_text r) (version e) (date e) = Ok new
  | None => new = _text r
  end.

(** the document rebuilt front to back from offset [lo]: the text between
    the blocks as it is, every block replaced by the text paired with it *)
Fixpoint splice (content : string) (lo : nat) (l : list (Release * string)) : string :=
  match l with
  | [] => Str.drop lo content
  | (r, new) :: l' =>
      Str.take (_start r - lo) (Str.drop lo content) +:+ new
        +:+ splice content (_end r) l'
  end.

(** ** A latest line alone on its line *)

(** the first [latest] field of the text is the quoted [v], alone on its
    line: the text before it ends a line and holds no [latest] field, and
    the closing quote ends the line or the text *)
Definition latest_line_first (v text : string) : Prop :=
  exists a b,
    text = a +:+ nl +:+ latest_head +:+ q +:+ v +:+ q +:+ b /\
    Str.contains latest_head a = false /\
    (b = "" \/ exists b', b = nl +:+ b').

(** ** More sample inputs *)

(** a block text without [latest], [latestReleaseDate] and [link] *)
Definition sample_block_plain : string :=
  "  - releaseCycle: " +:+ q +:+ "10.2" +:+ q +:+ nl +:+ "    eol: false".

(** a block followed by the end marker *)
Definition sample_terminated_block : string :=
  sample_block_no_link +:+ nl +:+ "---" +:+ nl.

(** a stand-in for strptime on a corrupt feed: every timestamp is
    rejected *)
Definition sample_rejecting_date (s : string) : option string := None.

(** the sample feed, latest release first *)
Definition sample_feed_reversed : list ReleaseRecord :=
  [mkRecord "10.2.4-h1" "2025/06/01 00:00:00";
   mkRecord "10.2.3" "2025/01/01 00:00:00"].

(** * Properties *)

(** ** Strings *)

#[local] Arguments String.append !s1 s2 : simpl nomatch.

Section StringFacts.

Implicit Types (s t u p : string) (c : ascii) (f : ascii -> bool).

Lemma append_nil_r s : s +:+ "" = s.
Proof. induction s as [|c s IH]; simpl; [done | by rewrite IH]. Qed.

Lemma append_assoc s t u : (s +:+ t) +:+ u = s +:+ t +:+ u.
Proof. induction s as [|c s IH]; simpl; [done | by rewrite IH]. Qed.

Lemma len_append s t : Str.len (s +:+ t) = (Str.len s + Str.len t)%nat.
Proof. induction s as [|c s IH]; simpl; [done | by rewrite IH]. Qed.

Lemma ascii_eqb_eq a b : Str.ascii_eqb a b = true <-> a = b.
Proof. apply Ascii.eqb_eq. Qed.

Lemma ascii_eqb_refl a : Str.ascii_eqb a a = true.
Proof. by apply ascii_eqb_eq. Qed.

Lemma strip_prefix_Some p s r : Str.strip_prefix p s = Some r <-> s = p +:+ r.
Proof.
  revert s; induction p as [|a p IH]; intros s; simpl.
  - split; congruence.
  - destruct s as [|b s]; [split; discriminate |].
    destruct (Str.ascii_eqb a b) eqn:E.
    + apply ascii_eqb_eq in E as ->. rewrite IH. split; congruence.
    + split; [discriminate |]. intros [= -> _]. by rewrite ascii_eqb_refl in E.
Qed.

Lemma strip_prefix_append p r : Str.strip_prefix p (p +:+ r) = Some r.
Proof. by apply strip_prefix_Some. Qed.

Lemma starts_with_true p s : Str.starts_with p s = true <-> exists r, s = p +:+ r.
Proof.
  unfold Str.starts_with. destruct (Str.strip_prefix p s) as [r|] eqn:E.
  - apply strip_prefix_Some in E. split; eauto.
  - split; [discriminate |]. intros [r Hr].
    apply strip_prefix_Some in Hr. congruence.
Qed.

Lemma take_drop n s : Str.take n s +:+ Str.drop n s = s.
Proof.
  revert s; induction n as [|n IH]; intros [|c s]; simpl; try done.
  by rewrite IH.
Qed.

Lemma take_append p r : Str.take (Str.len p) (p +:+ r) = p.
Proof. induction p as [|c p IH]; simpl; [by destruct r | by rewrite IH]. Qed.

Lemma drop_append p r : Str.drop (Str.len p) (p +:+ r) = r.
Proof. induction p as [|c p IH]; simpl; [by destruct r | done]. Qed.

Lemma drop_drop n m s : Str.drop n (Str.drop m s) = Str.drop (m + n) s.
Proof.
  revert s; induction m as [|m IH]; intros s; simpl; [done |].
  destruct s as [|c s]; [by destruct n | apply IH].
Qed.

Lemma all_append f s t : Str.all f (s +:+ t) = Str.all f s && Str.all f t.
Proof.
  induction s as [|c s IH]; simpl; [done |].
  rewrite IH. by destruct (f c).
Qed.

Lemma all_impl f g s :
  (forall c, f c = true -> g c = true) -> Str.all f s = true -> Str.all g s = true.
Proof.
  intros Hfg. induction s as [|c s IH]; simpl; [done |].
  intros [Hc Hs]%andb_true_iff. rewrite (Hfg _ Hc). by apply IH.
Qed.

(** what [span] returns: the split, the run, and why the run stopped *)
Lemma span_spec f s a b :
  Str.span f s = (a, b) ->
  s = a +:+ b /\ Str.all f a = true /\
  match b with String c _ => f c = false | EmptyString => True end.
Proof.
  revert a b; induction s as [|c s IH]; intros a b; simpl.
  - by intros [= <- <-].
  - destruct (f c) eqn:Hc.
    + destruct (Str.span f s) as [a' b'] eqn:E. intros [= <- <-].
      destruct (IH _ _ eq_refl) as (-> & Ha & Hb).
      split; [done |]. split; [|done]. simpl. by rewrite Hc.
    + intros [= <- <-]. done.
Qed.

(** a run followed by a character outside the class is what [span] finds *)
Lemma span_run f a b :
  Str.all f a = true ->
  match b with String c _ => f c = false | EmptyString => True end ->
  Str.span f (a +:+ b) = (a, b).
Proof.
  intros Ha Hb. induction a as [|c a IH]; simpl in *.
  - destruct b as [|c b]; simpl; [done | by rewrite Hb].
  - apply andb_true_iff in Ha as [Hc Ha]. by rewrite Hc, (IH Ha).
Qed.

End StringFacts.

(** ** Digit runs and the two version patterns *)

Lemma digits1_spec s d r :
  digits1 s = Some (d, r) ->
  s = d +:+ r /\ d <> "" /\ Str.all Str.is_digit d = true /\
  match r with String c _ => Str.is_digit c = false | EmptyString => True end.
Proof.
  unfold digits1. destruct (Str.span Str.is_digit s) as [a b] eqn:E.
  apply span_spec in E as (-> & Ha & Hb).
  destruct a as [|c a]; [discriminate |]. by intros [= <- <-].
Qed.

Lemma digits1_run d r :
  d <> "" -> Str.all Str.is_digit d = true ->
  match r with String c _ => Str.is_digit c = false | EmptyString => True end ->
  digits1 (d +:+ r) = Some (d, r).
Proof.
  intros Hd Ha Hr. unfold digits1. rewrite (span_run _ _ _ Ha Hr).
  by destruct d.
Qed.

Lemma match_triple_spec s g1 g2 g3 r :
  match_triple s = Some (g1, g2, g3, r) ->
  s = g1 +:+ "." +:+ g2 +:+ "." +:+ g3 +:+ r /\
  digits1 s = Some (g1, "." +:+ g2 +:+ "." +:+ g3 +:+ r) /\
  digits1 (g2 +:+ "." +:+ g3 +:+ r) = Some (g2, "." +:+ g3 +:+ r) /\
  digits1 (g3 +:+ r) = Some (g3, r).
Proof.
  unfold match_triple.
  destruct (digits1 s) as [[d1 r1]|] eqn:E1; [|discriminate].
  destruct (Str.strip_prefix "." r1) as [r1'|] eqn:P1; [|discriminate].
  destruct (digits1 r1') as [[d2 r2]|] eqn:E2; [|discriminate].
  destruct (Str.strip_prefix "." r2) as [r2'|] eqn:P2; [|discriminate].
  destruct (digits1 r2') as [[d3 r3]|] eqn:E3; [|discriminate].
  intros [= <- <- <- <-].
  apply strip_prefix_Some in P1 as ->. apply strip_prefix_Some in P2 as ->.
  pose proof (digits1_spec _ _ _ E1) as (-> & _).
  pose proof (digits1_spec _ _ _ E2) as (-> & _).
  pose proof (digits1_spec _ _ _ E3) as (-> & _).
  done.
Qed.

(** [get_release_cycle] reads the first two groups of the version pattern *)
Lemma get_release_cycle_of_triple s g1 g2 g3 r :
  match_triple s = Some (g1, g2, g3, r) ->
  get_release_cycle s = Some (g1 +:+ "." +:+ g2).
Proof.
  intros (_ & E1 & E2 & _)%match_triple_spec.
  unfold get_release_cycle. by rewrite E1, strip_prefix_append, E2.
Qed.

Lemma parse_version_triple v t :
  parse_version v = Some t ->
  exists g1 g2 g3 r h,
    match_triple v = Some (g1, g2, g3, r) /\
    t = (Str.int_of_digits g1, Str.int_of_digits g2, Str.int_of_digits g3, h).
Proof.
  unfold parse_version.
  destruct (match_triple v) as [[[[g1 g2] g3] r]|]; [|discriminate].
  intros H. exists g1, g2, g3, r.
  destruct (match_hotfix r) as [[g4 r']|];
    repeat match type of H with
           | (if ?b then _ else _) = _ => destruct b
           end; try discriminate; injection H as <-; eauto.
Qed.

Lemma get_release_cycle_nonempty v c : get_release_cycle v = Some c -> c <> "".
Proof.
  unfold get_release_cycle.
  destruct (digits1 v) as [[d1 r]|] eqn:E; [|discriminate].
  apply digits1_spec in E as (_ & Hd & _).
  destruct (Str.strip_prefix "." r); [|discriminate].
  destruct (digits1 _) as [[d2 ?]|]; [|discriminate].
  intros [= <-]. by destruct d1.
Qed.

(** ** parse_version *)

Lemma digit_is_version_char c : Str.is_digit c = true -> version_char c = true.
Proof. unfold version_char. by intros ->. Qed.

Lemma digit_run_chars d : digit_run d -> Str.all version_char d = true.
Proof. intros [_ H]. eapply all_impl; [apply digit_is_version_char | done]. Qed.

Lemma version_format_chars s : version_format s -> Str.all version_char s = true.
Proof.
  destruct 1 as [g1 g2 g3 H1 H2 H3 | g1 g2 g3 g4 H1 H2 H3 H4];
    rewrite !all_append, (digit_run_chars _ H1), (digit_run_chars _ H2),
      (digit_run_chars _ H3), ?(digit_run_chars _ H4); reflexivity.
Qed.

Lemma digit_not_dot c : Str.is_digit c = true -> Str.ascii_eqb c "." = false.
Proof. destruct (Str.ascii_eqb c ".") eqn:E; [|done]. by apply ascii_eqb_eq in E as ->. Qed.

Lemma digit_not_dash c : Str.is_digit c = true -> Str.ascii_eqb c "-" = false.
Proof. destruct (Str.ascii_eqb c "-") eqn:E; [|done]. by apply ascii_eqb_eq in E as ->. Qed.

Lemma digit_not_newline c : Str.is_digit c = true -> Str.ascii_eqb c Str.newline = false.
Proof.
  destruct (Str.ascii_eqb c Str.newline) eqn:E; [|done].
  by apply ascii_eqb_eq in E as ->.
Qed.

Lemma digits1_before_dot d r :
  digit_run d -> digits1 (d +:+ "." +:+ r) = Some (d, "." +:+ r).
Proof. intros [Hd Ha]. by apply digits1_run. Qed.

Lemma match_triple_format g1 g2 g3 r :
  digit_run g1 -> digit_run g2 -> digit_run g3 ->
  match r with String c _ => Str.is_digit c = false | EmptyString => True end ->
  match_triple (g1 +:+ "." +:+ g2 +:+ "." +:+ g3 +:+ r) = Some (g1, g2, g3, r).
Proof.
  intros H1 H2 [H3 H3'] Hr. unfold match_triple.
  rewrite (digits1_before_dot _ _ H1), strip_prefix_append.
  rewrite (digits1_before_dot _ _ H2), strip_prefix_append.
  by rewrite (digits1_run _ _ H3 H3' Hr).
Qed.

(** completeness: every string of the format parses, with hotfix 0 when
    the suffix is absent *)
Lemma parse_version_of_format s :
  version_format s ->
  exists g1 g2 g3 h,
    parse_version s
    = Some (Str.int_of_digits g1, Str.int_of_digits g2, Str.int_of_digits g3, h).
Proof.
  destruct 1 as [g1 g2 g3 H1 H2 H3 | g1 g2 g3 g4 H1 H2 H3 H4].
  - exists g1, g2, g3, 0. unfold parse_version.
    pose proof (match_triple_format g1 g2 g3 "" H1 H2 H3 I) as E.
    rewrite append_nil_r in E. by rewrite E.
  - exists g1, g2, g3, (Str.int_of_digits g4). unfold parse_version.
    rewrite (match_triple_format g1 g2 g3 ("-h" +:+ g4) H1 H2 H3) by done.
    unfold match_hotfix. rewrite strip_prefix_append.
    destruct H4 as [H4 H4'].
    pose proof (digits1_run g4 "" H4 H4' I) as E. rewrite append_nil_r in E.
    by rewrite E.
Qed.

Lemma at_dollar_cases r : at_dollar r = true -> r = "" \/ r = nl.
Proof.
  destruct r as [|c [|? ?]]; simpl; try done; [by left |].
  intros ->%ascii_eqb_eq. by right.
Qed.

(** soundness: what parses is of the format, up to one final newline *)
Lemma parse_version_format_or_newline s t :
  parse_version s = Some t ->
  version_format s \/ exists s0, s = s0 +:+ nl /\ version_format s0.
Proof.
  unfold parse_version.
  destruct (match_triple s) as [[[[g1 g2] g3] r]|] eqn:E; [|discriminate].
  pose proof (match_triple_spec _ _ _ _ _ E) as (-> & E1 & E2 & E3).
  apply digits1_spec in E1 as (_ & N1 & A1 & _).
  apply digits1_spec in E2 as (_ & N2 & A2 & _).
  apply digits1_spec in E3 as (_ & N3 & A3 & _).
  assert (plain : at_dollar r = true ->
            version_format (g1 +:+ "." +:+ g2 +:+ "." +:+ g3 +:+ r) \/
            exists s0, g1 +:+ "." +:+ g2 +:+ "." +:+ g3 +:+ r = s0 +:+ nl
                       /\ version_format s0).
  { intros [-> | ->]%at_dollar_cases.
    - left. rewrite append_nil_r. by constructor.
    - right. exists (g1 +:+ "." +:+ g2 +:+ "." +:+ g3).
      split; [by rewrite !append_assoc | by constructor]. }
  destruct (match_hotfix r) as [[g4 r']|] eqn:Eh.
  - unfold match_hotfix in Eh.
    destruct (Str.strip_prefix "-h" r) as [r0|] eqn:Ep; [|discriminate].
    apply strip_prefix_Some in Ep as ->.
    apply digits1_spec in Eh as (-> & N4 & A4 & _).
    destruct (at_dollar r') eqn:Ed.
    + intros _. apply at_dollar_cases in Ed as [-> | ->].
      * left. rewrite append_nil_r. by constructor.
      * right. exists (g1 +:+ "." +:+ g2 +:+ "." +:+ g3 +:+ "-h" +:+ g4).
        split; [by rewrite !append_assoc | by constructor].
    + destruct (at_dollar _) eqn:Ed'; [|discriminate]. intros _. by apply plain.
  - destruct (at_dollar r) eqn:Ed; [|discriminate]. intros _. by apply plain.
Qed.

(** the examples of the docstring *)
Lemma parse_version_docstring :
  parse_version "12.1.4-h2" = Some (12, 1, 4, 2) /\
  parse_version "12.1.4" = Some (12, 1, 4, 0) /\
  parse_version "10.2.10-h31" = Some (10, 2, 10, 31).
Proof. by vm_compute. Qed.

(** C5: the pattern ends in [$], which also holds just before a final
    newline, so [parse_version] returns a tuple for a string that is not of
    the form major.minor.patch[-hN]: here the text 12.1.4 followed by a
    newline character. *)
Theorem parse_version_accepts_final_newline :
  parse_version ("12.1.4" +:+ nl) = Some (12, 1, 4, 0) /\
  ~ version_format ("12.1.4" +:+ nl).
Proof.
  split; [by vm_compute |].
  intros H%version_format_chars. by vm_compute in H.
Qed.

(** ** Decimal renderings *)

Lemma is_digit_cases c :
  Str.is_digit c = true ->
  c ∈ ["0"; "1"; "2"; "3"; "4"; "5"; "6"; "7"; "8"; "9"]%char.
Proof.
  destruct c as [[] [] [] [] [] [] [] []]; intros H; try discriminate H;
    set_solver.
Qed.

Ltac digit_cases c H :=
  apply is_digit_cases in H;
  repeat (apply elem_of_cons in H as [-> | H]);
  [.. | by apply elem_of_nil in H].

(** the digits of a run, as the standard library's decimal numbers *)
Lemma uint_of_digit_run d :
  Str.all Str.is_digit d = true ->
  exists u, NilEmpty.uint_of_string d = Some u /\
    (forall acc, Str.int_acc (Z.pos acc) d = Z.pos (Pos.of_uint_acc u acc)) /\
    Str.int_of_digits d = Z.of_N (Pos.of_uint u).
Proof.
  induction d as [|c d IH]; simpl.
  - intros _. by exists Decimal.Nil.
  - intros [Hc Hd]%andb_true_iff. destruct (IH Hd) as (u & Eu & Hacc & H0).
    unfold Str.int_of_digits in *.
    digit_cases c Hc; simpl; rewrite Eu; simpl;
      (eexists; split; [reflexivity |]); simpl;
      (split; [intros acc; rewrite <- Hacc; f_equal; vm_compute Str.digit_value; lia |]);
      try exact H0;
      match goal with
      | |- Str.int_acc ?z d = _ =>
          let p := eval vm_compute in z in
          change z with p; apply Hacc
      end.
Qed.

Lemma unorm_canonical d u :
  Str.all Str.is_digit d = true ->
  NilEmpty.uint_of_string d = Some u -> d <> "" -> canonical d = true ->
  Decimal.unorm u = u.
Proof.
  destruct d as [|c d]; [done |]. simpl.
  intros [Hc Hd]%andb_true_iff E _ Hcan.
  destruct (uint_of_digit_run d Hd) as (u' & Eu' & _).
  rewrite Eu' in E.
  digit_cases c Hc; simpl in E; injection E as <-; try reflexivity.
  destruct d as [|c' d]; [|discriminate Hcan].
  simpl in Eu'. by injection Eu' as <-.
Qed.

(** rendering the value of a run without leading zero gives the run back *)
Lemma py_str_int_of_digits d :
  digit_run d -> canonical d = true -> Str.py_str (Str.int_of_digits d) = d.
Proof.
  intros [Hne Hd] Hc.
  destruct (uint_of_digit_run d Hd) as (u & Eu & _ & ->).
  unfold Str.py_str.
  change (Z.of_N (Pos.of_uint u)) with (Z.of_int (Decimal.Pos u)).
  rewrite DecimalZ.to_of. simpl.
  rewrite (unorm_canonical _ _ Hd Eu Hne Hc).
  apply NilEmpty.sus in Eu as <-.
  unfold NilZero.string_of_uint. by destruct u.
Qed.

(** ** get_release_cycle against parse_version *)

(** C9, as stated, fails on a version with a leading zero: the cycle is
    the matched text, not the rendering of the parsed numbers. *)
Lemma cycle_keeps_leading_zero :
  ~ (forall v M m p h,
       parse_version v = Some (M, m, p, h) ->
       get_release_cycle v = Some (Str.py_str M +:+ "." +:+ Str.py_str m)).
Proof.
  intros H. specialize (H "012.1.4" 12 1 4 0 eq_refl). by vm_compute in H.
Qed.

(** C9 (amended): for a text of characters with code points below 256
    (where the digits of the patterns and of int() are 0-9), when
    [parse_version v] gives [(M, m, p, h)], [get_release_cycle v]
    succeeds and returns the two leading digit runs of [v] joined by a
    dot, whose values are [M] and [m]; it is the string M.m of the
    decimal renderings whenever neither run has a leading zero. *)
Theorem cycle_of_parsed_version v M m p h :
  parse_version v = Some (M, m, p, h) ->
  exists d1 d2,
    digit_run d1 /\ digit_run d2 /\
    Str.int_of_digits d1 = M /\ Str.int_of_digits d2 = m /\
    Str.starts_with (d1 +:+ "." +:+ d2 +:+ ".") v = true /\
    get_release_cycle v = Some (d1 +:+ "." +:+ d2) /\
    (canonical d1 = true -> canonical d2 = true ->
     get_release_cycle v = Some (Str.py_str M +:+ "." +:+ Str.py_str m)).
Proof.
  intros (g1 & g2 & g3 & r & h' & E & [= -> -> -> ->])%parse_version_triple.
  pose proof (get_release_cycle_of_triple _ _ _ _ _ E) as Hc.
  pose proof (match_triple_spec _ _ _ _ _ E) as (Hv & E1 & E2 & _).
  apply digits1_spec in E1 as (_ & N1 & A1 & _).
  apply digits1_spec in E2 as (_ & N2 & A2 & _).
  exists g1, g2. repeat split; try done.
  - apply starts_with_true. exists (g3 +:+ r). by rewrite Hv, !append_assoc.
  - intros C1 C2. by rewrite !py_str_int_of_digits.
Qed.

(** ** build_release_notes_url *)

Lemma pair_ge_spec major minor a b :
  pair_ge (major, minor) (a, b) = true <-> cycle_ge major minor a b.
Proof.
  unfold pair_ge, cycle_ge. simpl.
  destruct (Z.compare_spec major a); rewrite ?Z.geb_le; split; intros; lia.
Qed.

Lemma pair_ge_false major minor a b :
  pair_ge (major, minor) (a, b) = false <-> ~ cycle_ge major minor a b.
Proof. rewrite <- pair_ge_spec. by destruct (pair_ge _ _). Qed.

Lemma split_no_sep sep s :
  Str.all (fun c => negb (Str.ascii_eqb c sep)) s = true -> Str.split sep s = [s].
Proof.
  induction s as [|c s IH]; simpl; [done |].
  intros [Hc Hs]%andb_true_iff. apply negb_true_iff in Hc. by rewrite Hc, (IH Hs).
Qed.

Lemma split_at_sep sep a b :
  Str.all (fun c => negb (Str.ascii_eqb c sep)) a = true ->
  Str.split sep (a +:+ String sep b) = a :: Str.split sep b.
Proof.
  induction a as [|c a IH]; simpl.
  - intros _. by rewrite ascii_eqb_refl.
  - intros [Hc Hs]%andb_true_iff. apply negb_true_iff in Hc. by rewrite Hc, (IH Hs).
Qed.

Lemma digit_run_no_dot d :
  Str.all Str.is_digit d = true ->
  Str.all (fun c => negb (Str.ascii_eqb c ".")) d = true.
Proof.
  apply all_impl. intros c Hc. by rewrite (digit_not_dot _ Hc).
Qed.

Lemma py_int_digit_run d : digit_run d -> Str.py_int d = Some (Str.int_of_digits d).
Proof. intros [Hne Hd]. unfold Str.py_int. rewrite Hd. by destruct d. Qed.

Lemma get_release_cycle_spec v c :
  get_release_cycle v = Some c ->
  exists d1 d2, c = d1 +:+ "." +:+ d2 /\ digit_run d1 /\ digit_run d2.
Proof.
  unfold get_release_cycle.
  destruct (digits1 v) as [[d1 r]|] eqn:E1; [|discriminate].
  destruct (Str.strip_prefix "." r) as [r'|]; [|discriminate].
  destruct (digits1 r') as [[d2 r'']|] eqn:E2; [|discriminate].
  intros [= <-]. exists d1, d2.
  apply digits1_spec in E1 as (_ & ? & ? & _).
  apply digits1_spec in E2 as (_ & ? & ? & _). by repeat split.
Qed.

(** the body of the function once the cycle is known *)
Lemma build_url_of_cycle v d1 d2 :
  get_release_cycle v = Some (d1 +:+ "." +:+ d2) -> digit_run d1 -> digit_run d2 ->
  let major := Str.int_of_digits d1 in
  let minor := Str.int_of_digits d2 in
  let cycle_dashed := Str.py_str major +:+ "-" +:+ Str.py_str minor in
  build_release_notes_url v =
    if pair_ge (major, minor) (12, 1)
    then Ok (Some (template_A cycle_dashed (base_dashed v) (full_dashed v)))
    else if pair_ge (major, minor) (10, 1)
    then Ok (Some (template_B cycle_dashed (base_dashed v) (full_dashed v)))
    else if pair_ge (major, minor) (8, 1)
    then Ok (Some (template_C cycle_dashed (full_dashed v)))
    else Ok None.
Proof.
  intros Hc H1 H2. unfold build_release_notes_url. rewrite Hc.
  assert (Hs : Str.split "." (d1 +:+ "." +:+ d2) = [d1; d2]).
  { change (d1 +:+ "." +:+ d2) with (d1 +:+ String "."%char d2).
    rewrite split_at_sep by (apply digit_run_no_dot, H1).
    by rewrite split_no_sep by (apply digit_run_no_dot, H2). }
  destruct (d1 +:+ "." +:+ d2) as [|c0 s0] eqn:Ed;
    [by destruct H1 as [? _]; destruct d1 |].
  rewrite Hs, (py_int_digit_run _ H1), (py_int_digit_run _ H2).
  reflexivity.
Qed.

(** C3: the URL builder chooses its template by the release cycle, in
    descending order of thresholds: at least 12.1 gives the
    ngfw/release-notes template, at least 10.1 (and below 12.1) the
    pan-os/<cycle>/pan-os-release-notes template, at least 8.1 (and below
    10.1) the template that repeats the cycle as the issues directory,
    and below 8.1 no URL.  The URL of 12.1.4-h2 holds
    ngfw/release-notes/12-1 and pan-os-12-1-4-h2-addressed-issues, and a
    version of cycle 7.1 has no URL. *)
Theorem build_url_template_by_cycle :
  (forall v c,
     get_release_cycle v = Some c ->
     exists d1 d2,
       c = d1 +:+ "." +:+ d2 /\ digit_run d1 /\ digit_run d2 /\
       let major := Str.int_of_digits d1 in
       let minor := Str.int_of_digits d2 in
       let cycle_dashed := Str.py_str major +:+ "-" +:+ Str.py_str minor in
       (cycle_ge major minor 12 1 ->
        build_release_notes_url v
        = Ok (Some (template_A cycle_dashed (base_dashed v) (full_dashed v)))) /\
       (cycle_ge major minor 10 1 -> ~ cycle_ge major minor 12 1 ->
        build_release_notes_url v
        = Ok (Some (template_B cycle_dashed (base_dashed v) (full_dashed v)))) /\
       (cycle_ge major minor 8 1 -> ~ cycle_ge major minor 10 1 ->
        build_release_notes_url v
        = Ok (Some (template_C cycle_dashed (full_dashed v)))) /\
       (~ cycle_ge major minor 8 1 -> build_release_notes_url v = Ok None)) /\
  (exists url,
     build_release_notes_url "12.1.4-h2" = Ok (Some url) /\
     Str.contains "ngfw/release-notes/12-1" url = true /\
     Str.contains "pan-os-12-1-4-h2-addressed-issues" url = true) /\
  (forall v, get_release_cycle v = Some "7.1" -> build_release_notes_url v = Ok None).
Proof.
  split; [|split].
  - intros v c Hc.
    destruct (get_release_cycle_spec _ _ Hc) as (d1 & d2 & -> & H1 & H2).
    exists d1, d2. repeat (split; [done |]).
    pose proof (build_url_of_cycle v d1 d2 Hc H1 H2) as E. cbv zeta in *.
    repeat split.
    + intros G12%pair_ge_spec. by rewrite E, G12.
    + intros G10%pair_ge_spec G12%pair_ge_false. by rewrite E, G12, G10.
    + intros G8%pair_ge_spec G10%pair_ge_false.
      destruct (pair_ge _ (12, 1)) eqn:G12.
      { apply pair_ge_spec in G12. apply pair_ge_false in G10.
        unfold cycle_ge in *. lia. }
      by rewrite E, G10, G8.
    + intros G8%pair_ge_false.
      destruct (pair_ge _ (12, 1)) eqn:G12.
      { apply pair_ge_spec in G12. apply pair_ge_false in G8.
        unfold cycle_ge in *. lia. }
      destruct (pair_ge _ (10, 1)) eqn:G10.
      { apply pair_ge_spec in G10. apply pair_ge_false in G8.
        unfold cycle_ge in *. lia. }
      by rewrite E, G8.
  - eexists. split; [by vm_compute |]. split; by vm_compute.
  - intros v Hc. unfold build_release_notes_url. by rewrite Hc.
Qed.

(** ** parse_md_releases *)

Lemma drop_len_plus a n b : Str.drop (Str.len a + n) (a +:+ b) = Str.drop n b.
Proof. induction a as [|c a IH]; simpl; [done | apply IH]. Qed.

Lemma take_len_plus a n b : Str.take (Str.len a + n) (a +:+ b) = a +:+ Str.take n b.
Proof. induction a as [|c a IH]; simpl; [done | by rewrite IH]. Qed.

Lemma lazy_until_terminator_eq s :
  lazy_until_terminator s =
    if terminator_here s then Some O
    else match s with
         | EmptyString => None
         | String _ s' => S <$> lazy_until_terminator s'
         end.
Proof. by destruct s. Qed.

Lemma lazy_until_terminator_spec s k :
  lazy_until_terminator s = Some k -> terminator_here (Str.drop k s) = true.
Proof.
  revert k; induction s as [|c s IH]; intros k; rewrite lazy_until_terminator_eq.
  - destruct (terminator_here "") eqn:E; [|discriminate]. by intros [= <-].
  - destruct (terminator_here (String c s)) eqn:E; [by intros [= <-] |].
    destruct (lazy_until_terminator s) as [k'|]; [|discriminate].
    intros [= <-]. by apply IH.
Qed.

Lemma terminator_reachable s k :
  terminator_here (Str.drop k s) = true -> is_Some (lazy_until_terminator s).
Proof.
  revert k; induction s as [|c s IH]; intros k H; rewrite lazy_until_terminator_eq.
  - destruct k; simpl in H; by rewrite H.
  - destruct (terminator_here (String c s)) eqn:E; [done |].
    destruct k as [|k]; simpl in H; [congruence |].
    destruct (IH _ H) as [k' ->]. done.
Qed.

Lemma match_block_spec s cycle n :
  match_block s = Some (cycle, n) ->
  Str.starts_with block_head (Str.take n s) = true /\ (0 < n)%nat /\
  terminator_here (Str.drop n s) = true.
Proof.
  unfold match_block.
  destruct (Str.strip_prefix block_head s) as [r|] eqn:Ep; [|discriminate].
  apply strip_prefix_Some in Ep as ->.
  destruct (Str.span _ r) as [cy rest] eqn:Es.
  apply span_spec in Es as (-> & _ & _).
  destruct cy as [|c0 cy]; [discriminate |].
  destruct rest as [|c1 r']; [discriminate |].
  destruct (lazy_until_terminator r') as [k|] eqn:El; [|discriminate].
  intros H.
  assert (n = Str.len block_head + (Str.len (String c0 cy) + (1 + k)))%nat as ->
    by (injection H as _ <-; simpl; lia).
  clear H. split.
  { rewrite take_len_plus. apply starts_with_true; eauto. }
  split; [simpl; lia |].
  rewrite drop_len_plus, drop_len_plus.
  simpl. by apply lazy_until_terminator_spec.
Qed.

(** every match of [finditer] is a block text that starts with a
    release-cycle line and stops right before a terminator *)
Lemma finditer_spec s pos bol skip r :
  r ∈ finditer pos bol skip s ->
  exists k n,
    _start r = (pos + k)%nat /\ _end r = (pos + k + n)%nat /\ (0 < n)%nat /\
    _text r = Str.take n (Str.drop k s) /\
    Str.starts_with block_head (_text r) = true /\
    terminator_here (Str.drop (k + n) s) = true.
Proof.
  revert pos bol skip; induction s as [|c s IH]; intros pos bol skip; simpl.
  - by intros ?%elem_of_nil.
  - assert (shift : forall bol' skip',
      r ∈ finditer (S pos) bol' skip' s ->
      exists k n,
        _start r = (pos + k)%nat /\ _end r = (pos + k + n)%nat /\ (0 < n)%nat /\
        _text r = Str.take n (Str.drop k (String c s)) /\
        Str.starts_with block_head (_text r) = true /\
        terminator_here (Str.drop (k + n) (String c s)) = true).
    { intros bol' skip' (k & n & Hs & He & Hn & Ht & Hh & Hterm)%IH.
      exists (S k), n. simpl. repeat split; try done; lia. }
    destruct skip as [|skip]; [|apply shift].
    destruct (if bol then match_block (String c s) else None)
      as [[cycle n]|] eqn:Em; [|apply shift].
    intros [-> | Hr]%elem_of_cons; [|by eapply shift].
    destruct bol; [|discriminate].
    apply match_block_spec in Em as (Hh & Hn & Hterm).
    exists O, n. simpl. rewrite !Nat.add_0_r. by repeat split.
Qed.

(** C8, as stated, fails: a release-cycle line with no terminator after it
    does not stop the run.  The parser returns the empty sequence and the
    run ends with the no-updates marker and exit code 0. *)
Lemma unterminated_block_is_not_fatal :
  let doc := "  - releaseCycle: " +:+ q +:+ "10.1" +:+ q +:+ nl
             +:+ "    latest: " +:+ q +:+ "10.1.2" +:+ q +:+ nl in
  let w := mkWorld {[ "feed.json" := "[]"; "pan-os.md" := doc ]} []
             (fun _ => true) in
  let run := main (fun _ => None) (fun _ => Ok [])
                  (mkArgs "feed.json" "pan-os.md" "out.md") w in
  Str.starts_with block_head doc = true /\
  lazy_until_terminator doc = None /\
  parse_md_releases doc = [] /\
  run = (mkWorld (files w) ["NO_UPDATES"] (writable w), Raise (SystemExit 0)) /\
  exit_code (snd run) = 0.
Proof. by vm_compute. Qed.

(** C8 (amended): malformed structure is not an error.  The parser
    returns a block sequence for every document; each block it returns is
    the text between its two offsets, starts with a release-cycle line and
    is followed at once by a terminator, so a release-cycle line with no
    terminator after it yields no block, and a document in which no
    terminator is reachable yields the empty sequence. *)
Theorem parser_skips_unterminated_blocks content :
  (forall r, r ∈ parse_md_releases content ->
     (_start r < _end r)%nat /\
     _text r = Str.take (_end r - _start r) (Str.drop (_start r) content) /\
     Str.starts_with block_head (_text r) = true /\
     terminator_here (Str.drop (_end r) content) = true) /\
  (lazy_until_terminator content = None -> parse_md_releases content = []).
Proof.
  assert (blocks : forall r, r ∈ parse_md_releases content ->
     (_start r < _end r)%nat /\
     _text r = Str.take (_end r - _start r) (Str.drop (_start r) content) /\
     Str.starts_with block_head (_text r) = true /\
     terminator_here (Str.drop (_end r) content) = true).
  { intros r (k & n & -> & -> & Hn & Ht & Hh & Hterm)%finditer_spec.
    simpl. replace (k + n - k)%nat with n by lia.
    repeat split; [lia | done | done | done]. }
  split; [done |].
  intros Hnone. destruct (parse_md_releases content) as [|r l] eqn:E; [done |].
  destruct (blocks r) as (_ & _ & _ & Hterm); [apply list_elem_of_here |].
  apply terminator_reachable in Hterm as [k Hk]. congruence.
Qed.

(** ** apply_updates *)

Lemma tuple_gt_irrefl t : tuple_gt t t = false.
Proof.
  destruct t as [[[a b] c] d]. unfold tuple_gt.
  rewrite !Z.compare_refl, Z.gtb_ltb. apply Z.ltb_irrefl.
Qed.

Lemma latest_equals_at_least json_cycles r :
  latest_equals_feed json_cycles r -> latest_at_least_feed json_cycles r.
Proof.
  intros H e He. destruct (H e He) as (s & t & Hs & Ht & Hn).
  exists s, t. repeat split; try done.
  intros new. rewrite Hn. intros [= <-]. apply tuple_gt_irrefl.
Qed.

Lemma apply_step_up_to_date json_cycles st r :
  latest_at_least_feed json_cycles r -> apply_step json_cycles st r = Ok st.
Proof.
  intros H. unfold apply_step. destruct st as [content changes].
  destruct (json_cycles !! releaseCycle r) as [e|] eqn:He; [|done].
  destruct (H e He) as (s & cur & Hs & Hcur & Hle).
  rewrite Hs. simpl.
  destruct (parse_version (version e)) as [new|] eqn:Hn; [|done].
  destruct s as [|c s]; [discriminate Hcur |].
  rewrite Hcur. by rewrite (Hle new eq_refl).
Qed.

Lemma apply_loop_up_to_date json_cycles st releases :
  (forall r, r ∈ releases -> latest_at_least_feed json_cycles r) ->
  apply_loop json_cycles st releases = Ok st.
Proof.
  induction releases as [|r l IH]; intros H; simpl; [done |].
  rewrite apply_step_up_to_date by (apply H, list_elem_of_here). simpl.
  apply IH. intros r' Hr'. apply H. by apply list_elem_of_further.
Qed.

(** C2: a document in which every block's [latest] parses equal to the
    feed's version for its cycle comes back unchanged with an empty change
    list; more generally a block whose [latest] parses greater than or
    equal to the feed's candidate leaves the text and the change list as
    they were, and so does a whole document of such blocks. *)
Theorem apply_updates_up_to_date content releases json_cycles :
  ((forall r, r ∈ releases -> latest_equals_feed json_cycles r) ->
   apply_updates content releases json_cycles = Ok (content, [])) /\
  (forall r text changes,
     latest_at_least_feed json_cycles r ->
     apply_step json_cycles (text, changes) r = Ok (text, changes)) /\
  ((forall r, r ∈ releases -> latest_at_least_feed json_cycles r) ->
   apply_updates content releases json_cycles = Ok (content, [])).
Proof.
  assert (general : (forall r, r ∈ releases -> latest_at_least_feed json_cycles r) ->
                    apply_updates content releases json_cycles = Ok (content, [])).
  { intros H. apply apply_loop_up_to_date.
    intros r Hr. apply H. by apply elem_of_reverse. }
  repeat split.
  - intros H. apply general. intros r Hr. by apply latest_equals_at_least, H.
  - intros r text changes. apply apply_step_up_to_date.
  - exact general.
Qed.

(** a block without [latest] (or with an empty one) is compared against
    the zero tuple *)
Lemma apply_step_no_latest json_cycles content changes r e new :
  latest r = None \/ latest r = Some "" ->
  json_cycles !! releaseCycle r = Some e ->
  parse_version (version e) = Some new ->
  apply_step json_cycles (content, changes) r =
    if tuple_gt new zero_tuple
    then let? updated_block := update_block (_text r) (version e) (date e) in
         Ok (Str.take (_start r) content +:+ updated_block
               +:+ Str.drop (_end r) content,
             changes ++ [change_description (releaseCycle r) "" (version e)])
    else Ok (content, changes).
Proof.
  intros Hl He Hn. unfold apply_step. rewrite He, Hn.
  by destruct Hl as [-> | ->].
Qed.

(** C1: a block whose [latest] is a non-empty string that does not parse
    makes the comparison fail instead of being compared as the zero tuple:
    [parse_version] gives None and ordering a tuple against None raises
    TypeError. *)
Theorem apply_updates_unparseable_latest_raises :
  let content := "  - releaseCycle: " +:+ q +:+ "10.1" +:+ q +:+ nl
                 +:+ "    latest: " +:+ q +:+ "10.1.x" +:+ q +:+ nl
                 +:+ "---" +:+ nl in
  let json_cycles : gmap string CycleEntry :=
    {[ "10.1" := mkEntry "10.1.5" "2025-06-01" ]} in
  latest <$> parse_md_releases content = [Some "10.1.x"] /\
  parse_version "10.1.x" = None /\
  apply_updates content (parse_md_releases content) json_cycles = Raise TypeError.
Proof. by vm_compute. Qed.

(** C10: a non-empty change list does not imply a changed text.  For a
    block whose cycle has a strictly greater candidate but whose text has
    no quoted [latest] line, no [latestReleaseDate] line and no [link]
    line, a change description is appended and the text returned is the
    input. *)
Theorem change_reported_without_text_change :
  exists content json_cycles r e new,
    parse_md_releases content = [r] /\
    json_cycles !! releaseCycle r = Some e /\
    parse_version (version e) = Some new /\
    latest r = None /\ tuple_gt new zero_tuple = true /\
    Str.contains "latest: " (_text r) = false /\
    Str.contains "latestReleaseDate: " (_text r) = false /\
    Str.contains "link: " (_text r) = false /\
    apply_updates content [r] json_cycles = Ok (content, ["10.1:  -> 10.1.5"]).
Proof.
  exists ("  - releaseCycle: " +:+ q +:+ "10.1" +:+ q +:+ nl
          +:+ "    eol: false" +:+ nl +:+ "---" +:+ nl),
    {[ "10.1" := mkEntry "10.1.5" "2025-06-01" ]}.
  eexists _, (mkEntry "10.1.5" "2025-06-01"), (10, 1, 5, 0).
  by vm_compute.
Qed.

(** ** main *)

Lemma print_all_spec lines w :
  print_all lines w = (mkWorld (files w) (stdout w ++ lines) (writable w), Ok tt).
Proof.
  revert w; induction lines as [|l lines IH]; intros w; simpl.
  - unfold io_ret. rewrite app_nil_r. by destruct w.
  - unfold io_bind, print. rewrite IH. simpl. by rewrite <- app_assoc.
Qed.

Lemma report_updates_spec path updated changes w :
  writable w path = true ->
  (write_file path updated ;;; print "UPDATES_FOUND" ;;; print_all changes) w
  = (mkWorld (<[path := updated]> (files w))
             (stdout w ++ "UPDATES_FOUND" :: changes) (writable w), Ok tt).
Proof.
  intros Hw. unfold io_bind, write_file, print. rewrite Hw. simpl.
  rewrite print_all_spec. simpl. by rewrite <- app_assoc.
Qed.

Lemma report_updates_unwritable path updated changes w :
  writable w path = false ->
  (write_file path updated ;;; print "UPDATES_FOUND" ;;; print_all changes) w
  = (w, Raise OSError).
Proof. intros Hw. unfold io_bind, write_file. by rewrite Hw. Qed.


Section MainFacts.

Variable released_date : string -> option string.
Variable json_load : string -> result (list ReleaseRecord).



End MainFacts.

(** ** load_json_versions *)

Ltac tuple_order :=
  repeat match goal with
         | t : VersionTuple |- _ => destruct t as [[[? ?] ?] ?]
         end;
  unfold tuple_gt; rewrite ?Z.gtb_ltb;
  repeat match goal with
         | |- context [?x ?= ?y] => destruct (Z.compare_spec x y)
         | |- context [?x <? ?y] => destruct (Z.ltb_spec x y)
         end;
  try done; try lia.

Lemma tuple_gt_asym (a b : VersionTuple) : tuple_gt a b = true -> tuple_gt b a = false.
Proof. tuple_order. Qed.

Lemma tuple_gt_above (a b c : VersionTuple) :
  tuple_gt a b = true -> tuple_gt c b = false -> tuple_gt a c = true.
Proof. tuple_order. Qed.

Lemma candidate_fun cycle r t t' : candidate cycle r t -> candidate cycle r t' -> t = t'.
Proof. intros [H _] [H' _]. congruence. Qed.

Lemma candidate_cycle_fun c c' r t t' : candidate c r t -> candidate c' r t' -> c = c'.
Proof. intros [_ H] [_ H']. congruence. Qed.

(** a later record that is not strictly greater changes nothing *)
Lemma first_greatest_snoc_keep pre cycle i r t x :
  first_greatest pre cycle i r t ->
  (forall t', candidate cycle x t' -> tuple_gt t' t = false) ->
  first_greatest (pre ++ [x]) cycle i r t.
Proof.
  intros (Hi & Hc & Hall) Hx. split; [|split; [done |]].
  - by apply lookup_app_l_Some.
  - intros j r' t' [[Hj Hl] | [-> <-]]%lookup_snoc_Some Hc'.
    + by apply (Hall j r' t').
    + split; [by apply Hx |]. apply lookup_lt_Some in Hi. lia.
Qed.

(** a later record strictly greater than all before it becomes the one *)
Lemma first_greatest_snoc_new pre cycle x t :
  candidate cycle x t ->
  (forall j r' t', pre !! j = Some r' -> candidate cycle r' t' -> tuple_gt t t' = true) ->
  first_greatest (pre ++ [x]) cycle (length pre) x t.
Proof.
  intros Hc Hall. split; [|split; [done |]].
  - by rewrite lookup_app_r, Nat.sub_diag by lia.
  - intros j r' t' [[Hj Hl] | [-> <-]]%lookup_snoc_Some Hc'.
    + pose proof (Hall j r' t' Hl Hc') as G. split; [by apply tuple_gt_asym | done].
    + rewrite (candidate_fun _ _ _ _ Hc' Hc). split; [apply tuple_gt_irrefl | lia].
Qed.

Section LoaderFacts.

Variable released_date : string -> option string.

Lemma loaded_empty : loaded released_date [] ∅.
Proof. intros cycle. rewrite lookup_empty. by intros r t ?%elem_of_nil. Qed.

(** a record that is no candidate of any cycle leaves [loaded] as it is *)
Lemma loaded_snoc_skip pre m x :
  loaded released_date pre m -> (forall cycle t, ~ candidate cycle x t) ->
  loaded released_date (pre ++ [x]) m.
Proof.
  intros Hm Hx cycle. specialize (Hm cycle).
  destruct (m !! cycle) as [e|].
  - destruct Hm as (i & r & t & Hf & Hv & Hd). exists i, r, t.
    split; [|done]. apply first_greatest_snoc_keep; [done |].
    intros t' Hc. by destruct (Hx cycle t').
  - intros r t [Hr | ->%list_elem_of_singleton]%elem_of_app; [by apply Hm | apply Hx].
Qed.

Lemma load_step_loaded pre m x m' :
  loaded released_date pre m -> load_step released_date m x = Ok m' ->
  loaded released_date (pre ++ [x]) m'.
Proof.
  intros Hm. unfold load_step.
  destruct (parse_version (rec_version x)) as [parsed|] eqn:Hp.
  2:{ intros [= <-]. apply loaded_snoc_skip; [done |].
      intros cycle t [Ht _]. congruence. }
  destruct (get_release_cycle (rec_version x)) as [c|] eqn:Hc.
  2:{ intros [= <-]. apply loaded_snoc_skip; [done |].
      intros cycle t [_ Ht]. congruence. }
  pose proof (get_release_cycle_nonempty _ _ Hc) as Hne.
  destruct c as [|c0 c']; [done |]. set (c := String c0 c') in *.
  assert (Hcand : candidate c x parsed) by done.
  destruct (released_date (rec_released_on x)) as [d|] eqn:Hd; [|discriminate].
  assert (others : forall m0 : gmap string CycleEntry,
    (forall cycle, cycle <> c -> m0 !! cycle = m !! cycle) ->
    forall cycle, cycle <> c ->
      match m0 !! cycle with
      | Some e =>
          exists i r t, first_greatest (pre ++ [x]) cycle i r t /\
            version e = rec_version r /\
            released_date (rec_released_on r) = Some (date e)
      | None => forall r t, r ∈ pre ++ [x] -> ~ candidate cycle r t
      end).
  { intros m0 Hm0 cycle Hcy. rewrite (Hm0 cycle Hcy). specialize (Hm cycle).
    destruct (m !! cycle) as [e|].
    - destruct Hm as (i & r & t & Hf & Hv & Hdt). exists i, r, t.
      split; [|done]. apply first_greatest_snoc_keep; [done |].
      intros t' Hc'. destruct Hcy. by eapply candidate_cycle_fun.
    - intros r t [Hr | ->%list_elem_of_singleton]%elem_of_app; [by apply Hm |].
      intros Hc'. destruct Hcy. by eapply candidate_cycle_fun. }
  assert (inserted : forall e0,
    e0 = mkEntry (rec_version x) d ->
    first_greatest (pre ++ [x]) c (length pre) x parsed ->
    loaded released_date (pre ++ [x]) (<[c := e0]> m)).
  { intros e0 -> Hf cycle. destruct (decide (cycle = c)) as [-> | Hcy].
    - rewrite lookup_insert_eq. by exists (length pre), x, parsed.
    - apply others; [|done]. intros cy Hne'. by rewrite lookup_insert_ne. }
  pose proof (Hm c) as Hmc.
  destruct (m !! c) as [stored|] eqn:Hs.
  - destruct Hmc as (i & r & t & Hf & Hv & Hdt).
    pose proof Hf as (Hi & [Hrt Hrc] & Hall).
    rewrite Hv, Hrt.
    destruct (tuple_gt parsed t) eqn:Hgt; intros [= <-].
    + apply inserted; [done |]. apply first_greatest_snoc_new; [done |].
      intros j r' t' Hj Hc'. apply (tuple_gt_above _ t); [done |].
      by apply (Hall j r' t').
    + intros cycle. destruct (decide (cycle = c)) as [-> | Hcy].
      * rewrite Hs. exists i, r, t. split; [|done].
        apply first_greatest_snoc_keep; [done |].
        intros t' Hc'. by rewrite (candidate_fun _ _ _ _ Hc' Hcand).
      * by apply others.
  - intros [= <-]. apply inserted; [done |].
    apply first_greatest_snoc_new; [done |].
    intros j r' t' Hj Hc'. destruct (Hmc r' t'); [|done].
    by eapply list_elem_of_lookup_2.
Qed.

Lemma load_loop_loaded rest : forall pre m m',
  loaded released_date pre m -> load_loop released_date m rest = Ok m' ->
  loaded released_date (pre ++ rest) m'.
Proof.
  induction rest as [|x rest IH]; intros pre m m' Hm; simpl.
  - intros [= <-]. by rewrite app_nil_r.
  - destruct (load_step released_date m x) as [m1|] eqn:E; [|discriminate].
    intros Hl. rewrite cons_middle, app_assoc.
    eapply IH; [|done]. by eapply load_step_loaded.
Qed.

(** the loop never stops on the comparison: a stored version always
    parses; it stops on a malformed timestamp only *)
Lemma load_step_succeeds pre m x :
  loaded released_date pre m ->
  (forall t, parse_version (rec_version x) = Some t ->
             is_Some (released_date (rec_released_on x))) ->
  exists m', load_step released_date m x = Ok m'.
Proof.
  intros Hm Hd. unfold load_step.
  destruct (parse_version (rec_version x)) as [parsed|] eqn:Hp; [|eauto].
  destruct (get_release_cycle (rec_version x)) as [[|c0 c']|]; [eauto | | eauto].
  destruct (Hd parsed eq_refl) as [d ->].
  pose proof (Hm (String c0 c')) as Hmc.
  destruct (m !! String c0 c') as [stored|]; [|eauto].
  destruct Hmc as (i & r & t & (_ & [Hrt _] & _) & -> & _). rewrite Hrt.
  destruct (tuple_gt parsed t); eauto.
Qed.

Lemma load_loop_succeeds rest : forall pre m,
  loaded released_date pre m ->
  (forall r t, r ∈ rest -> parse_version (rec_version r) = Some t ->
               is_Some (released_date (rec_released_on r))) ->
  exists m', load_loop released_date m rest = Ok m'.
Proof.
  induction rest as [|x rest IH]; intros pre m Hm Hd; simpl; [eauto |].
  destruct (load_step_succeeds pre m x Hm) as [m1 E].
  { intros t. apply Hd, list_elem_of_here. }
  rewrite E. apply (IH (pre ++ [x])); [by eapply load_step_loaded |].
  intros r t Hr. apply Hd. by apply list_elem_of_further.
Qed.

(** C4: for every feed the loader maps each release cycle to the first
    record of that cycle with the greatest parsed tuple: a stored entry is
    replaced only by a later record that is strictly greater, equal tuples
    keep the first one seen, and a cycle without parseable record has no
    entry.  It returns a mapping whenever the timestamps of the parseable
    records are well formed.  With versions 10.1.2 and 10.1.5-h1 for cycle
    10.1, in either order, it retains 10.1.5-h1. *)
Theorem loader_keeps_first_greatest feed :
  ((forall r t, r ∈ feed -> parse_version (rec_version r) = Some t ->
                is_Some (released_date (rec_released_on r))) ->
   exists m, load_json_entries released_date feed = Ok m) /\
  (forall m, load_json_entries released_date feed = Ok m ->
     forall cycle,
       match m !! cycle with
       | Some e =>
           exists i r t, first_greatest feed cycle i r t /\
             version e = rec_version r /\
             released_date (rec_released_on r) = Some (date e)
       | None => forall r t, r ∈ feed -> ~ candidate cycle r t
       end) /\
  (forall on1 on2 d1 d2,
     released_date on1 = Some d1 -> released_date on2 = Some d2 ->
     load_json_entries released_date
       [mkRecord "10.1.2" on1; mkRecord "10.1.5-h1" on2]
     = Ok {[ "10.1" := mkEntry "10.1.5-h1" d2 ]} /\
     load_json_entries released_date
       [mkRecord "10.1.5-h1" on2; mkRecord "10.1.2" on1]
     = Ok {[ "10.1" := mkEntry "10.1.5-h1" d2 ]}).
Proof.
  split; [|split].
  - intros Hd. by apply (load_loop_succeeds feed [] ∅ loaded_empty).
  - intros m Hl. by apply (load_loop_loaded feed [] ∅ m loaded_empty).
  - intros on1 on2 d1 d2 H1 H2.
    unfold load_json_entries, load_loop, load_step. simpl.
    rewrite H1, H2. split; vm_compute; reflexivity.
Qed.

End LoaderFacts.

(** ** Substrings *)

Lemma starts_with_nil s : Str.starts_with "" s = true.
Proof. done. Qed.

Lemma starts_with_cons a p b s :
  Str.starts_with (String a p) (String b s) = Str.ascii_eqb a b && Str.starts_with p s.
Proof. unfold Str.starts_with. simpl. by destruct (Str.ascii_eqb a b). Qed.

Lemma starts_with_app_l p a b :
  Str.starts_with p a = true -> Str.starts_with p (a +:+ b) = true.
Proof.
  intros [r ->]%starts_with_true. apply starts_with_true.
  exists (r +:+ b). by rewrite append_assoc.
Qed.

Lemma contains_app_l needle a b :
  Str.contains needle a = true -> Str.contains needle (a +:+ b) = true.
Proof.
  induction a as [|c a IH]; simpl.
  - rewrite orb_false_r. intros H.
    destruct needle; [by destruct b | done].
  - intros [H | H]%orb_true_iff; apply orb_true_iff.
    + left. by apply (starts_with_app_l _ (String c a)).
    + right. by apply IH.
Qed.

Lemma contains_app_r needle a b :
  Str.contains needle b = true -> Str.contains needle (a +:+ b) = true.
Proof.
  intros H. induction a as [|c a IH]; simpl; [done |].
  apply orb_true_iff. by right.
Qed.

(** a prefix of [a ++ rest] lies within [a] or reaches into [rest] *)
Lemma starts_with_split needle a rest :
  Str.starts_with needle (a +:+ rest) = true ->
  Str.starts_with needle a = true \/
  exists n2, needle = a +:+ n2 /\ Str.starts_with n2 rest = true.
Proof.
  revert needle; induction a as [|c a IH]; intros needle; simpl.
  - intros H. right. by exists needle.
  - destruct needle as [|x needle]; [by left |].
    rewrite !starts_with_cons.
    intros [Hx H]%andb_true_iff. rewrite Hx. simpl.
    apply ascii_eqb_eq in Hx as ->.
    destruct (IH _ H) as [Hl | (n2 & -> & Hn2)]; [by left |].
    right. by exists n2.
Qed.

Lemma char_in_append c a b : char_in c (a +:+ b) = char_in c a || char_in c b.
Proof. induction a as [|x a IH]; simpl; [done |]. by rewrite IH, orb_assoc. Qed.

(** an occurrence of [needle] cannot run over text that avoids it *)
Lemma contains_through_gap needle a t b :
  t <> "" -> avoids needle t = true ->
  Str.contains needle (a +:+ t +:+ b) = true ->
  Str.contains needle a = true \/ Str.contains needle b = true.
Proof.
  intros Ht Hav.
  assert (gap : forall t', avoids needle t' = true ->
            Str.contains needle (t' +:+ b) = true ->
            needle = "" \/ Str.contains needle b = true).
  { induction t' as [|c t' IH]; simpl; [by right |].
    intros [Hc Hav']%andb_true_iff [H | H]%orb_true_iff; [|by apply IH].
    destruct needle as [|x needle]; [by left |].
    rewrite starts_with_cons in H. apply andb_true_iff in H as [Hx _].
    simpl in Hc. by rewrite Hx in Hc. }
  induction a as [|x a IH]; simpl.
  - intros H. destruct (gap t Hav H) as [-> | Hb]; [by left | by right].
  - intros [H | H]%orb_true_iff.
    + apply (starts_with_split needle (String x a)) in H
        as [H | (n2 & -> & Hn2)].
      * left. apply orb_true_iff. by left.
      * destruct t as [|c t]; [done |]. simpl in Hav.
        apply andb_true_iff in Hav as [Hc _].
        destruct n2 as [|y n2].
        { left. rewrite append_nil_r. apply orb_true_iff. left.
          apply starts_with_true. exists "". by rewrite append_nil_r. }
        simpl in Hn2. rewrite starts_with_cons in Hn2.
        apply andb_true_iff in Hn2 as [Hy _].
        apply negb_true_iff in Hc.
        change (String x a +:+ String y n2) with (String x (a +:+ String y n2)) in Hc.
        simpl in Hc. rewrite char_in_append in Hc. simpl in Hc.
        rewrite Hy in Hc. by rewrite !orb_true_r in Hc.
    + destruct (IH H) as [Ha | Hb]; [|by right].
      left. apply orb_true_iff. by right.
Qed.

(** ** re.sub *)

Section SubScan.

Variable try : string -> option nat.
Variable head tail : string.

(** a match starts with the literal group 1 and is not empty *)
Hypothesis try_spec : forall s n,
  try s = Some n ->
  exists w rest, s = head +:+ w +:+ rest /\ n = (Str.len head + Str.len w)%nat /\ (0 < n)%nat.

Lemma sub_scan_skip skip s :
  (skip <= Str.len s)%nat ->
  sub_scan try (head +:+ tail) skip s = sub_scan try (head +:+ tail) O (Str.drop skip s).
Proof.
  revert skip; induction s as [|c s IH]; intros skip Hs.
  - by destruct skip.
  - destruct skip as [|skip]; [done |]. simpl in *. apply IH. lia.
Qed.

Lemma sub_scan_match s n w rest :
  try s = Some n -> s = head +:+ w +:+ rest -> n = (Str.len head + Str.len w)%nat ->
  (0 < n)%nat ->
  sub_scan try (head +:+ tail) O s
  = head +:+ tail +:+ sub_scan try (head +:+ tail) O rest.
Proof.
  intros Ht Hs Hn Hpos. destruct s as [|c s'].
  { apply (f_equal Str.len) in Hs. rewrite !len_append in Hs. simpl in Hs. lia. }
  simpl. rewrite Ht. rewrite append_assoc. do 2 f_equal.
  assert (Hd : Str.drop n (String c s') = rest).
  { rewrite Hs, Hn, <- (Nat.add_0_r (Str.len w)), <- append_assoc.
    rewrite Nat.add_assoc, <- len_append. by rewrite drop_len_plus. }
  destruct n as [|n]; [lia |]. simpl in Hd. simpl.
  rewrite sub_scan_skip; [by rewrite Hd |].
  apply (f_equal Str.len) in Hs. rewrite !len_append in Hs. simpl in Hs. lia.
Qed.

(** a substitution whose inserted text avoids [needle] creates no
    occurrence of [needle] *)
Lemma sub_scan_no_new needle :
  tail <> "" -> avoids needle tail = true ->
  forall k s p, (Str.len s <= k)%nat ->
    Str.contains needle (p +:+ sub_scan try (head +:+ tail) O s) = true ->
    Str.contains needle (p +:+ s) = true.
Proof.
  intros Ht Hav. induction k as [|k IH]; intros s p Hk.
  { destruct s; [done | simpl in Hk; lia]. }
  destruct s as [|c s']; [done |].
  destruct (try (String c s')) as [n|] eqn:Etry.
  - destruct (try_spec _ _ Etry) as (w & rest & Hs & Hn & Hpos).
    rewrite (sub_scan_match _ _ _ _ Etry Hs Hn Hpos), Hs.
    rewrite <- (append_assoc p head). intros H.
    apply contains_through_gap in H as [H | H]; try done.
    + rewrite <- (append_assoc p head). by apply contains_app_l.
    + apply contains_app_r, contains_app_r, contains_app_r.
      apply (IH rest ""); [|done].
      apply (f_equal Str.len) in Hs. rewrite !len_append in Hs.
      simpl in Hs, Hk. lia.
  - simpl. rewrite Etry.
    change (p +:+ String c ?x) with (p +:+ (String c "" +:+ x)).
    rewrite <- !(append_assoc p). apply IH. simpl in Hk. lia.
Qed.

End SubScan.

(** ** update_block *)

Lemma match_latest_spec s n :
  match_latest s = Some n ->
  exists w rest, s = latest_head +:+ w +:+ rest /\
    n = (Str.len latest_head + Str.len w)%nat /\ (0 < n)%nat.
Proof.
  unfold match_latest.
  destruct (Str.strip_prefix (latest_head +:+ q) s) as [r|] eqn:Ep; [|discriminate].
  apply strip_prefix_Some in Ep as ->.
  destruct (Str.span _ r) as [old rest] eqn:Es.
  apply span_spec in Es as (-> & _ & _).
  destruct rest as [|c rest]; [discriminate |]. intros [= <-].
  exists (q +:+ old +:+ String c ""), rest. split; [|split].
  - rewrite !append_assoc. done.
  - rewrite !len_append. simpl. lia.
  - simpl. lia.
Qed.

Lemma match_head_nonspace_spec head s n :
  match_head_nonspace head s = Some n ->
  exists w rest, s = head +:+ w +:+ rest /\
    n = (Str.len head + Str.len w)%nat /\ (0 < n)%nat.
Proof.
  unfold match_head_nonspace.
  destruct (Str.strip_prefix head s) as [r|] eqn:Ep; [|discriminate].
  apply strip_prefix_Some in Ep as ->.
  destruct (Str.span _ r) as [w rest] eqn:Es.
  apply span_spec in Es as (-> & _ & _).
  destruct w as [|c w]; [discriminate |]. intros [= <-].
  exists (String c w), rest. repeat split. simpl. lia.
Qed.

Lemma parse_version_chars v t :
  parse_version v = Some t -> Str.all parsed_char v = true.
Proof.
  assert (weaken : forall s, Str.all version_char s = true -> Str.all parsed_char s = true).
  { intros s. apply all_impl. intros c Hc. unfold parsed_char. by rewrite Hc. }
  intros [H | (s0 & -> & H)]%parse_version_format_or_newline.
  - by apply weaken, version_format_chars.
  - rewrite all_append, (weaken _ (version_format_chars _ H)). done.
Qed.

Lemma all_no_backslash_literal s :
  Str.all (fun c => negb (Str.ascii_eqb c Str.backslash)) s = true ->
  literal_template s = true.
Proof.
  unfold literal_template. intros H. apply negb_true_iff.
  induction s as [|c s IH]; simpl in *; [done |].
  apply andb_true_iff in H as [Hc Hs]. rewrite (IH Hs), orb_false_r.
  rewrite starts_with_cons. apply negb_true_iff in Hc.
  destruct (Str.ascii_eqb Str.backslash c) eqn:E; [|done].
  apply ascii_eqb_eq in E as <-. by rewrite ascii_eqb_refl in Hc.
Qed.

Lemma parsed_char_plain c : parsed_char c = true -> plain_char c = true.
Proof. destruct c as [[] [] [] [] [] [] [] []]; by vm_compute. Qed.

Lemma date_char_plain c : date_char c = true -> plain_char c = true.
Proof. destruct c as [[] [] [] [] [] [] [] []]; by vm_compute. Qed.

Lemma parsed_char_avoids_link c :
  parsed_char c = true -> negb (char_in c "    link:") = true.
Proof. destruct c as [[] [] [] [] [] [] [] []]; by vm_compute. Qed.

Lemma date_char_avoids_link c :
  date_char c = true -> negb (char_in c "    link:") = true.
Proof. destruct c as [[] [] [] [] [] [] [] []]; by vm_compute. Qed.

Lemma all_split p sep s :
  Str.all p s = true -> Forall (fun w => Str.all p w = true) (Str.split sep s).
Proof.
  induction s as [|c s IH]; simpl; [by repeat constructor |].
  intros [Hc Hs]%andb_true_iff. specialize (IH Hs).
  destruct (Str.ascii_eqb c sep); [by constructor |].
  destruct (Str.split sep s) as [|w ws]; [by repeat constructor; simpl; rewrite Hc |].
  inversion_clear IH. constructor; [simpl; by rewrite Hc | done].
Qed.

Lemma all_replace p a b s :
  Str.all p s = true -> p b = true -> Str.all p (Str.replace a b s) = true.
Proof.
  intros Hs Hb. induction s as [|c s IH]; simpl in *; [done |].
  apply andb_true_iff in Hs as [Hc Hs]. rewrite (IH Hs), andb_true_r.
  by destruct (Str.ascii_eqb c a).
Qed.

Lemma all_string_of_uint u : Str.all plain_char (NilEmpty.string_of_uint u) = true.
Proof. induction u; simpl; by rewrite ?IHu. Qed.

Lemma all_py_str n : Str.all plain_char (Str.py_str n) = true.
Proof.
  unfold Str.py_str, NilZero.string_of_int, NilZero.string_of_uint.
  destruct n as [|p|p]; simpl; [done | |];
    destruct (Pos.to_uint p) eqn:E; simpl; rewrite ?all_string_of_uint; done.
Qed.

Lemma all_base_dashed p v :
  Str.all p v = true -> p "-"%char = true -> Str.all p (base_dashed v) = true.
Proof.
  intros Hv Hd. unfold base_dashed. apply all_replace; [|done].
  pose proof (all_split p "-" v Hv) as F.
  destruct (Str.split "-" v) as [|w ws]; [done |]. by inversion_clear F.
Qed.

Lemma all_full_dashed p v :
  Str.all p v = true -> p "-"%char = true -> Str.all p (full_dashed v) = true.
Proof.
  intros Hv Hd. unfold full_dashed.
  pose proof (all_split p "-" v Hv) as F.
  pose proof (all_base_dashed p v Hv Hd) as Hb.
  destruct (Str.split "-" v !! 1%nat) as [[|c h]|] eqn:E; try done.
  rewrite !all_append, Hb. simpl. rewrite Hd. simpl.
  rewrite Forall_lookup in F. by apply (F _ _ E).
Qed.

(** the URL builder never raises *)
Lemma build_release_notes_url_total v :
  exists o, build_release_notes_url v = Ok o.
Proof.
  destruct (get_release_cycle v) as [c|] eqn:Hc.
  - destruct (get_release_cycle_spec _ _ Hc) as (d1 & d2 & -> & H1 & H2).
    rewrite (build_url_of_cycle v d1 d2 Hc H1 H2).
    repeat match goal with |- context [if ?b then _ else _] => destruct b end; eauto.
  - unfold build_release_notes_url. rewrite Hc. eauto.
Qed.

(** the URL of a version made of plain characters is plain *)
Lemma build_release_notes_url_plain v url :
  Str.all plain_char v = true ->
  build_release_notes_url v = Ok (Some url) -> Str.all plain_char url = true.
Proof.
  intros Hv.
  destruct (get_release_cycle v) as [c|] eqn:Hc.
  2:{ unfold build_release_notes_url. by rewrite Hc. }
  destruct (get_release_cycle_spec _ _ Hc) as (d1 & d2 & -> & H1 & H2).
  rewrite (build_url_of_cycle v d1 d2 Hc H1 H2).
  pose proof (all_base_dashed plain_char v Hv eq_refl) as Hb.
  pose proof (all_full_dashed plain_char v Hv eq_refl) as Hf.
  repeat match goal with |- context [if ?b then _ else _] => destruct b end;
    intros [= <-];
    unfold template_A, template_B, template_C;
    rewrite !all_append, ?all_py_str, ?Hb, ?Hf;
    change (Str.all plain_char (String "-" ?x))
      with (plain_char "-" && Str.all plain_char x);
    rewrite all_py_str; reflexivity.
Qed.

(** C6: on an update the [link] field is rewritten only if a URL can be
    built for the new version and the block text already holds a [link]
    field: otherwise the result is the text after the [latest] and
    [latestReleaseDate] rewrites alone; and a block without a [link] field
    has none afterwards.  The new version parses (line 171) and the date
    has the loader's form. *)
Theorem link_rewritten_only_when_present block new_version new_date :
  is_Some (parse_version new_version) -> iso_date new_date ->
  exists b1 b2 updated,
    re_sub match_latest latest_head (q +:+ new_version +:+ q) block = Ok b1 /\
    re_sub (match_head_nonspace date_head) date_head new_date b1 = Ok b2 /\
    update_block block new_version new_date = Ok updated /\
    (build_release_notes_url new_version = Ok None \/ has_link_field block = false ->
     updated = b2) /\
    (has_link_field block = false -> has_link_field updated = false).
Proof.
  intros [t Hp] [Hdne Hd].
  pose proof (parse_version_chars _ _ Hp) as Hv.
  assert (Hvplain : Str.all plain_char new_version = true)
    by (eapply all_impl; [apply parsed_char_plain | done]).
  assert (L1 : literal_template (q +:+ new_version +:+ q) = true).
  { apply all_no_backslash_literal. fold plain_char.
    by rewrite !all_append, Hvplain. }
  assert (L2 : literal_template new_date = true).
  { apply all_no_backslash_literal. fold plain_char.
    eapply all_impl; [apply date_char_plain | done]. }
  set (b1 := sub_scan match_latest (latest_head +:+ q +:+ new_version +:+ q) O block).
  set (b2 := sub_scan (match_head_nonspace date_head) (date_head +:+ new_date) O b1).
  assert (keep : has_link_field b2 = true -> has_link_field block = true).
  { unfold has_link_field. intros H2.
    apply (sub_scan_no_new _ _ _ (match_head_nonspace_spec date_head)
             "    link:" Hdne) with (k := Str.len b1) (p := "") in H2; [|  | lia].
    2:{ eapply all_impl; [apply date_char_avoids_link | done]. }
    apply (sub_scan_no_new _ _ _ match_latest_spec "    link:")
      with (k := Str.len block) (p := "") in H2; [done | by destruct new_version | | lia].
    unfold avoids. rewrite !all_append. simpl.
    rewrite andb_true_r. eapply all_impl; [apply parsed_char_avoids_link | done]. }
  assert (keep' : has_link_field block = false -> has_link_field b2 = false).
  { intros Hb. destruct (has_link_field b2); [|done]. by rewrite keep in Hb. }
  destruct (build_release_notes_url_total new_version) as [o Ho].
  assert (E1 : re_sub match_latest latest_head (q +:+ new_version +:+ q) block = Ok b1)
    by (unfold re_sub; by rewrite L1).
  assert (E2 : re_sub (match_head_nonspace date_head) date_head new_date b1 = Ok b2)
    by (unfold re_sub; by rewrite L2).
  assert (E : update_block block new_version new_date =
              match o with
              | None | Some EmptyString => Ok b2
              | Some url =>
                  if has_link_field b2
                  then re_sub (match_head_nonspace link_head) link_head url b2
                  else Ok b2
              end).
  { unfold update_block. rewrite Ho. cbv beta iota delta [rbind].
    rewrite E1. cbv beta iota. rewrite E2. reflexivity. }
  destruct o as [[|c url]|].
  - exists b1, b2, b2. by repeat split.
  - destruct (has_link_field b2) eqn:Hl2.
    + pose proof (keep eq_refl) as Hl.
      assert (L3 : literal_template (String c url) = true).
      { apply all_no_backslash_literal. fold plain_char.
        by apply (build_release_notes_url_plain new_version). }
      unfold re_sub in E. rewrite L3 in E.
      exists b1, b2,
        (sub_scan (match_head_nonspace link_head) (link_head +:+ String c url) O b2).
      repeat split; [done | done | exact E | |].
      * intros [Hn | Hn]; congruence.
      * congruence.
    + exists b1, b2, b2. by repeat split.
  - exists b1, b2, b2. by repeat split.
Qed.

(** ** The theorems at sample inputs *)

Lemma cycle_of_parsed_version_witness :
  parse_version "12.1.4-h2" = Some (12, 1, 4, 2) /\
  exists d1 d2,
    digit_run d1 /\ digit_run d2 /\
    Str.int_of_digits d1 = 12 /\ Str.int_of_digits d2 = 1 /\
    Str.starts_with (d1 +:+ "." +:+ d2 +:+ ".") "12.1.4-h2" = true /\
    get_release_cycle "12.1.4-h2" = Some (d1 +:+ "." +:+ d2) /\
    (canonical d1 = true -> canonical d2 = true ->
     get_release_cycle "12.1.4-h2" = Some (Str.py_str 12 +:+ "." +:+ Str.py_str 1)).
Proof.
  split; [reflexivity |].
  apply (cycle_of_parsed_version "12.1.4-h2" 12 1 4 2). reflexivity.
Defined.

Lemma build_url_template_by_cycle_witness :
  get_release_cycle "7.1.26" = Some "7.1" /\
  build_release_notes_url "7.1.26" = Ok None.
Proof.
  split; [reflexivity |].
  apply (proj2 (proj2 build_url_template_by_cycle) "7.1.26"). reflexivity.
Defined.

Lemma parser_skips_unterminated_blocks_witness :
  exists r,
    r ∈ parse_md_releases (sample_doc "10.2.3") /\
    (_start r < _end r)%nat /\
    _text r = Str.take (_end r - _start r)
                (Str.drop (_start r) (sample_doc "10.2.3")) /\
    Str.starts_with block_head (_text r) = true /\
    terminator_here (Str.drop (_end r) (sample_doc "10.2.3")) = true.
Proof.
  eexists. split; [vm_compute; apply list_elem_of_here |].
  apply (proj1 (parser_skips_unterminated_blocks (sample_doc "10.2.3"))).
  vm_compute. apply list_elem_of_here.
Defined.

Lemma apply_updates_up_to_date_witness :
  (forall r, r ∈ parse_md_releases (sample_doc "10.2.4-h1") ->
             latest_equals_feed sample_cycles r) /\
  apply_updates (sample_doc "10.2.4-h1")
    (parse_md_releases (sample_doc "10.2.4-h1")) sample_cycles
  = Ok (sample_doc "10.2.4-h1", []).
Proof.
  assert (H : forall r, r ∈ parse_md_releases (sample_doc "10.2.4-h1") ->
                        latest_equals_feed sample_cycles r).
  { intros r Hr. vm_compute in Hr. apply list_elem_of_singleton in Hr.
    rewrite Hr. intros e He. vm_compute in He. injection He as <-.
    exists "10.2.4-h1", (10, 2, 4, 1). by vm_compute. }
  split; [exact H |].
  exact (proj1 (apply_updates_up_to_date _ _ sample_cycles) H).
Defined.


Lemma loader_keeps_first_greatest_witness :
  load_json_entries sample_released_date sample_feed = Ok sample_cycles /\
  forall cycle,
    match sample_cycles !! cycle with
    | Some e =>
        exists i r t, first_greatest sample_feed cycle i r t /\
          version e = rec_version r /\
          sample_released_date (rec_released_on r) = Some (date e)
    | None => forall r t, r ∈ sample_feed -> ~ candidate cycle r t
    end.
Proof.
  assert (H : load_json_entries sample_released_date sample_feed = Ok sample_cycles)
    by (vm_compute; reflexivity).
  split; [exact H |].
  exact (proj1 (proj2 (loader_keeps_first_greatest sample_released_date sample_feed))
           sample_cycles H).
Defined.

Lemma link_rewritten_only_when_present_witness :
  is_Some (parse_version "10.2.4-h1") /\ iso_date "2025-06-01" /\
  exists b1 b2 updated,
    re_sub match_latest latest_head (q +:+ "10.2.4-h1" +:+ q) sample_block_no_link
      = Ok b1 /\
    re_sub (match_head_nonspace date_head) date_head "2025-06-01" b1 = Ok b2 /\
    update_block sample_block_no_link "10.2.4-h1" "2025-06-01" = Ok updated /\
    (build_release_notes_url "10.2.4-h1" = Ok None \/
     has_link_field sample_block_no_link = false -> updated = b2) /\
    (has_link_field sample_block_no_link = false -> has_link_field updated = false).
Proof.
  assert (Hp : is_Some (parse_version "10.2.4-h1"))
    by (exists (10, 2, 4, 1); reflexivity).
  assert (Hd : iso_date "2025-06-01") by (split; [discriminate | reflexivity]).
  split; [exact Hp |]. split; [exact Hd |].
  exact (link_rewritten_only_when_present sample_block_no_link "10.2.4-h1"
           "2025-06-01" Hp Hd).
Defined.

(** * Further properties *)

(** ** parse_version: values, domain and order *)

Lemma parse_version_plain g1 g2 g3 tail :
  digit_run g1 -> digit_run g2 -> digit_run g3 -> tail = "" \/ tail = nl ->
  parse_version (g1 +:+ "." +:+ g2 +:+ "." +:+ g3 +:+ tail)
  = Some (Str.int_of_digits g1, Str.int_of_digits g2, Str.int_of_digits g3, 0).
Proof.
  intros H1 H2 H3 Ht. unfold parse_version.
  rewrite (match_triple_format g1 g2 g3 tail H1 H2 H3)
    by (by destruct Ht as [-> | ->]).
  by destruct Ht as [-> | ->].
Qed.

Lemma parse_version_hotfix g1 g2 g3 g4 tail :
  digit_run g1 -> digit_run g2 -> digit_run g3 -> digit_run g4 ->
  tail = "" \/ tail = nl ->
  parse_version (g1 +:+ "." +:+ g2 +:+ "." +:+ g3 +:+ "-h" +:+ g4 +:+ tail)
  = Some (Str.int_of_digits g1, Str.int_of_digits g2, Str.int_of_digits g3,
          Str.int_of_digits g4).
Proof.
  intros H1 H2 H3 [H4 H4'] Ht. unfold parse_version.
  rewrite (match_triple_format g1 g2 g3 ("-h" +:+ g4 +:+ tail) H1 H2 H3) by done.
  unfold match_hotfix. rewrite strip_prefix_append.
  rewrite (digits1_run g4 tail H4 H4') by (by destruct Ht as [-> | ->]).
  by destruct Ht as [-> | ->].
Qed.

Lemma int_acc_nonneg d : forall acc,
  Str.all Str.is_digit d = true -> 0 <= acc -> 0 <= Str.int_acc acc d.
Proof.
  induction d as [|c d IH]; intros acc; simpl; [done |].
  intros [Hc Hd]%andb_true_iff Hacc. apply IH; [done |].
  unfold Str.digit_value. unfold Str.is_digit in Hc.
  apply andb_true_iff in Hc as [Hlo _]. apply Nat.leb_le in Hlo. lia.
Qed.

Lemma int_of_digits_nonneg d : digit_run d -> 0 <= Str.int_of_digits d.
Proof. intros [_ H]. by apply int_acc_nonneg. Qed.

Lemma parse_version_nonneg v a b c d :
  parse_version v = Some (a, b, c, d) -> 0 <= a /\ 0 <= b /\ 0 <= c /\ 0 <= d.
Proof.
  intros H.
  destruct (parse_version_format_or_newline _ _ H) as [F | (s0 & -> & F)].
  - destruct F as [g1 g2 g3 H1 H2 H3 | g1 g2 g3 g4 H1 H2 H3 H4].
    + pose proof (parse_version_plain g1 g2 g3 "" H1 H2 H3 (or_introl eq_refl)) as E.
      rewrite append_nil_r in E. rewrite E in H. injection H as <- <- <- <-.
      repeat split; try by apply int_of_digits_nonneg. done.
    + pose proof (parse_version_hotfix g1 g2 g3 g4 "" H1 H2 H3 H4 (or_introl eq_refl)) as E.
      rewrite append_nil_r in E. rewrite E in H. injection H as <- <- <- <-.
      repeat split; by apply int_of_digits_nonneg.
  - destruct F as [g1 g2 g3 H1 H2 H3 | g1 g2 g3 g4 H1 H2 H3 H4].
    + pose proof (parse_version_plain g1 g2 g3 nl H1 H2 H3 (or_intror eq_refl)) as E.
      rewrite !append_assoc in H. rewrite E in H. injection H as <- <- <- <-.
      repeat split; try by apply int_of_digits_nonneg. done.
    + pose proof (parse_version_hotfix g1 g2 g3 g4 nl H1 H2 H3 H4 (or_intror eq_refl)) as E.
      rewrite !append_assoc in H. rewrite E in H. injection H as <- <- <- <-.
      repeat split; by apply int_of_digits_nonneg.
Qed.

(** X1: for runs of the digits 0-9 that int() accepts (at most
    [int_max_str_digits] digits each; a longer run makes line 27 raise
    ValueError), the tuple holds the integer values of the runs, in
    order; without the suffix the hotfix is 0, with it the value of its
    run. *)
Theorem parse_version_values g1 g2 g3 g4 :
  digit_run g1 -> digit_run g2 -> digit_run g3 -> digit_run g4 ->
  (Str.len g1 <= int_max_str_digits)%nat ->
  (Str.len g2 <= int_max_str_digits)%nat ->
  (Str.len g3 <= int_max_str_digits)%nat ->
  (Str.len g4 <= int_max_str_digits)%nat ->
  parse_version (g1 +:+ "." +:+ g2 +:+ "." +:+ g3)
  = Some (Str.int_of_digits g1, Str.int_of_digits g2, Str.int_of_digits g3, 0) /\
  parse_version (g1 +:+ "." +:+ g2 +:+ "." +:+ g3 +:+ "-h" +:+ g4)
  = Some (Str.int_of_digits g1, Str.int_of_digits g2, Str.int_of_digits g3,
          Str.int_of_digits g4).
Proof.
  intros H1 H2 H3 H4 _ _ _ _. split.
  - pose proof (parse_version_plain g1 g2 g3 "" H1 H2 H3 (or_introl eq_refl)) as E.
    by rewrite append_nil_r in E.
  - pose proof (parse_version_hotfix g1 g2 g3 g4 "" H1 H2 H3 H4 (or_introl eq_refl)) as E.
    by rewrite append_nil_r in E.
Qed.

(** X2: on a string of at most [int_max_str_digits] characters (so that
    int() accepts every digit run of it), [parse_version] returns a tuple
    exactly when the string has the form major.minor.patch with an
    optional -hN suffix, in the digits 0-9, or is such a string followed
    by one newline, which it reads as the string without the newline; on
    every other string within the limit it returns None. *)
Theorem parse_version_domain s :
  (Str.len s <= int_max_str_digits)%nat ->
  (is_Some (parse_version s) <->
   version_format s \/ exists s0, s = s0 +:+ nl /\ version_format s0) /\
  (version_format s -> parse_version (s +:+ nl) = parse_version s) /\
  (~ version_format s -> (forall s0, s = s0 +:+ nl -> ~ version_format s0) ->
   parse_version s = None).
Proof.
  intros _.
  assert (nl_same : forall s0, version_format s0 ->
            parse_version (s0 +:+ nl) = parse_version s0 /\
            is_Some (parse_version s0)).
  { intros s0 [g1 g2 g3 H1 H2 H3 | g1 g2 g3 g4 H1 H2 H3 H4].
    - pose proof (parse_version_plain g1 g2 g3 "" H1 H2 H3 (or_introl eq_refl)) as E.
      rewrite append_nil_r in E. rewrite E, !append_assoc.
      by rewrite (parse_version_plain g1 g2 g3 nl H1 H2 H3 (or_intror eq_refl)).
    - pose proof (parse_version_hotfix g1 g2 g3 g4 "" H1 H2 H3 H4 (or_introl eq_refl)) as E.
      rewrite append_nil_r in E. rewrite E, !append_assoc.
      by rewrite (parse_version_hotfix g1 g2 g3 g4 nl H1 H2 H3 H4 (or_intror eq_refl)). }
  split; [split |split].
  - intros [t Ht]. by eapply parse_version_format_or_newline.
  - intros [F | (s0 & -> & F)].
    + by apply nl_same.
    + destruct (nl_same _ F) as [-> ?]. done.
  - intros F. by apply nl_same.
  - intros Hn Hn'. destruct (parse_version s) as [t|] eqn:E; [|done].
    destruct (parse_version_format_or_newline _ _ E) as [F | (s0 & -> & F)];
      [done | by destruct (Hn' s0)].
Qed.

(** X3: no parsed version is below the zero tuple that stands for a
    missing [latest], and only the tuple of 0.0.0 is not above it. *)
Theorem zero_tuple_is_least v t :
  parse_version v = Some t ->
  tuple_gt zero_tuple t = false /\
  (tuple_gt t zero_tuple = false <-> t = zero_tuple).
Proof.
  destruct t as [[[a b] c] d]. intros (Ha & Hb & Hc & Hd)%parse_version_nonneg.
  unfold zero_tuple. split.
  - tuple_order.
  - split.
    + unfold tuple_gt. rewrite Z.gtb_ltb.
      destruct (Z.compare_spec a 0); [subst | lia | done].
      destruct (Z.compare_spec b 0); [subst | lia | done].
      destruct (Z.compare_spec c 0); [subst | lia | done].
      destruct (Z.ltb_spec 0 d); [done |]. intros _. repeat f_equal. lia.
    + intros [= -> -> -> ->]. done.
Qed.

(** X4: a hotfix release is newer than its base version exactly when its
    number is positive: -h0 parses to the tuple of the base version, and
    the base version is never newer than one of its hotfixes. *)
Theorem hotfix_above_base g1 g2 g3 g4 :
  digit_run g1 -> digit_run g2 -> digit_run g3 -> digit_run g4 ->
  exists base hot,
    parse_version (g1 +:+ "." +:+ g2 +:+ "." +:+ g3) = Some base /\
    parse_version (g1 +:+ "." +:+ g2 +:+ "." +:+ g3 +:+ "-h" +:+ g4) = Some hot /\
    (tuple_gt hot base = true <-> 0 < Str.int_of_digits g4) /\
    (Str.int_of_digits g4 = 0 <-> hot = base) /\
    tuple_gt base hot = false.
Proof.
  intros H1 H2 H3 H4.
  pose proof (parse_version_plain g1 g2 g3 "" H1 H2 H3 (or_introl eq_refl)) as E.
  pose proof (parse_version_hotfix g1 g2 g3 g4 "" H1 H2 H3 H4 (or_introl eq_refl)) as E'.
  rewrite append_nil_r in E, E'.
  pose proof (int_of_digits_nonneg _ H4) as Hn.
  eexists _, _. split; [exact E |]. split; [exact E' |].
  unfold tuple_gt. rewrite !Z.compare_refl, !Z.gtb_ltb. repeat split.
  - by intros ?%Z.ltb_lt.
  - by intros ?%Z.ltb_lt.
  - by intros ->.
  - by intros [= ->].
  - apply Z.ltb_ge. done.
Qed.

(** ** get_release_cycle and build_release_notes_url *)

Lemma split_cycle d1 d2 :
  digit_run d1 -> digit_run d2 -> Str.split "." (d1 +:+ "." +:+ d2) = [d1; d2].
Proof.
  intros H1 H2. change (d1 +:+ "." +:+ d2) with (d1 +:+ String "."%char d2).
  rewrite split_at_sep by (apply digit_run_no_dot, H1).
  by rewrite split_no_sep by (apply digit_run_no_dot, H2).
Qed.

Lemma cycle_runs_inj d1 d2 e1 e2 :
  digit_run d1 -> digit_run d2 -> digit_run e1 -> digit_run e2 ->
  d1 +:+ "." +:+ d2 = e1 +:+ "." +:+ e2 -> d1 = e1 /\ d2 = e2.
Proof.
  intros H1 H2 He1 He2 Heq.
  pose proof (split_cycle d1 d2 H1 H2) as Hs.
  rewrite Heq, (split_cycle e1 e2 He1 He2) in Hs. by injection Hs.
Qed.

(** X5: the release cycle is the text matched at the start of the string:
    it is a prefix of the string, it is its own release cycle, and it is
    found whatever follows it, as long as that is not one more digit. *)
Theorem get_release_cycle_is_prefix v c :
  get_release_cycle v = Some c ->
  Str.starts_with c v = true /\
  get_release_cycle c = Some c /\
  forall rest,
    match rest with String x _ => Str.is_digit x = false | EmptyString => True end ->
    get_release_cycle (c +:+ rest) = Some c.
Proof.
  unfold get_release_cycle at 1.
  destruct (digits1 v) as [[d1 r]|] eqn:E1; [|discriminate].
  destruct (Str.strip_prefix "." r) as [r'|] eqn:Ep; [|discriminate].
  destruct (digits1 r') as [[d2 r'']|] eqn:E2; [|discriminate].
  intros [= <-].
  apply digits1_spec in E1 as (-> & N1 & A1 & _).
  apply strip_prefix_Some in Ep as ->.
  apply digits1_spec in E2 as (-> & N2 & A2 & _).
  assert (again : forall rest,
    match rest with String x _ => Str.is_digit x = false | EmptyString => True end ->
    get_release_cycle ((d1 +:+ "." +:+ d2) +:+ rest) = Some (d1 +:+ "." +:+ d2)).
  { intros rest Hr. rewrite !append_assoc. unfold get_release_cycle.
    rewrite digits1_before_dot by done. rewrite strip_prefix_append.
    by rewrite (digits1_run d2 rest N2 A2 Hr). }
  split; [|split; [|done]].
  - apply starts_with_true. exists r''. by rewrite !append_assoc.
  - specialize (again "" I). by rewrite append_nil_r in again.
Qed.

(** X6: on a string of at most [int_max_str_digits] characters (so that
    int() accepts the two parts of its cycle) the URL builder does not
    raise: the cycle always splits at its dot into two digit runs.  It
    gives no URL exactly when the string has no release cycle or its
    cycle is below 8.1. *)
Theorem build_release_notes_url_never_raises v :
  (Str.len v <= int_max_str_digits)%nat ->
  (exists o, build_release_notes_url v = Ok o) /\
  (build_release_notes_url v = Ok None <->
   get_release_cycle v = None \/
   exists d1 d2, get_release_cycle v = Some (d1 +:+ "." +:+ d2) /\
     digit_run d1 /\ digit_run d2 /\
     ~ cycle_ge (Str.int_of_digits d1) (Str.int_of_digits d2) 8 1).
Proof.
  intros _. split; [apply build_release_notes_url_total |].
  destruct (get_release_cycle v) as [c|] eqn:Hc.
  - destruct (get_release_cycle_spec _ _ Hc) as (d1 & d2 & -> & H1 & H2).
    pose proof (build_url_of_cycle v d1 d2 Hc H1 H2) as E. cbv zeta in E.
    rewrite E. clear E.
    destruct (pair_ge _ (12, 1)) eqn:G12.
    { split; [done |]. intros [? | (e1 & e2 & [= Heq] & He1 & He2 & Hlt)]; [done |].
      exfalso. apply pair_ge_spec in G12.
      destruct (cycle_runs_inj _ _ _ _ H1 H2 He1 He2 Heq) as [<- <-].
      unfold cycle_ge in *. lia. }
    destruct (pair_ge _ (10, 1)) eqn:G10.
    { split; [done |]. intros [? | (e1 & e2 & [= Heq] & He1 & He2 & Hlt)]; [done |].
      exfalso. apply pair_ge_spec in G10.
      destruct (cycle_runs_inj _ _ _ _ H1 H2 He1 He2 Heq) as [<- <-].
      unfold cycle_ge in *. lia. }
    destruct (pair_ge _ (8, 1)) eqn:G8.
    { split; [done |]. intros [? | (e1 & e2 & [= Heq] & He1 & He2 & Hlt)]; [done |].
      exfalso. apply pair_ge_spec in G8.
      destruct (cycle_runs_inj _ _ _ _ H1 H2 He1 He2 Heq) as [<- <-].
      done. }
    split; [|done]. intros _. right. exists d1, d2.
    repeat split; try done; try apply H1; try apply H2.
    by apply pair_ge_false.
  - split; [by left |]. intros _. unfold build_release_notes_url. by rewrite Hc.
Qed.

(** ** The dashed forms of a version *)

Lemma replace_append a b s t :
  Str.replace a b (s +:+ t) = Str.replace a b s +:+ Str.replace a b t.
Proof. induction s as [|c s IH]; simpl; [done | by rewrite IH]. Qed.

Lemma replace_absent a b s :
  Str.all (fun c => negb (Str.ascii_eqb c a)) s = true -> Str.replace a b s = s.
Proof.
  induction s as [|c s IH]; simpl; [done |].
  intros [Hc Hs]%andb_true_iff. apply negb_true_iff in Hc. by rewrite Hc, IH.
Qed.

Lemma digit_run_no_dash d :
  Str.all Str.is_digit d = true ->
  Str.all (fun c => negb (Str.ascii_eqb c "-")) d = true.
Proof.
  apply all_impl. intros c Hc. by rewrite (digit_not_dash _ Hc).
Qed.

Lemma replace_dots_triple g1 g2 g3 :
  digit_run g1 -> digit_run g2 -> digit_run g3 ->
  Str.replace "." "-" (g1 +:+ "." +:+ g2 +:+ "." +:+ g3)
  = g1 +:+ "-" +:+ g2 +:+ "-" +:+ g3.
Proof.
  intros [_ H1] [_ H2] [_ H3]. rewrite !replace_append.
  rewrite (replace_absent _ _ g1), (replace_absent _ _ g2), (replace_absent _ _ g3)
    by (by apply digit_run_no_dot).
  reflexivity.
Qed.

Lemma triple_no_dash g1 g2 g3 :
  digit_run g1 -> digit_run g2 -> digit_run g3 ->
  Str.all (fun c => negb (Str.ascii_eqb c "-")) (g1 +:+ "." +:+ g2 +:+ "." +:+ g3) = true.
Proof.
  intros [_ H1] [_ H2] [_ H3]. rewrite !all_append.
  by rewrite (digit_run_no_dash g1), (digit_run_no_dash g2), (digit_run_no_dash g3).
Qed.

(** X7: for a version of the form major.minor.patch the base and the full
    dashed forms are both the version with its dots turned into dashes;
    with a hotfix suffix the base form drops the suffix and the full form
    appends it, so the full form is again the whole version with dots
    turned into dashes. *)
Theorem dashed_forms_of_version g1 g2 g3 g4 :
  digit_run g1 -> digit_run g2 -> digit_run g3 -> digit_run g4 ->
  let plain := g1 +:+ "." +:+ g2 +:+ "." +:+ g3 in
  let hot := plain +:+ "-h" +:+ g4 in
  base_dashed plain = g1 +:+ "-" +:+ g2 +:+ "-" +:+ g3 /\
  full_dashed plain = base_dashed plain /\
  base_dashed hot = base_dashed plain /\
  full_dashed hot = base_dashed plain +:+ "-h" +:+ g4 /\
  full_dashed hot = Str.replace "." "-" hot.
Proof.
  intros H1 H2 H3 H4 plain hot.
  pose proof (triple_no_dash g1 g2 g3 H1 H2 H3) as Hnd. fold plain in Hnd.
  pose proof (replace_dots_triple g1 g2 g3 H1 H2 H3) as Hrep. fold plain in Hrep.
  assert (Sp : Str.split "-" plain = [plain]) by by apply split_no_sep.
  assert (Sh : Str.split "-" hot = [plain; "h" +:+ g4]).
  { unfold hot. change (plain +:+ "-h" +:+ g4) with (plain +:+ String "-"%char ("h" +:+ g4)).
    rewrite split_at_sep by done.
    rewrite split_no_sep; [done |].
    simpl. apply digit_run_no_dash, H4. }
  assert (Bp : base_dashed plain = g1 +:+ "-" +:+ g2 +:+ "-" +:+ g3).
  { unfold base_dashed. by rewrite Sp. }
  assert (Bh : base_dashed hot = base_dashed plain).
  { unfold base_dashed. by rewrite Sp, Sh. }
  assert (Fh : full_dashed hot = base_dashed plain +:+ "-h" +:+ g4).
  { unfold full_dashed. rewrite Sh, Bh. reflexivity. }
  repeat split; try done.
  - unfold full_dashed. by rewrite Sp.
  - rewrite Fh, Bp. unfold hot. rewrite !replace_append, Hrep.
    rewrite (replace_absent _ _ g4) by (apply digit_run_no_dot, H4).
    by rewrite !append_assoc.
Qed.

(** ** load_json_versions: errors, skipped records and the order of the feed *)

Lemma tuple_gt_total (a b : VersionTuple) :
  tuple_gt a b = false -> tuple_gt b a = false -> a = b.
Proof.
  destruct a as [[[a1 a2] a3] a4], b as [[[b1 b2] b3] b4].
  unfold tuple_gt. rewrite !Z.gtb_ltb.
  destruct (Z.compare_spec a1 b1); [subst | |]; try done.
  2:{ destruct (Z.compare_spec b1 a1); try done; lia. }
  rewrite Z.compare_refl.
  destruct (Z.compare_spec a2 b2); [subst | |]; try done.
  2:{ destruct (Z.compare_spec b2 a2); try done; lia. }
  rewrite Z.compare_refl.
  destruct (Z.compare_spec a3 b3); [subst | |]; try done.
  2:{ destruct (Z.compare_spec b3 a3); try done; lia. }
  rewrite Z.compare_refl.
  intros H1%Z.ltb_ge H2%Z.ltb_ge. repeat f_equal. lia.
Qed.

Lemma parsed_has_cycle v t :
  parse_version v = Some t ->
  exists c0 c', get_release_cycle v = Some (String c0 c').
Proof.
  intros (g1 & g2 & g3 & r & h & E & _)%parse_version_triple.
  pose proof (get_release_cycle_of_triple _ _ _ _ _ E) as Hc.
  pose proof (get_release_cycle_nonempty _ _ Hc) as Hne.
  destruct (g1 +:+ "." +:+ g2) as [|c0 c']; [done |]. by exists c0, c'.
Qed.

Section LoaderErrors.

Variable released_date : string -> option string.

(** a record that parses and whose timestamp is malformed *)
Lemma load_step_bad_timestamp m x t :
  parse_version (rec_version x) = Some t ->
  released_date (rec_released_on x) = None ->
  load_step released_date m x = Raise ValueError.
Proof.
  intros Hp Hd. unfold load_step. rewrite Hp.
  destruct (parsed_has_cycle _ _ Hp) as (c0 & c' & ->). by rewrite Hd.
Qed.

Lemma load_step_unparseable m x :
  parse_version (rec_version x) = None -> load_step released_date m x = Ok m.
Proof. intros Hp. unfold load_step. by rewrite Hp. Qed.

Lemma load_step_raises pre m x e :
  loaded released_date pre m -> load_step released_date m x = Raise e ->
  e = ValueError /\ is_Some (parse_version (rec_version x)) /\
  released_date (rec_released_on x) = None.
Proof.
  intros Hm He.
  destruct (parse_version (rec_version x)) as [t|] eqn:Hp.
  2:{ by rewrite load_step_unparseable in He. }
  destruct (released_date (rec_released_on x)) as [d|] eqn:Hd.
  { destruct (load_step_succeeds released_date pre m x Hm) as [m' E].
    - intros t' _. by rewrite Hd.
    - by rewrite E in He. }
  rewrite (load_step_bad_timestamp m x t Hp Hd) in He.
  injection He as <-. by repeat split.
Qed.

Lemma load_loop_raises rest : forall pre m e,
  loaded released_date pre m -> load_loop released_date m rest = Raise e ->
  e = ValueError /\
  exists r, r ∈ rest /\ is_Some (parse_version (rec_version r)) /\
            released_date (rec_released_on r) = None.
Proof.
  induction rest as [|x rest IH]; intros pre m e Hm; simpl; [done |].
  destruct (load_step released_date m x) as [m1|e1] eqn:E.
  - intros Hl. destruct (IH (pre ++ [x]) m1 e) as (-> & r & Hr & Hbad);
      [by eapply load_step_loaded | done |].
    split; [done |]. exists r. split; [by apply list_elem_of_further | done].
  - intros [= <-]. destruct (load_step_raises pre m x e1 Hm E) as (-> & Hbad).
    split; [done |]. exists x. split; [apply list_elem_of_here | done].
Qed.

Lemma load_loop_bad_timestamp rest : forall pre m r,
  loaded released_date pre m ->
  r ∈ rest -> is_Some (parse_version (rec_version r)) ->
  released_date (rec_released_on r) = None ->
  load_loop released_date m rest = Raise ValueError.
Proof.
  induction rest as [|x rest IH]; intros pre m r Hm Hr [t Hp] Hd; simpl.
  { by apply elem_of_nil in Hr. }
  apply elem_of_cons in Hr as [-> | Hr].
  - by rewrite (load_step_bad_timestamp m x t Hp Hd).
  - destruct (load_step released_date m x) as [m1|e1] eqn:E.
    + apply (IH (pre ++ [x]) m1 r); [by eapply load_step_loaded | done.. ].
    + by destruct (load_step_raises pre m x e1 Hm E) as (-> & _).
Qed.

(** X8: on a feed whose versions have at most [int_max_str_digits]
    characters (so that int() accepts every digit run of them), the
    loader raises exactly when some record has a version that parses and
    a timestamp that strptime rejects, whether or not that record would
    have been kept; the exception is then ValueError.  The comparison
    against the stored version never fails. *)
Theorem loader_raises_on_malformed_timestamp feed :
  (forall r, r ∈ feed -> (Str.len (rec_version r) <= int_max_str_digits)%nat) ->
  (forall e, load_json_entries released_date feed = Raise e -> e = ValueError) /\
  ((exists e, load_json_entries released_date feed = Raise e) <->
   exists r, r ∈ feed /\ is_Some (parse_version (rec_version r)) /\
             released_date (rec_released_on r) = None).
Proof.
  intros _. split; [|split].
  - intros e He.
    by destruct (load_loop_raises feed [] ∅ e (loaded_empty released_date) He).
  - intros [e He].
    by destruct (load_loop_raises feed [] ∅ e (loaded_empty released_date) He).
  - intros (r & Hr & Hp & Hd). exists ValueError.
    by apply (load_loop_bad_timestamp feed [] ∅ r (loaded_empty released_date)).
Qed.

Lemma load_loop_ignores_unparseable feed : forall m,
  load_loop released_date m
    (filter (fun r => is_Some (parse_version (rec_version r))) feed)
  = load_loop released_date m feed.
Proof.
  induction feed as [|x feed IH]; intros m; [done |].
  destruct (parse_version (rec_version x)) as [t|] eqn:Hp.
  - rewrite filter_cons_True by (by rewrite Hp). simpl.
    destruct (load_step released_date m x); [apply IH | done].
  - rewrite filter_cons_False by (rewrite Hp; by intros [? ?]). simpl.
    rewrite load_step_unparseable by done. apply IH.
Qed.

(** X9: a record whose version does not parse is skipped before its
    timestamp is read: removing all such records from the feed changes
    neither the mapping nor the outcome of the load. *)
Theorem loader_ignores_unparseable feed :
  load_json_entries released_date
    (filter (fun r => is_Some (parse_version (rec_version r))) feed)
  = load_json_entries released_date feed.
Proof. apply load_loop_ignores_unparseable. Qed.

Lemma loaded_of_load feed m :
  load_json_entries released_date feed = Ok m -> loaded released_date feed m.
Proof. apply (load_loop_loaded released_date feed [] ∅ m (loaded_empty released_date)). Qed.

Lemma loaded_same_tuple feed1 feed2 m1 m2 cycle e1 :
  (forall r, r ∈ feed1 -> r ∈ feed2) ->
  (forall r, r ∈ feed2 -> r ∈ feed1) ->
  loaded released_date feed1 m1 -> loaded released_date feed2 m2 ->
  m1 !! cycle = Some e1 ->
  exists e2 t, m2 !! cycle = Some e2 /\
    parse_version (version e1) = Some t /\ parse_version (version e2) = Some t.
Proof.
  intros H12 H21 L1 L2 He1.
  pose proof (L1 cycle) as Hc1. rewrite He1 in Hc1.
  destruct Hc1 as (i1 & r1 & t1 & (Hi1 & Hcand1 & Hall1) & Hv1 & _).
  pose proof (L2 cycle) as Hc2.
  assert (Hr1 : r1 ∈ feed2) by (by eapply H12, list_elem_of_lookup_2).
  destruct (m2 !! cycle) as [e2|]; [|by destruct (Hc2 r1 t1)].
  destruct Hc2 as (i2 & r2 & t2 & (Hi2 & Hcand2 & Hall2) & Hv2 & _).
  assert (Hr2 : r2 ∈ feed1) by (by eapply H21, list_elem_of_lookup_2).
  apply list_elem_of_lookup_1 in Hr1 as [j1 Hj1].
  apply list_elem_of_lookup_1 in Hr2 as [j2 Hj2].
  destruct (Hall2 j1 r1 t1 Hj1 Hcand1) as [G12 _].
  destruct (Hall1 j2 r2 t2 Hj2 Hcand2) as [G21 _].
  assert (t1 = t2) as <- by by apply tuple_gt_total.
  exists e2, t1. rewrite Hv1, Hv2. split; [done |].
  split; [apply Hcand1 | apply Hcand2].
Qed.

(** X10: the outcome does not depend on the order of the feed, up to
    ties: two feeds with the same records in a different order load or
    fail together, and when they load they have the same release cycles
    and, for each cycle, versions that parse to the same tuple. *)
Theorem loader_result_up_to_order feed1 feed2 :
  feed1 ≡ₚ feed2 ->
  ((exists m1, load_json_entries released_date feed1 = Ok m1) <->
   (exists m2, load_json_entries released_date feed2 = Ok m2)) /\
  forall m1 m2,
    load_json_entries released_date feed1 = Ok m1 ->
    load_json_entries released_date feed2 = Ok m2 ->
    forall cycle,
      match m1 !! cycle, m2 !! cycle with
      | Some e1, Some e2 =>
          exists t, parse_version (version e1) = Some t /\
                    parse_version (version e2) = Some t
      | None, None => True
      | _, _ => False
      end.
Proof.
  intros Hperm.
  assert (H12 : forall r, r ∈ feed1 -> r ∈ feed2) by (intros r; by rewrite Hperm).
  assert (H21 : forall r, r ∈ feed2 -> r ∈ feed1) by (intros r; by rewrite Hperm).
  assert (together : forall fa fb, (forall r, r ∈ fb -> r ∈ fa) ->
            (exists m, load_json_entries released_date fa = Ok m) ->
            exists m, load_json_entries released_date fb = Ok m).
  { intros fa fb Hba [ma Ha].
    destruct (load_json_entries released_date fb) as [mb|e] eqn:Eb; [by exists mb |].
    destruct (load_loop_raises fb [] ∅ e (loaded_empty released_date) Eb)
      as (_ & r & Hr & Hp & Hd).
    unfold load_json_entries in Ha.
    by rewrite (load_loop_bad_timestamp fa [] ∅ r (loaded_empty released_date)
                  (Hba r Hr) Hp Hd) in Ha. }
  split; [split; by apply together |].
  intros m1 m2 L1%loaded_of_load L2%loaded_of_load cycle.
  destruct (m1 !! cycle) as [e1|] eqn:E1.
  - destruct (loaded_same_tuple feed1 feed2 m1 m2 cycle e1 H12 H21 L1 L2 E1)
      as (e2 & t & -> & ? & ?). by exists t.
  - destruct (m2 !! cycle) as [e2|] eqn:E2; [|done].
    destruct (loaded_same_tuple feed2 feed1 m2 m1 cycle e2 H21 H12 L2 L1 E2)
      as (e1 & t & E1' & _). congruence.
Qed.

End LoaderErrors.

(** ** Versions of one release cycle *)

Lemma parsed_runs v t :
  parse_version v = Some t ->
  exists g1 g2 p h,
    digit_run g1 /\ digit_run g2 /\
    t = (Str.int_of_digits g1, Str.int_of_digits g2, p, h) /\
    get_release_cycle v = Some (g1 +:+ "." +:+ g2).
Proof.
  intros (g1 & g2 & g3 & r & h & E & ->)%parse_version_triple.
  pose proof (get_release_cycle_of_triple _ _ _ _ _ E) as Hc.
  pose proof (match_triple_spec _ _ _ _ _ E) as (_ & E1 & E2 & _).
  apply digits1_spec in E1 as (_ & N1 & A1 & _).
  apply digits1_spec in E2 as (_ & N2 & A2 & _).
  exists g1, g2, (Str.int_of_digits g3), h. by repeat split.
Qed.

(** X11: two versions that parse and have the same release cycle have the
    same major and minor numbers, so that under one key of the loader's
    mapping the order is decided by the patch and, for equal patches, by
    the hotfix. *)
Theorem same_cycle_same_major_minor v1 v2 M1 m1 p1 h1 M2 m2 p2 h2 :
  parse_version v1 = Some (M1, m1, p1, h1) ->
  parse_version v2 = Some (M2, m2, p2, h2) ->
  get_release_cycle v1 = get_release_cycle v2 ->
  M1 = M2 /\ m1 = m2 /\
  (tuple_gt (M1, m1, p1, h1) (M2, m2, p2, h2) = true <->
   p2 < p1 \/ (p1 = p2 /\ h2 < h1)).
Proof.
  intros (g1 & g2 & ? & ? & G1 & G2 & [= -> -> <- <-] & C1)%parsed_runs.
  intros (e1 & e2 & ? & ? & E1 & E2 & [= -> -> <- <-] & C2)%parsed_runs.
  rewrite C1, C2. intros [= Heq].
  destruct (cycle_runs_inj _ _ _ _ G1 G2 E1 E2 Heq) as [<- <-].
  split; [done |]. split; [done |].
  unfold tuple_gt. rewrite !Z.compare_refl, Z.gtb_ltb.
  destruct (Z.compare_spec p1 p2) as [-> | Hlt | Hgt].
  - rewrite Z.ltb_lt. split; [by right | intros [? | [_ ?]]; [lia | done]].
  - split; [done | intros [? | [? _]]; lia].
  - split; [by left | done].
Qed.

(** ** parse_md_releases: the blocks and their place in the document *)

Lemma len_take n s : (n <= Str.len s)%nat -> Str.len (Str.take n s) = n.
Proof.
  revert n; induction s as [|c s IH]; intros [|n]; simpl; try done; [lia |].
  intros H. rewrite IH; lia.
Qed.

Lemma len_drop n s : Str.len (Str.drop n s) = (Str.len s - n)%nat.
Proof. revert n; induction s as [|c s IH]; intros [|n]; simpl; try done. Qed.

Lemma drop_nonempty n s : Str.drop n s <> "" -> (n < Str.len s)%nat.
Proof.
  intros H. destruct (decide (n < Str.len s)%nat) as [|Hn]; [done |].
  destruct H. pose proof (len_drop n s) as Hl.
  destruct (Str.drop n s); [done | simpl in Hl; lia].
Qed.

Lemma terminator_here_nonempty t : terminator_here t = true -> t <> "".
Proof. by intros H ->. Qed.

Lemma lazy_until_terminator_le s k :
  lazy_until_terminator s = Some k -> (k <= Str.len s)%nat.
Proof.
  revert k; induction s as [|c s IH]; intros k; rewrite lazy_until_terminator_eq.
  - destruct (terminator_here ""); [|discriminate]. intros [= <-]. done.
  - destruct (terminator_here (String c s)); [intros [= <-]; simpl; lia |].
    destruct (lazy_until_terminator s) as [k'|]; [|discriminate].
    intros [= <-]. specialize (IH k' eq_refl). simpl. lia.
Qed.

(** the lazy match stops at the first place where the lookahead holds *)
Lemma lazy_until_terminator_first s k :
  lazy_until_terminator s = Some k ->
  forall j, (j < k)%nat -> terminator_here (Str.drop j s) = false.
Proof.
  revert k; induction s as [|c s IH]; intros k; rewrite lazy_until_terminator_eq.
  - destruct (terminator_here ""); [|discriminate]. intros [= <-] j Hj. lia.
  - destruct (terminator_here (String c s)) eqn:E; [intros [= <-] j Hj; lia |].
    destruct (lazy_until_terminator s) as [k'|]; [|discriminate].
    intros [= <-] [|j] Hj; [done |]. simpl. apply (IH k' eq_refl). lia.
Qed.

Lemma match_block_parts s cycle n :
  match_block s = Some (cycle, n) ->
  exists body rest,
    s = block_head +:+ cycle +:+ q +:+ body +:+ rest /\
    n = Str.len (block_head +:+ cycle +:+ q +:+ body) /\
    cycle <> "" /\ Str.all (fun c => negb (is_quote c)) cycle = true /\
    lazy_until_terminator (body +:+ rest) = Some (Str.len body).
Proof.
  unfold match_block.
  destruct (Str.strip_prefix block_head s) as [r|] eqn:Ep; [|discriminate].
  apply strip_prefix_Some in Ep as ->.
  destruct (Str.span _ r) as [cy rest0] eqn:Es.
  apply span_spec in Es as (-> & Hall & Hq).
  destruct cy as [|c0 cy]; [discriminate |].
  destruct rest0 as [|c1 r']; [discriminate |].
  destruct (lazy_until_terminator r') as [k|] eqn:El; [|discriminate].
  intros H.
  assert (n = Str.len block_head + (Str.len (String c0 cy) + (1 + k)))%nat as ->
    by (injection H as _ <-; simpl; lia).
  assert (cycle = String c0 cy) as -> by (by injection H as <-).
  clear H. apply negb_false_iff, ascii_eqb_eq in Hq as ->.
  pose proof (lazy_until_terminator_le _ _ El) as Hk.
  exists (Str.take k r'), (Str.drop k r').
  rewrite take_drop, !len_append, len_take by done.
  repeat split; try done.
Qed.

(** every match of [finditer] is a match of the pattern at a place where a
    line begins *)
Lemma finditer_blocks s : forall pos bol skip r,
  r ∈ finditer pos bol skip s ->
  exists k cycle n,
    match_block (Str.drop k s) = Some (cycle, n) /\
    r = make_release cycle (pos + k) n (Str.take n (Str.drop k s)) /\
    (k = O /\ bol = true \/ exists p, Str.take k s = p +:+ nl).
Proof.
  induction s as [|c s IH]; intros pos bol skip r; simpl.
  - by intros ?%elem_of_nil.
  - assert (shift : forall skip',
      r ∈ finditer (S pos) (is_newline c) skip' s ->
      exists k cycle n,
        match_block (Str.drop k (String c s)) = Some (cycle, n) /\
        r = make_release cycle (pos + k) n (Str.take n (Str.drop k (String c s))) /\
        (k = O /\ bol = true \/ exists p, Str.take k (String c s) = p +:+ nl)).
    { intros skip' (k & cycle & n & Hm & -> & Hb)%IH.
      exists (S k), cycle, n. simpl. split; [done |].
      split; [f_equal; lia |]. right.
      destruct Hb as [[-> Hc] | [p Hp]].
      - exists "". apply ascii_eqb_eq in Hc as ->. done.
      - exists (String c p). by rewrite Hp. }
    destruct skip as [|skip]; [|apply shift].
    destruct (if bol then match_block (String c s) else None)
      as [[cycle n]|] eqn:Em; [|apply shift].
    intros [-> | Hr]%elem_of_cons; [|by eapply shift].
    destruct bol; [|discriminate].
    exists O, cycle, n. simpl. rewrite Nat.add_0_r. by repeat split; try left.
Qed.

Lemma in_order_weaken lo lo' l : (lo <= lo')%nat -> in_order lo' l -> in_order lo l.
Proof. destruct l as [|r l]; simpl; [done |]. intros ? (? & ? & ?). repeat split; [lia | done..]. Qed.

Lemma finditer_in_order s : forall pos bol skip,
  in_order (pos + skip) (finditer pos bol skip s).
Proof.
  induction s as [|c s IH]; intros pos bol skip; simpl; [done |].
  destruct skip as [|skip].
  - destruct (if bol then match_block (String c s) else None)
      as [[cycle n]|] eqn:Em.
    + destruct bol; [|discriminate].
      apply match_block_spec in Em as (_ & Hn & _).
      simpl. split; [lia |]. split; [lia |].
      specialize (IH (S pos) (is_newline c) (pred n)).
      by replace (S pos + pred n)%nat with (pos + n)%nat in IH by lia.
    + eapply in_order_weaken; [|apply (IH (S pos) (is_newline c) O)]. lia.
  - specialize (IH (S pos) (is_newline c) skip).
    by replace (S pos + skip)%nat with (pos + S skip)%nat in IH by lia.
Qed.

Lemma in_order_lookup l : forall lo i j ri rj,
  in_order lo l -> (i < j)%nat -> l !! i = Some ri -> l !! j = Some rj ->
  (lo <= _start ri)%nat /\ (_start ri < _end ri)%nat /\ (_end ri <= _start rj)%nat.
Proof.
  induction l as [|r l IH]; intros lo i j ri rj; [done |].
  intros (Hlo & Hne & Hrest) Hij Hi Hj.
  destruct j as [|j]; [lia |]. simpl in Hj.
  destruct i as [|i]; simpl in Hi.
  - injection Hi as ->. split; [done |]. split; [done |].
    clear IH Hij. revert Hrest Hj. generalize (_end ri). clear.
    revert j; induction l as [|r l IH]; intros j lo; [done |].
    intros (Hlo & Hne & Hrest) Hj. destruct j as [|j]; simpl in Hj.
    + by injection Hj as ->.
    + specialize (IH j _ Hrest Hj). lia.
  - destruct (IH (_end r) i j ri rj Hrest) as (? & ? & ?); [lia | done.. |].
    repeat split; [lia | done..].
Qed.

Lemma block_end_in_bounds content r :
  r ∈ parse_md_releases content -> (_end r < Str.len content)%nat.
Proof.
  intros (k & n & _ & -> & _ & _ & _ & Ht)%finditer_spec. simpl.
  by apply drop_nonempty, terminator_here_nonempty.
Qed.

Lemma contains_drop needle k s :
  Str.starts_with needle (Str.drop k s) = true -> Str.contains needle s = true.
Proof.
  revert k; induction s as [|c s IH]; intros [|k] H; simpl in *.
  - by rewrite H.
  - by rewrite H.
  - by rewrite H.
  - rewrite (IH k H). apply orb_true_r.
Qed.

Lemma contains_find needle s :
  Str.contains needle s = true ->
  exists k, (k <= Str.len s)%nat /\ Str.starts_with needle (Str.drop k s) = true.
Proof.
  induction s as [|c s IH]; simpl.
  - rewrite orb_false_r. intros H. by exists O.
  - intros [H | H]%orb_true_iff.
    + exists O. split; [lia | done].
    + destruct (IH H) as (k & Hk & Hs). exists (S k). split; [lia | done].
Qed.

(** X12: the blocks come in document order and do not overlap: a block is
    not empty and ends at or before the start of every later block, and
    every block ends inside the document.  A document that does not hold
    the opening text of a release-cycle line has no block. *)
Theorem blocks_in_document_order content :
  (forall i j ri rj,
     (i < j)%nat ->
     parse_md_releases content !! i = Some ri ->
     parse_md_releases content !! j = Some rj ->
     (_start ri < _end ri)%nat /\ (_end ri <= _start rj)%nat) /\
  (forall r, r ∈ parse_md_releases content ->
     (_start r < _end r)%nat /\ (_end r < Str.len content)%nat) /\
  (Str.contains block_head content = false -> parse_md_releases content = []).
Proof.
  split; [|split].
  - intros i j ri rj Hij Hi Hj.
    pose proof (finditer_in_order content O true O) as Ho.
    by destruct (in_order_lookup _ _ i j ri rj Ho Hij Hi Hj) as (_ & ? & ?).
  - intros r Hr. split; [|by apply block_end_in_bounds].
    apply finditer_spec in Hr as (k & n & -> & -> & Hn & _). lia.
  - intros Hc. destruct (parse_md_releases content) as [|r l] eqn:E; [done |].
    assert (Hr : r ∈ parse_md_releases content) by (rewrite E; apply list_elem_of_here).
    apply finditer_blocks in Hr as (k & cycle & n & Hm & _ & _).
    apply match_block_parts in Hm as (body & rest & Hs & _).
    rewrite (contains_drop block_head k content) in Hc; [done |].
    rewrite Hs. apply starts_with_true. eauto.
Qed.

(** X13: a block starts where a line begins (at offset 0 or right after
    a newline), its text opens with the release-cycle line that quotes its
    [releaseCycle], which is not empty and holds no quote, and its three
    fields are the ones [extract] reads in the text of the block. *)
Theorem block_opens_with_its_cycle content r :
  r ∈ parse_md_releases content ->
  (_start r = O \/ exists p, Str.take (_start r) content = p +:+ nl) /\
  Str.starts_with (block_head +:+ releaseCycle r +:+ q) (_text r) = true /\
  releaseCycle r <> "" /\
  Str.all (fun c => negb (is_quote c)) (releaseCycle r) = true /\
  latest r = extract "latest" (_text r) /\
  latestReleaseDate r = extract "latestReleaseDate" (_text r) /\
  link r = extract "link" (_text r).
Proof.
  intros (k & cycle & n & Hm & -> & Hb)%finditer_blocks.
  unfold make_release; cbn [releaseCycle _text _start _end latest latestReleaseDate link].
  apply match_block_parts in Hm as (body & rest & Hs & -> & Hne & Hq & _).
  split; [destruct Hb as [[-> _] | Hp]; [by left | by right] |].
  repeat split; try done.
  rewrite Hs.
  replace (block_head +:+ cycle +:+ q +:+ body +:+ rest)
    with ((block_head +:+ cycle +:+ q +:+ body) +:+ rest)
    by (by rewrite !append_assoc).
  rewrite take_append. apply starts_with_true. exists body.
  by rewrite !append_assoc.
Qed.

(** X14: a block ends at the first terminator after its release-cycle
    line: no place inside the block, from the closing quote of the cycle
    on, is followed by a next release-cycle line or by the end marker,
    and the place where the block ends is. *)
Theorem block_ends_at_first_terminator content r :
  r ∈ parse_md_releases content ->
  let header := block_head +:+ releaseCycle r +:+ q in
  terminator_here (Str.drop (_end r) content) = true /\
  forall j, (_start r + Str.len header <= j)%nat -> (j < _end r)%nat ->
    terminator_here (Str.drop j content) = false.
Proof.
  intros Hr header. split.
  { by apply finditer_spec in Hr as (k & n & _ & -> & _ & _ & _ & Ht). }
  apply finditer_blocks in Hr as (k & cycle & n & Hm & -> & _).
  subst header. unfold make_release; cbn [releaseCycle _text _start _end].
  apply match_block_parts in Hm as (body & rest & Hs & -> & _ & _ & Hl).
  intros j Hlo Hhi.
  replace j with (k + (Str.len (block_head +:+ cycle +:+ q) + (j - k - Str.len (block_head +:+ cycle +:+ q))))%nat by lia.
  rewrite <- drop_drop, Hs.
  replace (block_head +:+ cycle +:+ q +:+ body +:+ rest)
    with ((block_head +:+ cycle +:+ q) +:+ body +:+ rest)
    by (by rewrite !append_assoc).
  rewrite drop_len_plus.
  apply (lazy_until_terminator_first _ _ Hl).
  rewrite !len_append in *. lia.
Qed.

(** ** apply_updates: which blocks change, and where *)

Lemma take_take n m s : (n <= m)%nat -> Str.take n (Str.take m s) = Str.take n s.
Proof.
  revert n m; induction s as [|c s IH]; intros [|n] [|m] H; simpl; try done; [lia |].
  rewrite IH; [done | lia].
Qed.

Lemma take_app_le n a b : (n <= Str.len a)%nat -> Str.take n (a +:+ b) = Str.take n a.
Proof.
  revert n; induction a as [|c a IH]; intros [|n] H; simpl in *; try done; try lia.
  rewrite IH; [done | lia].
Qed.

Lemma drop_app_le n a b :
  (n <= Str.len a)%nat -> Str.drop n (a +:+ b) = Str.drop n a +:+ b.
Proof.
  revert n; induction a as [|c a IH]; intros [|n] H; simpl in *; try done; [lia |].
  apply IH. lia.
Qed.

Lemma drop_take n m s : Str.drop n (Str.take m s) = Str.take (m - n) (Str.drop n s).
Proof.
  revert n m; induction s as [|c s IH]; intros [|n] [|m]; simpl; try done.
  all: try by destruct (m - n)%nat.
Qed.

Lemma take_plus a b s :
  Str.take (a + b) s = Str.take a s +:+ Str.take b (Str.drop a s).
Proof.
  revert a; induction s as [|c s IH]; intros [|a]; simpl; try done.
  all: try by destruct b.
  by rewrite IH.
Qed.

Lemma len_take_le n s : (Str.len (Str.take n s) <= n)%nat.
Proof. revert n; induction s as [|c s IH]; intros [|n]; simpl; try lia. specialize (IH n). lia. Qed.

Lemma apply_step_cases json_cycles content changes r :
  apply_step json_cycles (content, changes) r =
    match json_cycles !! releaseCycle r with
    | None => Ok (content, changes)
    | Some e =>
        match parse_version (version e) with
        | None => Ok (content, changes)
        | Some new =>
            match current_tuple r with
            | None => Raise TypeError
            | Some cur =>
                if tuple_gt new cur then
                  let? updated_block := update_block (_text r) (version e) (date e) in
                  Ok (Str.take (_start r) content +:+ updated_block
                        +:+ Str.drop (_end r) content,
                      changes ++ [change_description (releaseCycle r)
                                    (default EmptyString (latest r)) (version e)])
                else Ok (content, changes)
            end
        end
    end.
Proof.
  unfold apply_step, current_tuple.
  destruct (json_cycles !! releaseCycle r) as [e|]; [|done].
  by destruct (latest r) as [[|c s]|].
Qed.

Lemma apply_loop_app json_cycles l1 l2 st :
  apply_loop json_cycles st (l1 ++ l2) =
    let? st' := apply_loop json_cycles st l1 in apply_loop json_cycles st' l2.
Proof.
  revert st; induction l1 as [|r l1 IH]; intros st; simpl; [done |].
  destruct (apply_step json_cycles st r) as [st'|e]; simpl; [apply IH | done].
Qed.

(** the loop over the blocks from the last to the first rebuilds the
    document as a front-to-back splice would *)
Lemma apply_loop_splice json_cycles content rs : forall lo ch0 out ch,
  in_order lo rs ->
  (forall r, r ∈ rs -> (_end r <= Str.len content)%nat /\
     _text r = Str.take (_end r - _start r) (Str.drop (_start r) content)) ->
  apply_loop json_cycles (content, ch0) (reverse rs) = Ok (out, ch) ->
  exists news,
    Forall2 (block_result json_cycles) rs news /\
    Str.take lo out = Str.take lo content /\
    Str.drop lo out = splice content lo (zip rs news) /\
    ch = ch0 ++ concat (block_changes json_cycles <$> reverse rs).
Proof.
  induction rs as [|r rs IH]; intros lo ch0 out ch Ho Hb.
  { simpl. intros [= <- <-]. exists []. rewrite app_nil_r. by repeat split. }
  destruct Ho as (Hlo & Hne & Ho).
  rewrite reverse_cons, apply_loop_app.
  destruct (apply_loop json_cycles (content, ch0) (reverse rs)) as [[out' ch']|e] eqn:E;
    [|discriminate].
  destruct (IH (_end r) ch0 out' ch' Ho) as (news & Hnews & Htake & Hdrop & Hch).
  { intros r' Hr'. apply Hb. by apply list_elem_of_further. }
  { done. }
  destruct (Hb r (list_elem_of_here _ _)) as [Hend Htext].
  cbn [rbind apply_loop]. rewrite apply_step_cases.
  (* the text before the block and the block itself, as they are in [content] *)
  assert (Hbefore : Str.take (_start r) out' = Str.take (_start r) content).
  { rewrite <- (take_take (_start r) (_end r) out') by lia.
    rewrite Htake. apply take_take. lia. }
  assert (Hs : (Str.len (Str.take (_start r) content) = _start r)%nat)
    by (apply len_take; lia).
  assert (Hfront : Str.drop lo (Str.take (_start r) content)
                   = Str.take (_start r - lo) (Str.drop lo content))
    by apply drop_take.
  assert (kept : block_result json_cycles r (_text r) ->
                 block_changes json_cycles r = [] ->
                 Ok (out', ch') = Ok (out, ch) ->
    exists news0,
      Forall2 (block_result json_cycles) (r :: rs) news0 /\
      Str.take lo out = Str.take lo content /\
      Str.drop lo out = splice content lo (zip (r :: rs) news0) /\
      ch = ch0 ++ concat (block_changes json_cycles <$> reverse rs ++ [r])).
  { intros Hres Hnone [= <- <-]. exists (_text r :: news).
    split; [by constructor |]. split.
    { rewrite <- (take_take lo (_end r) out') by lia.
      rewrite Htake. apply take_take. lia. }
    split.
    { cbn [zip zip_with splice]. rewrite <- Hdrop.
      rewrite <- (take_drop (_end r) out') at 1. rewrite Htake.
      rewrite drop_app_le by (rewrite len_take; lia).
      rewrite <- append_assoc. f_equal.
      rewrite drop_take, Htext.
      replace (_end r - lo)%nat with ((_start r - lo) + (_end r - _start r))%nat by lia.
      rewrite take_plus, drop_drop. do 3 f_equal. lia. }
    rewrite fmap_app, concat_app, Hch. simpl.
    by rewrite Hnone, !app_nil_r. }
  destruct (json_cycles !! releaseCycle r) as [e|] eqn:Ec.
  2:{ apply kept; unfold block_result, block_changes, newer_entry; by rewrite Ec. }
  destruct (parse_version (version e)) as [new|] eqn:Ep.
  2:{ apply kept; unfold block_result, block_changes, newer_entry; by rewrite Ec, Ep. }
  destruct (current_tuple r) as [cur|] eqn:Et; [|discriminate].
  destruct (tuple_gt new cur) eqn:Eg.
  2:{ apply kept; unfold block_result, block_changes, newer_entry;
      by rewrite Ec, Ep, Et, Eg. }
  assert (Hnewer : newer_entry json_cycles r = Some e)
    by (unfold newer_entry; by rewrite Ec, Ep, Et, Eg).
  destruct (update_block (_text r) (version e) (date e)) as [updated|] eqn:Eu;
    [|discriminate].
  cbn [rbind]. intros [= <- <-]. exists (updated :: news).
  split; [constructor; [unfold block_result; by rewrite Hnewer | done] |].
  rewrite Hbefore. split.
  { rewrite take_app_le by lia. apply take_take. lia. }
  split.
  { cbn [zip zip_with splice]. rewrite <- Hdrop.
    rewrite drop_app_le by lia. by rewrite Hfront. }
  rewrite fmap_app, concat_app, Hch. simpl.
  unfold block_changes. by rewrite Hnewer, app_nil_r, app_assoc.
Qed.

(** X15: the blocks are rewritten in place.  The text returned is the
    document rebuilt front to back, with the text outside the blocks as it
    was and every block replaced by its own result: the text given by
    [update_block] when the feed's version for its cycle is strictly
    greater than its current one, its own text otherwise.  The change
    list has one line for every updated block, the last block of the
    document first. *)
Theorem apply_updates_rewrites_blocks_in_place content json_cycles out changes :
  apply_updates content (parse_md_releases content) json_cycles = Ok (out, changes) ->
  exists news,
    Forall2 (block_result json_cycles) (parse_md_releases content) news /\
    out = splice content 0 (zip (parse_md_releases content) news) /\
    changes = concat (block_changes json_cycles <$> reverse (parse_md_releases content)).
Proof.
  intros H.
  destruct (apply_loop_splice json_cycles content (parse_md_releases content)
              O [] out changes) as (news & Hn & _ & Hd & Hc).
  - apply (finditer_in_order content O true O).
  - intros r Hr. split.
    + pose proof (block_end_in_bounds content r Hr). lia.
    + apply finditer_spec in Hr as (k & n & -> & -> & _ & -> & _).
      simpl. f_equal. lia.
  - exact H.
  - exists news. by repeat split.
Qed.

(** ** update_block and apply_updates: when they succeed and when they raise *)

Lemma version_literal v t :
  parse_version v = Some t -> literal_template (q +:+ v +:+ q) = true.
Proof.
  intros Hp. pose proof (parse_version_chars _ _ Hp) as Hv.
  apply all_no_backslash_literal. fold plain_char.
  rewrite !all_append.
  by rewrite (all_impl _ _ _ parsed_char_plain Hv).
Qed.

Lemma url_literal v t url :
  parse_version v = Some t -> build_release_notes_url v = Ok (Some url) ->
  literal_template url = true.
Proof.
  intros Hp Hu. pose proof (parse_version_chars _ _ Hp) as Hv.
  apply all_no_backslash_literal. fold plain_char.
  apply (build_release_notes_url_plain v); [|done].
  by apply (all_impl _ _ _ parsed_char_plain).
Qed.

(** the three substitutions of [update_block], written out *)
Lemma update_block_unfold block v d t o :
  parse_version v = Some t -> Str.all plain_char d = true ->
  build_release_notes_url v = Ok o ->
  update_block block v d =
    Ok (let b1 := sub_scan match_latest (latest_head +:+ q +:+ v +:+ q) O block in
        let b2 := sub_scan (match_head_nonspace date_head) (date_head +:+ d) O b1 in
        match o with
        | None | Some EmptyString => b2
        | Some url =>
            if has_link_field b2
            then sub_scan (match_head_nonspace link_head) (link_head +:+ url) O b2
            else b2
        end).
Proof.
  intros Hp Hd Ho. unfold update_block. rewrite Ho. cbv beta iota delta [rbind].
  unfold re_sub at 1. rewrite (version_literal _ _ Hp). cbv beta iota.
  unfold re_sub at 1. rewrite (all_no_backslash_literal d Hd). cbv beta iota zeta.
  destruct o as [[|c url]|]; [done | | done].
  fold (has_link_field
          (sub_scan (match_head_nonspace date_head) (date_head +:+ d) 0
             (sub_scan match_latest (latest_head +:+ q +:+ v +:+ q) 0 block))).
  destruct (has_link_field _); [|done].
  unfold re_sub. by rewrite (url_literal _ _ _ Hp Ho).
Qed.

Lemma update_block_ok block v d t :
  parse_version v = Some t -> Str.all plain_char d = true ->
  exists u, update_block block v d = Ok u.
Proof.
  intros Hp Hd. destruct (build_release_notes_url_total v) as [o Ho].
  rewrite (update_block_unfold block v d t o Hp Hd Ho). eauto.
Qed.

Section ApplyErrors.

Variable json_cycles : gmap string CycleEntry.

(** no date of the mapping holds a backslash, which a replacement
    template would interpret *)
Hypothesis dates_plain : forall c e,
  json_cycles !! c = Some e -> is_Some (parse_version (version e)) ->
  Str.all plain_char (date e) = true.

Lemma apply_step_fails st r :
  comparison_fails json_cycles r -> apply_step json_cycles st r = Raise TypeError.
Proof.
  intros (e & He & [t Ht] & Hc). destruct st as [content changes].
  by rewrite apply_step_cases, He, Ht, Hc.
Qed.

Lemma apply_step_raises st r x :
  apply_step json_cycles st r = Raise x ->
  x = TypeError /\ comparison_fails json_cycles r.
Proof.
  destruct st as [content changes]. rewrite apply_step_cases.
  destruct (json_cycles !! releaseCycle r) as [e|] eqn:He; [|done].
  destruct (parse_version (version e)) as [new|] eqn:Hp; [|done].
  destruct (current_tuple r) as [cur|] eqn:Hc.
  - destruct (tuple_gt new cur); [|done].
    destruct (update_block_ok (_text r) (version e) (date e) new Hp) as [u ->]; [|done].
    by apply (dates_plain (releaseCycle r)).
  - intros [= <-]. split; [done |]. exists e. by repeat split.
Qed.

Lemma apply_loop_raises l : forall st x,
  apply_loop json_cycles st l = Raise x ->
  x = TypeError /\ exists r, r ∈ l /\ comparison_fails json_cycles r.
Proof.
  induction l as [|r l IH]; intros st x; simpl; [done |].
  destruct (apply_step json_cycles st r) as [st'|e] eqn:E; simpl.
  - intros (-> & r' & Hr' & Hf)%IH. split; [done |]. exists r'.
    split; [by apply list_elem_of_further | done].
  - intros [= <-]. destruct (apply_step_raises st r e E) as [-> Hf].
    split; [done |]. exists r. split; [apply list_elem_of_here | done].
Qed.

Lemma apply_loop_fails l : forall st r,
  r ∈ l -> comparison_fails json_cycles r ->
  apply_loop json_cycles st l = Raise TypeError.
Proof.
  induction l as [|r0 l IH]; intros st r Hr Hf; simpl.
  { by apply elem_of_nil in Hr. }
  apply elem_of_cons in Hr as [-> | Hr].
  - by rewrite apply_step_fails.
  - destruct (apply_step json_cycles st r0) as [st'|e] eqn:E; simpl.
    + by apply (IH st' r).
    + by destruct (apply_step_raises st r0 e E) as [-> _].
Qed.

(** X16: with dates that hold no backslash, and versions in the mapping
    and [latest] values in the blocks of at most [int_max_str_digits]
    characters (so that int() accepts every digit run of them), the patch
    applier raises exactly when some block has its cycle in the mapping,
    with a version that parses, and a [latest] that is a non-empty string
    that does not parse; the exception is then TypeError, whatever the
    other blocks are.  Without such a block it returns a text and a
    change list. *)
Theorem apply_updates_raises_on_unparseable_latest content releases :
  (forall c e, json_cycles !! c = Some e ->
     (Str.len (version e) <= int_max_str_digits)%nat) ->
  (forall r s, r ∈ releases -> latest r = Some s ->
     (Str.len s <= int_max_str_digits)%nat) ->
  (forall x, apply_updates content releases json_cycles = Raise x -> x = TypeError) /\
  ((exists x, apply_updates content releases json_cycles = Raise x) <->
   exists r, r ∈ releases /\ comparison_fails json_cycles r) /\
  ((forall r, r ∈ releases -> ~ comparison_fails json_cycles r) ->
   exists out changes, apply_updates content releases json_cycles = Ok (out, changes)).
Proof.
  intros _ _. unfold apply_updates. split; [|split; [split |]].
  - intros x Hx. by destruct (apply_loop_raises _ _ _ Hx).
  - intros [x Hx]. destruct (apply_loop_raises _ _ _ Hx) as (_ & r & Hr & Hf).
    exists r. split; [by apply elem_of_reverse | done].
  - intros (r & Hr & Hf). exists TypeError.
    apply (apply_loop_fails _ _ r); [by apply elem_of_reverse | done].
  - intros Hnone.
    destruct (apply_loop json_cycles (content, []) (reverse releases))
      as [[out changes]|x] eqn:E; [by exists out, changes |].
    destruct (apply_loop_raises _ _ _ E) as (_ & r & Hr & Hf).
    destruct (Hnone r); [by apply elem_of_reverse | done].
Qed.

End ApplyErrors.

Lemma apply_loop_same_cycles cycles1 cycles2 l : forall st,
  (forall r, r ∈ l -> cycles1 !! releaseCycle r = cycles2 !! releaseCycle r) ->
  apply_loop cycles1 st l = apply_loop cycles2 st l.
Proof.
  induction l as [|r l IH]; intros st H; simpl; [done |].
  assert (E : apply_step cycles1 st r = apply_step cycles2 st r).
  { destruct st as [content changes]. rewrite !apply_step_cases.
    by rewrite (H r (list_elem_of_here _ _)). }
  rewrite E. destruct (apply_step cycles2 st r) as [st'|]; simpl; [|done].
  apply IH. intros r' Hr'. apply H. by apply list_elem_of_further.
Qed.

Lemma apply_loop_no_cycle cycles l : forall st,
  (forall r, r ∈ l -> cycles !! releaseCycle r = None) ->
  apply_loop cycles st l = Ok st.
Proof.
  induction l as [|r l IH]; intros st H; simpl; [done |].
  destruct st as [content changes].
  rewrite apply_step_cases, (H r (list_elem_of_here _ _)). simpl.
  apply IH. intros r' Hr'. apply H. by apply list_elem_of_further.
Qed.

(** X17: only the entries of the mapping under the release cycles of the
    blocks are read: two mappings that agree on those cycles give the same
    result, and a mapping that has none of them leaves the document as it
    is, with no change line; a cycle of the feed without block adds
    nothing to the document. *)
Theorem apply_updates_reads_block_cycles_only content releases cycles1 cycles2 :
  ((forall r, r ∈ releases -> cycles1 !! releaseCycle r = cycles2 !! releaseCycle r) ->
   apply_updates content releases cycles1 = apply_updates content releases cycles2) /\
  ((forall r, r ∈ releases -> cycles1 !! releaseCycle r = None) ->
   apply_updates content releases cycles1 = Ok (content, [])).
Proof.
  unfold apply_updates. split; intros H.
  - apply apply_loop_same_cycles. intros r Hr. apply H. by apply elem_of_reverse.
  - apply apply_loop_no_cycle. intros r Hr. apply H. by apply elem_of_reverse.
Qed.

(** ** main: what a run can change *)

Section MainEffects.

Variable released_date : string -> option string.
Variable json_load : string -> result (list ReleaseRecord).

(** X18: a run has one of three outcomes.  It ends in an exception with
    nothing printed and nothing written (a missing input file, a feed
    that does not load, a comparison that fails, an output file that
    cannot be opened); or it prints the NO_UPDATES marker and exits with
    code 0 without writing; or it ends normally after writing the output
    file and printing the UPDATES_FOUND marker and at least one change
    line.  In every case no file but the output file is changed.  A
    missing feed file, and a missing document once the feed is loaded,
    raise FileNotFoundError. *)
Theorem main_outcomes args w :
  let run := main released_date json_load args w in
  ((exists e, run = (w, Raise e)) \/
   run = (mkWorld (files w) (stdout w ++ ["NO_UPDATES"]) (writable w),
          Raise (SystemExit 0)) \/
   exists updated changes, changes <> [] /\
     run = (mkWorld (<[arg_output args := updated]> (files w))
                    (stdout w ++ "UPDATES_FOUND" :: changes) (writable w), Ok tt)) /\
  (forall path, path <> arg_output args ->
     files (fst run) !! path = files w !! path) /\
  (files w !! arg_json args = None -> run = (w, Raise FileNotFoundError)) /\
  (forall text entries json_cycles,
     files w !! arg_json args = Some text -> json_load text = Ok entries ->
     load_json_entries released_date entries = Ok json_cycles ->
     files w !! arg_md args = None -> run = (w, Raise FileNotFoundError)).
Proof.
  intros run.
  assert (cases :
    (exists e, run = (w, Raise e)) \/
    run = (mkWorld (files w) (stdout w ++ ["NO_UPDATES"]) (writable w),
           Raise (SystemExit 0)) \/
    exists updated changes, changes <> [] /\
      run = (mkWorld (<[arg_output args := updated]> (files w))
                     (stdout w ++ "UPDATES_FOUND" :: changes) (writable w), Ok tt)).
  { subst run. unfold main, load_json_versions, io_bind, read_file, io_lift.
    destruct (files w !! arg_json args) as [text|]; [|by left; eexists].
    destruct (json_load text) as [entries|e]; [|by left; eexists].
    destruct (load_json_entries released_date entries) as [json_cycles|e];
      [|by left; eexists].
    destruct (files w !! arg_md args) as [content|]; [|by left; eexists].
    destruct (apply_updates content (parse_md_releases content) json_cycles)
      as [[updated changes]|e]; [|by left; eexists].
    destruct changes as [|c changes]; [by right; left |].
    destruct (writable w (arg_output args)) eqn:Hw.
    - right; right. exists updated, (c :: changes). split; [done |].
      by apply report_updates_spec.
    - left. exists OSError. by apply report_updates_unwritable. }
  split; [exact cases |]. split; [|split].
  - intros path Hp.
    destruct cases as [[e ->] | [-> | (updated & changes & _ & ->)]]; simpl; try done.
    by rewrite lookup_insert_ne.
  - intros Hj. subst run. unfold main, load_json_versions, io_bind, read_file.
    by rewrite Hj.
  - intros text entries json_cycles Hj Hl He Hm. subst run.
    unfold main, load_json_versions, io_bind, read_file, io_lift.
    by rewrite Hj, Hl, He, Hm.
Qed.

End MainEffects.

(** ** Reading back a rewritten block *)

Lemma rev_onto_append acc s t :
  Str.rev_onto acc (s +:+ t) = Str.rev_onto (Str.rev_onto acc s) t.
Proof. revert acc; induction s as [|c s IH]; intros acc; simpl; [done | apply IH]. Qed.

Lemma rev_onto_acc acc s : Str.rev_onto acc s = Str.rev_onto "" s +:+ acc.
Proof.
  revert acc; induction s as [|c s IH]; intros acc; simpl; [done |].
  rewrite (IH (String c acc)), (IH (String c "")).
  by rewrite append_assoc.
Qed.

Lemma rev_append s t : Str.rev (s +:+ t) = Str.rev t +:+ Str.rev s.
Proof. unfold Str.rev. by rewrite rev_onto_append, rev_onto_acc. Qed.

Lemma rev_involutive s : Str.rev (Str.rev s) = s.
Proof.
  induction s as [|c s IH]; [done |].
  change (String c s) with (String c "" +:+ s) at 1.
  rewrite rev_append, rev_append, IH. done.
Qed.

Lemma rev_all f s : Str.all f (Str.rev s) = Str.all f s.
Proof.
  induction s as [|c s IH]; [done |].
  change (String c s) with (String c "" +:+ s) at 1.
  rewrite rev_append, all_append, IH. simpl.
  by rewrite andb_true_r, andb_comm.
Qed.

Lemma lstrip_none f s : Str.all (fun c => negb (f c)) s = true -> Str.lstrip f s = s.
Proof.
  destruct s as [|c s]; simpl; [done |].
  intros [Hc _]%andb_true_iff. apply negb_true_iff in Hc. by rewrite Hc.
Qed.

(** stripping a class of characters that does not occur in the string *)
Lemma strip_none f s : Str.all (fun c => negb (f c)) s = true -> Str.strip f s = s.
Proof.
  intros H. unfold Str.strip. rewrite (lstrip_none f s H).
  rewrite lstrip_none by (by rewrite rev_all). apply rev_involutive.
Qed.

Lemma lstrip_cons_true f c s : f c = true -> Str.lstrip f (String c s) = Str.lstrip f s.
Proof. intros H. cbn [Str.lstrip]. by rewrite H. Qed.

Lemma lstrip_cons_false f c s : f c = false -> Str.lstrip f (String c s) = String c s.
Proof. intros H. cbn [Str.lstrip]. by rewrite H. Qed.

Lemma lstrip_nonempty_none f s t :
  s <> "" -> Str.all (fun c => negb (f c)) s = true -> Str.lstrip f (s +:+ t) = s +:+ t.
Proof.
  destruct s as [|c s]; [done |]. intros _ [Hc _]%andb_true_iff.
  apply negb_true_iff in Hc. change (String c s +:+ t) with (String c (s +:+ t)).
  by apply lstrip_cons_false.
Qed.

Lemma lstrip_quote_q s : Str.lstrip is_quote (q +:+ s) = Str.lstrip is_quote s.
Proof. reflexivity. Qed.

Lemma lstrip_space_q s : Str.lstrip Str.is_space (q +:+ s) = q +:+ s.
Proof. reflexivity. Qed.

(** [strip] takes one quote off each end of a quoted string that holds none *)
Lemma strip_quoted v :
  v <> "" -> Str.all (fun c => negb (is_quote c)) v = true ->
  Str.strip is_quote (q +:+ v +:+ q) = v.
Proof.
  intros Hne Hv. unfold Str.strip.
  rewrite lstrip_quote_q, lstrip_nonempty_none by done.
  rewrite rev_append. change (Str.rev q) with q.
  rewrite lstrip_quote_q, lstrip_none by (by rewrite rev_all).
  apply rev_involutive.
Qed.

Lemma strip_space_quoted v :
  Str.strip Str.is_space (q +:+ v +:+ q) = q +:+ v +:+ q.
Proof.
  unfold Str.strip. rewrite lstrip_space_q.
  rewrite !rev_append. change (Str.rev q) with q.
  rewrite append_assoc, lstrip_space_q.
  rewrite !rev_append, rev_involutive. change (Str.rev q) with q.
  by rewrite append_assoc.
Qed.

(** ** Substitutions that stay on their line *)

Lemma starts_with_refl s : Str.starts_with s s = true.
Proof. apply starts_with_true. exists "". by rewrite append_nil_r. Qed.

Lemma starts_with_before_nl head x rest :
  Str.all (fun c => negb (is_newline c)) head = true ->
  Str.starts_with head (x +:+ nl +:+ rest) = true -> Str.starts_with head x = true.
Proof.
  intros Hh H. apply starts_with_split in H as [H | (n2 & -> & Hn2)]; [done |].
  destruct n2 as [|c n2]; [rewrite append_nil_r; apply starts_with_refl |].
  exfalso. change (nl +:+ rest) with (String Str.newline rest) in Hn2.
  rewrite starts_with_cons in Hn2. apply andb_true_iff in Hn2 as [Hc _].
  rewrite all_append in Hh. apply andb_true_iff in Hh as [_ Hh]. simpl in Hh.
  apply andb_true_iff in Hh as [Hh _]. unfold is_newline in Hh.
  by rewrite Hc in Hh.
Qed.

Lemma span_before_stop f x c rest :
  f c = false -> fst (Str.span f (x +:+ String c rest)) = fst (Str.span f x).
Proof.
  intros Hc. induction x as [|a x IH]; simpl; [by rewrite Hc |].
  destruct (f a); [|done].
  destruct (Str.span f (x +:+ String c rest)), (Str.span f x). simpl in *. by rewrite IH.
Qed.

(** a match of [(head)\S+] never runs over the end of its line *)
Lemma match_head_nonspace_local head x rest :
  Str.all (fun c => negb (is_newline c)) head = true ->
  match_head_nonspace head (x +:+ nl +:+ rest) = match_head_nonspace head x.
Proof.
  intros Hh. unfold match_head_nonspace.
  destruct (Str.strip_prefix head x) as [x'|] eqn:E.
  - apply strip_prefix_Some in E as ->. rewrite append_assoc, strip_prefix_append.
    pose proof (span_before_stop (fun c => negb (Str.is_space c)) x' Str.newline rest
                  eq_refl) as Hs.
    change (nl +:+ rest) with (String Str.newline rest).
    destruct (Str.span _ (x' +:+ String Str.newline rest)) as [w r],
             (Str.span _ x') as [w' r'].
    simpl in Hs. by subst.
  - destruct (Str.strip_prefix head (x +:+ nl +:+ rest)) as [r|] eqn:E'; [|done].
    exfalso.
    assert (H : Str.starts_with head (x +:+ nl +:+ rest) = true)
      by (unfold Str.starts_with; by rewrite E').
    apply starts_with_before_nl in H; [|done].
    unfold Str.starts_with in H. by rewrite E in H.
Qed.

Lemma match_head_nonspace_prefix head s n :
  match_head_nonspace head s = Some n -> Str.starts_with head s = true.
Proof.
  intros (w & rest & -> & _)%match_head_nonspace_spec.
  apply starts_with_true. eauto.
Qed.

Lemma match_latest_prefix s n :
  match_latest s = Some n -> Str.starts_with latest_head s = true.
Proof.
  intros (w & rest & -> & _)%match_latest_spec.
  apply starts_with_true. eauto.
Qed.

Section SubScanParts.

Variable try : string -> option nat.
Variable repl : string.

(** text in which no match starts is copied as it is *)
Lemma sub_scan_prefix_untouched a : forall b,
  (forall k, (k < Str.len a)%nat -> try (Str.drop k a +:+ b) = None) ->
  sub_scan try repl O (a +:+ b) = a +:+ sub_scan try repl O b.
Proof.
  induction a as [|c a IH]; intros b H; [done |].
  pose proof (H O ltac:(simpl; lia)) as H0.
  change (Str.drop 0 (String c a) +:+ b) with (String c (a +:+ b)) in H0.
  change (String c a +:+ b) with (String c (a +:+ b)).
  cbn [sub_scan]. rewrite H0.
  change (String c a +:+ sub_scan try repl 0 b)
    with (String c (a +:+ sub_scan try repl 0 b)).
  f_equal. apply IH. intros k Hk. apply (H (S k)). simpl. lia.
Qed.

Hypothesis try_bound : forall s n, try s = Some n -> (0 < n <= Str.len s)%nat.

(** the substitution works on two parts of the text one after the other
    when no match of the first part depends on the second *)
Lemma sub_scan_parts a : forall b skip,
  (skip <= Str.len a)%nat ->
  (forall k, (k < Str.len a)%nat -> try (Str.drop k a +:+ b) = try (Str.drop k a)) ->
  sub_scan try repl skip (a +:+ b)
  = sub_scan try repl skip a +:+ sub_scan try repl O b.
Proof.
  induction a as [|c a IH]; intros b skip Hs H.
  { simpl in Hs. by replace skip with O by lia. }
  assert (H' : forall k, (k < Str.len a)%nat ->
                         try (Str.drop k a +:+ b) = try (Str.drop k a)).
  { intros k Hk. apply (H (S k)). simpl. lia. }
  change (String c a +:+ b) with (String c (a +:+ b)).
  destruct skip as [|skip]; cbn [sub_scan].
  - pose proof (H O ltac:(simpl; lia)) as H0.
    change (Str.drop 0 (String c a) +:+ b) with (String c (a +:+ b)) in H0.
    change (Str.drop 0 (String c a)) with (String c a) in H0.
    rewrite H0. destruct (try (String c a)) as [n|] eqn:E.
    + apply try_bound in E. simpl in E.
      rewrite IH by (done || lia). by rewrite append_assoc.
    + by rewrite IH by (done || lia).
  - apply IH; [simpl in Hs; lia | done].
Qed.

End SubScanParts.

(** an occurrence of [needle] cannot run over or start in a text whose
    first character is not in [needle] and that does not hold the first
    character of [needle] *)
Lemma contains_through_gap_first needle n0 needle' a c t b :
  needle = String n0 needle' ->
  char_in c needle = false -> char_in n0 (String c t) = false ->
  Str.contains needle (a +:+ String c t +:+ b) = true ->
  Str.contains needle a = true \/ Str.contains needle b = true.
Proof.
  intros -> Hc Hn0.
  assert (gap : forall t', char_in n0 t' = false ->
            Str.contains (String n0 needle') (t' +:+ b) = true ->
            Str.contains (String n0 needle') b = true).
  { induction t' as [|y t' IH]; [done |].
    change (String y t' +:+ b) with (String y (t' +:+ b)).
    cbn [char_in Str.contains]. intros [Hy Ht']%orb_false_iff.
    intros [H | H]%orb_true_iff; [|by apply IH].
    rewrite starts_with_cons in H. apply andb_true_iff in H as [H _].
    apply ascii_eqb_eq in H as ->. by rewrite ascii_eqb_refl in Hy. }
  induction a as [|x a IH].
  - intros H. right. by apply (gap (String c t)).
  - change (String x a +:+ String c t +:+ b) with (String x (a +:+ String c t +:+ b)).
    cbn [Str.contains]. intros [H | H]%orb_true_iff.
    + change (String x (a +:+ String c t +:+ b))
        with (String x a +:+ String c t +:+ b) in H.
      apply starts_with_split in H as [H | (n2 & Hn & Hn2)].
      * left. by rewrite H.
      * destruct n2 as [|y n2].
        { left. rewrite append_nil_r in Hn. rewrite Hn, starts_with_refl. done. }
        exfalso.
        change (String c t +:+ b) with (String c (t +:+ b)) in Hn2.
        rewrite starts_with_cons in Hn2. apply andb_true_iff in Hn2 as [Hy _].
        apply ascii_eqb_eq in Hy as ->.
        rewrite Hn in Hc. rewrite char_in_append in Hc.
        apply orb_false_iff in Hc as [_ Hc]. simpl in Hc.
        by rewrite ascii_eqb_refl in Hc.
    + destruct (IH H) as [Ha | Hb]; [|by right].
      left. rewrite Ha. apply orb_true_r.
Qed.

Section SubScanFirst.

Variable try : string -> option nat.
Variable head tail : string.

Hypothesis try_spec : forall s n,
  try s = Some n ->
  exists w rest, s = head +:+ w +:+ rest /\ n = (Str.len head + Str.len w)%nat /\ (0 < n)%nat.

(** a substitution creates no occurrence of [needle] when the inserted
    text starts with a character that is not in [needle] and does not
    hold the first character of [needle] *)
Lemma sub_scan_no_new_first needle n0 needle' c t :
  needle = String n0 needle' -> tail = String c t ->
  char_in c needle = false -> char_in n0 tail = false ->
  forall k s p, (Str.len s <= k)%nat ->
    Str.contains needle (p +:+ sub_scan try (head +:+ tail) O s) = true ->
    Str.contains needle (p +:+ s) = true.
Proof.
  intros Hn Ht Hc Hn0. induction k as [|k IH]; intros s p Hk.
  { destruct s; [done | simpl in Hk; lia]. }
  destruct s as [|c0 s']; [done |].
  destruct (try (String c0 s')) as [n|] eqn:Etry.
  - destruct (try_spec _ _ Etry) as (w & rest & Hs & Hlen & Hpos).
    rewrite (sub_scan_match try head tail _ _ _ _ Etry Hs Hlen Hpos), Hs.
    rewrite <- (append_assoc p head). rewrite Ht at 1. intros H.
    apply (contains_through_gap_first needle n0 needle' _ c t _ Hn Hc) in H
      as [H | H]; [| |by rewrite <- Ht].
    + rewrite <- (append_assoc p head). by apply contains_app_l.
    + apply contains_app_r, contains_app_r, contains_app_r.
      apply (IH rest ""); [|done].
      apply (f_equal Str.len) in Hs. rewrite !len_append in Hs.
      simpl in Hs, Hk. lia.
  - simpl. rewrite Etry.
    change (p +:+ String c0 ?x) with (p +:+ (String c0 "" +:+ x)).
    rewrite <- !(append_assoc p). apply IH. simpl in Hk. lia.
Qed.

End SubScanFirst.

(** ** The latest line of a rewritten block *)

Lemma char_in_drop c k s : char_in c (Str.drop k s) = true -> char_in c s = true.
Proof.
  revert k; induction s as [|x s IH]; intros [|k]; simpl; try done.
  intros H. rewrite (IH _ H). apply orb_true_r.
Qed.

Lemma contains_char needle s c :
  Str.contains needle s = true -> char_in c needle = true -> char_in c s = true.
Proof.
  intros (k & _ & [r Hr]%starts_with_true)%contains_find Hc.
  apply (char_in_drop c k). rewrite Hr, char_in_append, Hc. done.
Qed.

Lemma all_char_in_false f s c : Str.all f s = true -> f c = false -> char_in c s = false.
Proof.
  intros Hs Hc. induction s as [|x s IH]; simpl in *; [done |].
  apply andb_true_iff in Hs as [Hx Hs]. rewrite (IH Hs), orb_false_r.
  destruct (Str.ascii_eqb x c) eqn:E; [|done].
  apply ascii_eqb_eq in E as ->. congruence.
Qed.

(** the rewritten latest line, without what follows it *)
Lemma latest_line_chars v c :
  Str.all version_char v = true -> version_char c = false ->
  char_in c latest_head = false -> char_in c q = false ->
  char_in c (latest_head +:+ q +:+ v +:+ q) = false.
Proof.
  intros Hv Hc Hh Hq.
  by rewrite !char_in_append, Hh, Hq, (all_char_in_false _ _ _ Hv Hc).
Qed.

Lemma contains_latest_line head v c :
  Str.all version_char v = true -> version_char c = false ->
  char_in c latest_head = false -> char_in c q = false ->
  char_in c head = true ->
  Str.contains head (latest_head +:+ q +:+ v +:+ q) = false.
Proof.
  intros Hv Hc Hh Hq Hin.
  destruct (Str.contains head _) eqn:E; [|done].
  apply (contains_char _ _ c) in E; [|done].
  by rewrite latest_line_chars in E.
Qed.

Section LatestLine.

Variable head tail : string.
Variable v : string.

Hypothesis head_no_nl : Str.all (fun c => negb (is_newline c)) head = true.
Hypothesis head_nonempty : head <> "".
Hypothesis head_not_in_line :
  Str.contains head (latest_head +:+ q +:+ v +:+ q) = false.
Hypothesis tail_first : exists c t, tail = String c t /\ char_in c latest_head = false.
Hypothesis tail_no_space : char_in " " tail = false.

Lemma match_head_bound s n :
  match_head_nonspace head s = Some n -> (0 < n <= Str.len s)%nat.
Proof.
  intros (w & rest & -> & -> & Hpos)%match_head_nonspace_spec.
  rewrite !len_append. lia.
Qed.

Lemma sub_at_newline s :
  sub_scan (match_head_nonspace head) (head +:+ tail) O (nl +:+ s)
  = nl +:+ sub_scan (match_head_nonspace head) (head +:+ tail) O s.
Proof.
  apply sub_scan_prefix_untouched. intros k Hk.
  replace k with O by (simpl in Hk; lia).
  change (Str.drop 0 nl +:+ s) with (String Str.newline s).
  destruct (match_head_nonspace head (String Str.newline s)) as [n|] eqn:E; [|done].
  apply match_head_nonspace_prefix in E.
  destruct head as [|h0 h']; [done |].
  rewrite starts_with_cons in E. apply andb_true_iff in E as [E _].
  simpl in head_no_nl. apply andb_true_iff in head_no_nl as [Hh _].
  apply ascii_eqb_eq in E as ->. done.
Qed.

Lemma sub_tail_shape b :
  b = "" \/ (exists b', b = nl +:+ b') ->
  sub_scan (match_head_nonspace head) (head +:+ tail) O b = "" \/
  exists b', sub_scan (match_head_nonspace head) (head +:+ tail) O b = nl +:+ b'.
Proof.
  intros [-> | [b' ->]]; [by left |]. right. rewrite sub_at_newline. eauto.
Qed.

Lemma sub_line b :
  b = "" \/ (exists b', b = nl +:+ b') ->
  sub_scan (match_head_nonspace head) (head +:+ tail) O
    ((latest_head +:+ q +:+ v +:+ q) +:+ b)
  = (latest_head +:+ q +:+ v +:+ q)
      +:+ sub_scan (match_head_nonspace head) (head +:+ tail) O b.
Proof.
  intros Hb. apply sub_scan_prefix_untouched. intros k Hk.
  destruct (match_head_nonspace head
              (Str.drop k (latest_head +:+ q +:+ v +:+ q) +:+ b)) as [n|] eqn:E;
    [|done].
  assert (E' : is_Some (match_head_nonspace head
                          (Str.drop k (latest_head +:+ q +:+ v +:+ q)))).
  { destruct Hb as [-> | [b' ->]].
    - rewrite append_nil_r in E. by rewrite E.
    - rewrite match_head_nonspace_local in E by done. by rewrite E. }
  destruct E' as [n' E'%match_head_nonspace_prefix].
  by rewrite (contains_drop head k _ E') in head_not_in_line.
Qed.

Lemma sub_before a rest :
  sub_scan (match_head_nonspace head) (head +:+ tail) O (a +:+ nl +:+ rest)
  = sub_scan (match_head_nonspace head) (head +:+ tail) O a
      +:+ sub_scan (match_head_nonspace head) (head +:+ tail) O (nl +:+ rest).
Proof.
  apply sub_scan_parts; [apply match_head_bound | lia |].
  intros k _. by apply match_head_nonspace_local.
Qed.

Lemma sub_no_latest a :
  Str.contains latest_head a = false ->
  Str.contains latest_head
    (sub_scan (match_head_nonspace head) (head +:+ tail) O a) = false.
Proof.
  intros Ha.
  destruct (Str.contains latest_head
              (sub_scan (match_head_nonspace head) (head +:+ tail) O a)) eqn:E;
    [|done].
  destruct tail_first as (c & t & Ht & Hc).
  apply (sub_scan_no_new_first _ head tail (match_head_nonspace_spec head)
           latest_head " "%char "   latest: " c t eq_refl Ht Hc tail_no_space
           (Str.len a) a "") in E; [|lia].
  simpl in E. congruence.
Qed.

(** a substitution of [(head)\S+] keeps the latest line where it is *)
Lemma sub_keeps_latest_line text :
  latest_line_first v text ->
  latest_line_first v
    (sub_scan (match_head_nonspace head) (head +:+ tail) O text).
Proof.
  intros (a & b & -> & Ha & Hb).
  exists (sub_scan (match_head_nonspace head) (head +:+ tail) O a),
    (sub_scan (match_head_nonspace head) (head +:+ tail) O b).
  split; [|split; [by apply sub_no_latest | by apply sub_tail_shape]].
  rewrite sub_before, sub_at_newline.
  replace (latest_head +:+ q +:+ v +:+ q +:+ b)
    with ((latest_head +:+ q +:+ v +:+ q) +:+ b) by (by rewrite !append_assoc).
  rewrite sub_line by done. by rewrite !append_assoc.
Qed.

End LatestLine.

Lemma no_latest_before_line p rest k :
  Str.contains latest_head p = false -> (k < Str.len (p +:+ nl))%nat ->
  Str.starts_with latest_head (Str.drop k (p +:+ nl) +:+ rest) = false.
Proof.
  intros Hp Hk. rewrite len_append in Hk. simpl in Hk.
  rewrite drop_app_le, append_assoc by lia.
  destruct (Str.starts_with latest_head _) eqn:E; [|done].
  apply starts_with_before_nl in E; [|done].
  by rewrite (contains_drop latest_head k p E) in Hp.
Qed.

(** the first substitution writes the new version into the latest line *)
Lemma sub_latest_line old v block :
  latest_line_first old block ->
  Str.all (fun c => negb (is_quote c)) old = true ->
  latest_line_first v
    (sub_scan match_latest (latest_head +:+ q +:+ v +:+ q) O block).
Proof.
  intros (a & b & -> & Ha & Hb) Hold.
  set (sub := sub_scan match_latest (latest_head +:+ q +:+ v +:+ q) O).
  assert (Hnl : forall s, sub (nl +:+ s) = nl +:+ sub s).
  { intros s. apply sub_scan_prefix_untouched. intros k Hk.
    by replace k with O by (simpl in Hk; lia). }
  exists a, (sub b). split; [|split; [done |]].
  2:{ destruct Hb as [-> | [b' ->]]; [by left |]. right. rewrite Hnl. eauto. }
  replace (a +:+ nl +:+ latest_head +:+ q +:+ old +:+ q +:+ b)
    with ((a +:+ nl) +:+ latest_head +:+ q +:+ old +:+ q +:+ b)
    by (by rewrite !append_assoc).
  unfold sub at 1. rewrite sub_scan_prefix_untouched.
  2:{ intros k Hk.
      destruct (match_latest _) as [n|] eqn:E; [|done].
      apply match_latest_prefix in E.
      by rewrite no_latest_before_line in E. }
  rewrite append_assoc. do 2 f_equal.
  assert (Em : match_latest (latest_head +:+ q +:+ old +:+ q +:+ b)
               = Some (Str.len latest_head + Str.len (q +:+ old +:+ q))%nat).
  { unfold match_latest.
    replace (latest_head +:+ q +:+ old +:+ q +:+ b)
      with ((latest_head +:+ q) +:+ old +:+ q +:+ b) by (by rewrite !append_assoc).
    rewrite strip_prefix_append.
    change (q +:+ b) with (String Str.quote b).
    rewrite (span_run _ old (String Str.quote b) Hold eq_refl).
    f_equal. rewrite !len_append. simpl. lia. }
  rewrite (sub_scan_match match_latest latest_head (q +:+ v +:+ q) _ _ (q +:+ old +:+ q) b Em).
  - by rewrite !append_assoc.
  - by rewrite !append_assoc.
  - done.
  - rewrite !len_append. simpl. lia.
Qed.

Lemma search_field_skip head a : forall rest,
  (forall k, (k < Str.len a)%nat ->
     Str.starts_with head (Str.drop k a +:+ rest) = false) ->
  search_field head (a +:+ rest) = search_field head rest.
Proof.
  induction a as [|c a IH]; intros rest H; [done |].
  pose proof (H O ltac:(simpl; lia)) as H0.
  change (Str.drop 0 (String c a) +:+ rest) with (String c (a +:+ rest)) in H0.
  change (String c a +:+ rest) with (String c (a +:+ rest)).
  cbn [search_field]. unfold Str.starts_with in H0.
  destruct (Str.strip_prefix head (String c (a +:+ rest))); [done |].
  apply IH. intros k Hk. apply (H (S k)). simpl. lia.
Qed.

Lemma search_field_here head g rest :
  g <> "" -> Str.all (fun c => negb (is_newline c)) g = true ->
  rest = "" \/ (exists r, rest = nl +:+ r) ->
  search_field head (head +:+ g +:+ rest) = Some g.
Proof.
  intros Hg Hall Hrest.
  assert (Hs : Str.span (fun c => negb (is_newline c)) (g +:+ rest) = (g, rest)).
  { apply span_run; [done |]. by destruct Hrest as [-> | [r ->]]. }
  destruct (head +:+ g +:+ rest) as [|c s] eqn:E.
  - destruct head; [destruct g; [done | discriminate] | discriminate].
  - cbn [search_field]. rewrite <- E, strip_prefix_append, Hs.
    by destruct g.
Qed.

(** [extract] reads the value of a latest line that stands alone *)
Lemma extract_latest_line v text :
  latest_line_first v text ->
  v <> "" -> Str.all (fun c => negb (is_quote c)) v = true ->
  Str.all (fun c => negb (is_newline c)) v = true ->
  extract "latest" text = Some v.
Proof.
  intros (a & b & -> & Ha & Hb) Hne Hq Hn. unfold extract.
  change ("    " +:+ "latest" +:+ ": ") with latest_head.
  replace (a +:+ nl +:+ latest_head +:+ q +:+ v +:+ q +:+ b)
    with ((a +:+ nl) +:+ latest_head +:+ (q +:+ v +:+ q) +:+ b)
    by (by rewrite !append_assoc).
  rewrite search_field_skip by (intros k Hk; by apply no_latest_before_line).
  rewrite search_field_here; [| by destruct v | | done].
  2:{ rewrite !all_append, Hn. done. }
  by rewrite strip_space_quoted, strip_quoted.
Qed.

(** the characters of versions, dates and URLs against the field names *)

Lemma version_char_no_quote c : version_char c = true -> negb (is_quote c) = true.
Proof. destruct c as [[] [] [] [] [] [] [] []]; by vm_compute. Qed.

Lemma version_char_no_newline c : version_char c = true -> negb (is_newline c) = true.
Proof. destruct c as [[] [] [] [] [] [] [] []]; by vm_compute. Qed.

Lemma version_char_no_space c :
  version_char c = true -> negb (Str.ascii_eqb c " ") = true.
Proof. destruct c as [[] [] [] [] [] [] [] []]; by vm_compute. Qed.

Lemma date_char_not_in_latest_head c :
  date_char c = true -> char_in c latest_head = false.
Proof. destruct c as [[] [] [] [] [] [] [] []]; by vm_compute. Qed.

Lemma version_format_nonempty v : version_format v -> v <> "".
Proof.
  destruct 1 as [g1 ? ? [H1 _] _ _ | g1 ? ? ? [H1 _] _ _ _]; by destruct g1.
Qed.

Lemma no_space_string_of_uint u :
  Str.all (fun c => negb (Str.ascii_eqb c " ")) (NilEmpty.string_of_uint u) = true.
Proof. induction u; simpl; by rewrite ?IHu. Qed.

Lemma no_space_py_str n :
  Str.all (fun c => negb (Str.ascii_eqb c " ")) (Str.py_str n) = true.
Proof.
  unfold Str.py_str, NilZero.string_of_int, NilZero.string_of_uint.
  destruct n as [|p|p]; simpl; [done | |];
    destruct (Pos.to_uint p) eqn:E; simpl; rewrite ?no_space_string_of_uint; done.
Qed.

(** a URL starts with the scheme and holds no space *)
Lemma build_release_notes_url_shape v url :
  Str.all version_char v = true ->
  build_release_notes_url v = Ok (Some url) ->
  (exists t, url = String "h" t) /\ char_in " " url = false.
Proof.
  intros Hv.
  set (p := fun c => negb (Str.ascii_eqb c " ")).
  assert (Hp : Str.all p v = true)
    by (by apply (all_impl _ _ _ version_char_no_space)).
  destruct (get_release_cycle v) as [c|] eqn:Hc.
  2:{ unfold build_release_notes_url. by rewrite Hc. }
  destruct (get_release_cycle_spec _ _ Hc) as (d1 & d2 & -> & H1 & H2).
  rewrite (build_url_of_cycle v d1 d2 Hc H1 H2).
  pose proof (all_base_dashed p v Hp eq_refl) as Hb.
  pose proof (all_full_dashed p v Hp eq_refl) as Hf.
  repeat match goal with |- context [if ?b then _ else _] => destruct b end;
    intros [= <-]; (split; [eexists; reflexivity |]);
    (apply (all_char_in_false p); [|done]);
    unfold template_A, template_B, template_C;
    rewrite !all_append, ?Hb, ?Hf;
    change (Str.all p (String "-" ?x)) with (p "-"%char && Str.all p x);
    unfold p; rewrite !no_space_py_str; reflexivity.
Qed.

(** X19: a rewritten block reads back the new version.  When the first
    [latest] field of a block is a quoted value alone on its line,
    [update_block] puts the new version in that line, whatever it does to
    the date and the link, and [extract] reads the new version from the
    rewritten text; a block read from that text is not updated again by
    the entry it was rewritten for. *)
Theorem rewritten_block_reads_new_version block old new_version new_date :
  latest_line_first old block ->
  Str.all (fun c => negb (is_quote c)) old = true ->
  version_format new_version -> iso_date new_date ->
  exists updated,
    update_block block new_version new_date = Ok updated /\
    latest_line_first new_version updated /\
    extract "latest" updated = Some new_version /\
    forall json_cycles r e,
      latest r = extract "latest" updated ->
      json_cycles !! releaseCycle r = Some e -> version e = new_version ->
      newer_entry json_cycles r = None.
Proof.
  intros Hblock Hold Hfmt [Hdne Hd].
  pose proof (version_format_chars _ Hfmt) as Hv.
  pose proof (version_format_nonempty _ Hfmt) as Hvne.
  assert (exists t, parse_version new_version = Some t) as [tv Hp]
    by (destruct (parse_version_of_format _ Hfmt) as (? & ? & ? & ? & ?); eauto).
  destruct (build_release_notes_url_total new_version) as [o Ho].
  assert (Hdplain : Str.all plain_char new_date = true)
    by (by apply (all_impl _ _ _ date_char_plain)).
  rewrite (update_block_unfold block new_version new_date _ o Hp Hdplain Ho).
  cbv zeta.
  set (b1 := sub_scan match_latest (latest_head +:+ q +:+ new_version +:+ q) O block).
  set (b2 := sub_scan (match_head_nonspace date_head) (date_head +:+ new_date) O b1).
  assert (I1 : latest_line_first new_version b1) by (by eapply sub_latest_line).
  assert (I2 : latest_line_first new_version b2).
  { apply sub_keeps_latest_line; try done.
    - by apply (contains_latest_line _ _ "R"%char).
    - destruct new_date as [|c t]; [done |]. exists c, t. split; [done |].
      simpl in Hd. apply andb_true_iff in Hd as [Hc _].
      by apply date_char_not_in_latest_head.
    - by apply (all_char_in_false date_char). }
  assert (I3 : forall url, build_release_notes_url new_version = Ok (Some url) ->
            latest_line_first new_version
              (sub_scan (match_head_nonspace link_head) (link_head +:+ url) O b2)).
  { intros url Hu.
    destruct (build_release_notes_url_shape _ _ Hv Hu) as [[t ->] Hsp].
    apply sub_keeps_latest_line; try done.
    - by apply (contains_latest_line _ _ "k"%char).
    - by exists "h"%char, t. }
  assert (final : forall updated, latest_line_first new_version updated ->
    latest_line_first new_version updated /\
    extract "latest" updated = Some new_version /\
    forall json_cycles r e,
      latest r = extract "latest" updated ->
      json_cycles !! releaseCycle r = Some e -> version e = new_version ->
      newer_entry json_cycles r = None).
  { intros updated Hu.
    assert (He : extract "latest" updated = Some new_version).
    { apply extract_latest_line; [done | done | |].
      - by apply (all_impl _ _ _ version_char_no_quote).
      - by apply (all_impl _ _ _ version_char_no_newline). }
    split; [done |]. split; [done |].
    intros json_cycles r e Hr Hc Hver. unfold newer_entry, current_tuple.
    rewrite Hc, Hver, Hp, Hr, He.
    change (default EmptyString (Some new_version)) with new_version.
    destruct new_version as [|c0 v0]; [done |].
    by rewrite Hp, tuple_gt_irrefl. }
  destruct o as [[|c url]|].
  - exists b2. split; [done |]. by apply final.
  - destruct (has_link_field b2).
    + eexists. split; [done |]. by apply final, I3.
    + exists b2. split; [done |]. by apply final.
  - exists b2. split; [done |]. by apply final.
Qed.

(** ** The first block of a document *)

Lemma match_block_prefix s cycle n :
  match_block s = Some (cycle, n) -> Str.starts_with block_head s = true.
Proof.
  intros (body & rest & -> & _)%match_block_parts. apply starts_with_true. eauto.
Qed.

(** a line without the opening text of a release-cycle line is passed over *)
Lemma finditer_skip_line p : forall pos bol s,
  Str.contains block_head p = false ->
  finditer pos bol O (p +:+ nl +:+ s) = finditer (pos + S (Str.len p)) true O s.
Proof.
  induction p as [|c p IH]; intros pos bol s Hp.
  - change ("" +:+ nl +:+ s) with (String Str.newline s). cbn [finditer].
    replace (pos + S (Str.len ""))%nat with (S pos) by (simpl; lia).
    by destruct bol.
  - change (String c p +:+ nl +:+ s) with (String c (p +:+ nl +:+ s)).
    cbn [Str.contains] in Hp. apply orb_false_iff in Hp as [Hhere Hp].
    cbn [finditer].
    assert (Hm : (if bol then match_block (String c (p +:+ nl +:+ s)) else None) = None).
    { destruct bol; [|done].
      destruct (match_block _) as [[cycle n]|] eqn:E; [|done].
      apply match_block_prefix in E.
      change (String c (p +:+ nl +:+ s)) with (String c p +:+ nl +:+ s) in E.
      apply starts_with_before_nl in E; [congruence | done]. }
    rewrite Hm, IH by done. f_equal. simpl. lia.
Qed.

Lemma finditer_first pos s cycle n :
  match_block s = Some (cycle, n) ->
  head (finditer pos true O s) = Some (make_release cycle pos n (Str.take n s)).
Proof.
  intros Hm. destruct s as [|c s]; [done |].
  cbn [finditer]. by rewrite Hm.
Qed.

(** X20: the first block is the first match of the pattern: when the
    pattern matches at the start of the document, or at the start of a
    line with no opening text of a release-cycle line before it, that
    match is the first block returned, with its offset, its cycle and its
    text. *)
Theorem first_block_is_first_match p s cycle n :
  match_block s = Some (cycle, n) ->
  head (parse_md_releases s) = Some (make_release cycle O n (Str.take n s)) /\
  (Str.contains block_head p = false ->
   head (parse_md_releases (p +:+ nl +:+ s))
   = Some (make_release cycle (S (Str.len p)) n (Str.take n s))).
Proof.
  intros Hm. unfold parse_md_releases. split; [by apply finditer_first |].
  intros Hp. rewrite finditer_skip_line by done. by apply finditer_first.
Qed.

(** ** Blocks without the fields *)

Lemma sub_scan_no_match try repl s :
  (forall k, (k < Str.len s)%nat -> try (Str.drop k s) = None) ->
  sub_scan try repl O s = s.
Proof.
  intros H. rewrite <- (append_nil_r s) at 1.
  rewrite sub_scan_prefix_untouched; [by rewrite append_nil_r |].
  intros k Hk. rewrite append_nil_r. by apply H.
Qed.

Lemma match_latest_quoted_prefix s n :
  match_latest s = Some n -> Str.starts_with (latest_head +:+ q) s = true.
Proof.
  unfold match_latest, Str.starts_with.
  by destruct (Str.strip_prefix (latest_head +:+ q) s).
Qed.

(** X21: [update_block] rewrites only what its patterns match.  A block
    that holds no [latest] field with an opening quote keeps its text in
    the first substitution, so an unquoted version is never rewritten;
    and a block that also holds no [latestReleaseDate] field and no
    [link] field comes back as it is. *)
Theorem update_block_without_fields block new_version new_date :
  is_Some (parse_version new_version) -> Str.all plain_char new_date = true ->
  Str.contains (latest_head +:+ q) block = false ->
  re_sub match_latest latest_head (q +:+ new_version +:+ q) block = Ok block /\
  (Str.contains date_head block = false -> has_link_field block = false ->
   update_block block new_version new_date = Ok block).
Proof.
  intros [t Hp] Hd Hl.
  assert (E1 : sub_scan match_latest
                 (latest_head +:+ q +:+ new_version +:+ q) O block = block).
  { apply sub_scan_no_match. intros k _.
    destruct (match_latest (Str.drop k block)) as [n|] eqn:E; [|done].
    apply match_latest_quoted_prefix in E.
    by rewrite (contains_drop _ k block E) in Hl. }
  split.
  { unfold re_sub. by rewrite (version_literal _ _ Hp), E1. }
  intros Hdate Hlink.
  assert (E2 : sub_scan (match_head_nonspace date_head)
                 (date_head +:+ new_date) O block = block).
  { apply sub_scan_no_match. intros k _.
    destruct (match_head_nonspace date_head (Str.drop k block)) as [n|] eqn:E; [|done].
    apply match_head_nonspace_prefix in E.
    by rewrite (contains_drop _ k block E) in Hdate. }
  destruct (build_release_notes_url_total new_version) as [o Ho].
  rewrite (update_block_unfold block new_version new_date t o Hp Hd Ho).
  cbv zeta. rewrite E1, E2, Hlink. by destruct o as [[|c url]|].
Qed.

(** ** The further properties at sample inputs *)

Lemma parse_version_values_witness :
  digit_run "12" /\ digit_run "1" /\ digit_run "4" /\ digit_run "2" /\
  (Str.len "12" <= int_max_str_digits)%nat /\
  (Str.len "1" <= int_max_str_digits)%nat /\
  (Str.len "4" <= int_max_str_digits)%nat /\
  (Str.len "2" <= int_max_str_digits)%nat /\
  parse_version "12.1.4" = Some (12, 1, 4, 0) /\
  parse_version "12.1.4-h2" = Some (12, 1, 4, 2).
Proof.
  assert (H12 : digit_run "12") by (split; [discriminate | reflexivity]).
  assert (H1 : digit_run "1") by (split; [discriminate | reflexivity]).
  assert (H4 : digit_run "4") by (split; [discriminate | reflexivity]).
  assert (H2 : digit_run "2") by (split; [discriminate | reflexivity]).
  assert (L12 : (Str.len "12" <= int_max_str_digits)%nat)
    by (unfold int_max_str_digits; simpl; lia).
  assert (L1 : (Str.len "1" <= int_max_str_digits)%nat)
    by (unfold int_max_str_digits; simpl; lia).
  assert (L4 : (Str.len "4" <= int_max_str_digits)%nat)
    by (unfold int_max_str_digits; simpl; lia).
  assert (L2 : (Str.len "2" <= int_max_str_digits)%nat)
    by (unfold int_max_str_digits; simpl; lia).
  repeat (split; [assumption |]).
  exact (parse_version_values "12" "1" "4" "2" H12 H1 H4 H2 L12 L1 L4 L2).
Defined.

Lemma parse_version_domain_witness :
  (Str.len "12.1.4-h2" <= int_max_str_digits)%nat /\
  (is_Some (parse_version "12.1.4-h2") <->
   version_format "12.1.4-h2" \/
   exists s0, "12.1.4-h2" = s0 +:+ nl /\ version_format s0) /\
  (version_format "12.1.4-h2" ->
   parse_version ("12.1.4-h2" +:+ nl) = parse_version "12.1.4-h2") /\
  (~ version_format "12.1.4-h2" ->
   (forall s0, "12.1.4-h2" = s0 +:+ nl -> ~ version_format s0) ->
   parse_version "12.1.4-h2" = None).
Proof.
  assert (L : (Str.len "12.1.4-h2" <= int_max_str_digits)%nat)
    by (unfold int_max_str_digits; simpl; lia).
  split; [exact L |].
  exact (parse_version_domain "12.1.4-h2" L).
Defined.

Lemma build_release_notes_url_never_raises_witness :
  (Str.len "12.1.4-h2" <= int_max_str_digits)%nat /\
  exists o, build_release_notes_url "12.1.4-h2" = Ok o.
Proof.
  assert (L : (Str.len "12.1.4-h2" <= int_max_str_digits)%nat)
    by (unfold int_max_str_digits; simpl; lia).
  split; [exact L |].
  exact (proj1 (build_release_notes_url_never_raises "12.1.4-h2" L)).
Defined.

Lemma loader_raises_on_malformed_timestamp_witness :
  (forall r, r ∈ sample_feed ->
     (Str.len (rec_version r) <= int_max_str_digits)%nat) /\
  ((exists e, load_json_entries sample_rejecting_date sample_feed = Raise e) <->
   exists r, r ∈ sample_feed /\ is_Some (parse_version (rec_version r)) /\
             sample_rejecting_date (rec_released_on r) = None).
Proof.
  assert (L : forall r, r ∈ sample_feed ->
            (Str.len (rec_version r) <= int_max_str_digits)%nat).
  { intros r Hr. unfold sample_feed in Hr.
    repeat (apply elem_of_cons in Hr as [-> | Hr]);
      [unfold int_max_str_digits; simpl; lia .. | by apply elem_of_nil in Hr]. }
  split; [exact L |].
  exact (proj2 (loader_raises_on_malformed_timestamp sample_rejecting_date
                  sample_feed L)).
Defined.

Lemma zero_tuple_is_least_witness :
  parse_version "12.1.4" = Some (12, 1, 4, 0) /\
  tuple_gt zero_tuple (12, 1, 4, 0) = false /\
  (tuple_gt (12, 1, 4, 0) zero_tuple = false <-> (12, 1, 4, 0) = zero_tuple).
Proof.
  split; [reflexivity |].
  apply (zero_tuple_is_least "12.1.4" (12, 1, 4, 0)). reflexivity.
Defined.

Lemma hotfix_above_base_witness :
  digit_run "12" /\ digit_run "1" /\ digit_run "4" /\ digit_run "2" /\
  exists base hot,
    parse_version "12.1.4" = Some base /\
    parse_version "12.1.4-h2" = Some hot /\
    (tuple_gt hot base = true <-> 0 < Str.int_of_digits "2") /\
    (Str.int_of_digits "2" = 0 <-> hot = base) /\
    tuple_gt base hot = false.
Proof.
  assert (H12 : digit_run "12") by (split; [discriminate | reflexivity]).
  assert (H1 : digit_run "1") by (split; [discriminate | reflexivity]).
  assert (H4 : digit_run "4") by (split; [discriminate | reflexivity]).
  assert (H2 : digit_run "2") by (split; [discriminate | reflexivity]).
  repeat (split; [assumption |]).
  exact (hotfix_above_base "12" "1" "4" "2" H12 H1 H4 H2).
Defined.

Lemma get_release_cycle_is_prefix_witness :
  get_release_cycle "12.1.4-h2" = Some "12.1" /\
  Str.starts_with "12.1" "12.1.4-h2" = true /\
  get_release_cycle "12.1" = Some "12.1" /\
  forall rest,
    match rest with String x _ => Str.is_digit x = false | EmptyString => True end ->
    get_release_cycle ("12.1" +:+ rest) = Some "12.1".
Proof.
  split; [reflexivity |].
  apply (get_release_cycle_is_prefix "12.1.4-h2" "12.1"). reflexivity.
Defined.

Lemma dashed_forms_of_version_witness :
  digit_run "12" /\ digit_run "1" /\ digit_run "4" /\ digit_run "2" /\
  base_dashed "12.1.4" = "12-1-4" /\
  full_dashed "12.1.4" = base_dashed "12.1.4" /\
  base_dashed "12.1.4-h2" = base_dashed "12.1.4" /\
  full_dashed "12.1.4-h2" = base_dashed "12.1.4" +:+ "-h" +:+ "2" /\
  full_dashed "12.1.4-h2" = Str.replace "." "-" "12.1.4-h2".
Proof.
  assert (H12 : digit_run "12") by (split; [discriminate | reflexivity]).
  assert (H1 : digit_run "1") by (split; [discriminate | reflexivity]).
  assert (H4 : digit_run "4") by (split; [discriminate | reflexivity]).
  assert (H2 : digit_run "2") by (split; [discriminate | reflexivity]).
  repeat (split; [assumption |]).
  exact (dashed_forms_of_version "12" "1" "4" "2" H12 H1 H4 H2).
Defined.

Lemma same_cycle_same_major_minor_witness :
  parse_version "10.2.3" = Some (10, 2, 3, 0) /\
  parse_version "10.2.4-h1" = Some (10, 2, 4, 1) /\
  get_release_cycle "10.2.3" = get_release_cycle "10.2.4-h1" /\
  10 = 10 /\ 2 = 2 /\
  (tuple_gt (10, 2, 3, 0) (10, 2, 4, 1) = true <-> 4 < 3 \/ (3 = 4 /\ 1 < 0)).
Proof.
  repeat (split; [reflexivity |]).
  apply (same_cycle_same_major_minor "10.2.3" "10.2.4-h1"); reflexivity.
Defined.

Lemma loader_result_up_to_order_witness :
  sample_feed ≡ₚ sample_feed_reversed /\
  ((exists m1, load_json_entries sample_released_date sample_feed = Ok m1) <->
   (exists m2, load_json_entries sample_released_date sample_feed_reversed = Ok m2)).
Proof.
  assert (H : sample_feed ≡ₚ sample_feed_reversed) by apply perm_swap.
  split; [exact H |].
  exact (proj1 (loader_result_up_to_order sample_released_date
                  sample_feed sample_feed_reversed H)).
Defined.

Lemma block_opens_with_its_cycle_witness :
  exists r,
    r ∈ parse_md_releases (sample_doc "10.2.3") /\
    (_start r = O \/
     exists p, Str.take (_start r) (sample_doc "10.2.3") = p +:+ nl) /\
    Str.starts_with (block_head +:+ releaseCycle r +:+ q) (_text r) = true /\
    releaseCycle r <> "" /\
    Str.all (fun c => negb (is_quote c)) (releaseCycle r) = true /\
    latest r = extract "latest" (_text r) /\
    latestReleaseDate r = extract "latestReleaseDate" (_text r) /\
    link r = extract "link" (_text r).
Proof.
  eexists. split; [vm_compute; apply list_elem_of_here |].
  apply (block_opens_with_its_cycle (sample_doc "10.2.3")).
  vm_compute. apply list_elem_of_here.
Defined.

Lemma block_ends_at_first_terminator_witness :
  exists r,
    r ∈ parse_md_releases (sample_doc "10.2.3") /\
    terminator_here (Str.drop (_end r) (sample_doc "10.2.3")) = true /\
    forall j,
      (_start r + Str.len (block_head +:+ releaseCycle r +:+ q) <= j)%nat ->
      (j < _end r)%nat ->
      terminator_here (Str.drop j (sample_doc "10.2.3")) = false.
Proof.
  eexists. split; [vm_compute; apply list_elem_of_here |].
  apply (block_ends_at_first_terminator (sample_doc "10.2.3")).
  vm_compute. apply list_elem_of_here.
Defined.

Lemma first_block_is_first_match_witness :
  exists cycle n,
    match_block sample_terminated_block = Some (cycle, n) /\
    head (parse_md_releases sample_terminated_block)
    = Some (make_release cycle O n (Str.take n sample_terminated_block)) /\
    (Str.contains block_head "releases:" = false ->
     head (parse_md_releases ("releases:" +:+ nl +:+ sample_terminated_block))
     = Some (make_release cycle 10 n (Str.take n sample_terminated_block))).
Proof.
  eexists _, _. split; [vm_compute; reflexivity |].
  apply (first_block_is_first_match "releases:" sample_terminated_block).
  vm_compute. reflexivity.
Defined.

Lemma apply_updates_rewrites_blocks_in_place_witness :
  let doc := sample_doc "10.2.3" in
  let changes := ["10.2: 10.2.3 -> 10.2.4-h1"] in
  apply_updates doc (parse_md_releases doc) sample_cycles
  = Ok (sample_updated, changes) /\
  exists news,
    Forall2 (block_result sample_cycles) (parse_md_releases doc) news /\
    sample_updated = splice doc 0 (zip (parse_md_releases doc) news) /\
    changes = concat (block_changes sample_cycles <$> reverse (parse_md_releases doc)).
Proof.
  intros doc changes.
  assert (Ha : apply_updates doc (parse_md_releases doc) sample_cycles
               = Ok (sample_updated, changes)) by (vm_compute; reflexivity).
  split; [exact Ha |].
  exact (apply_updates_rewrites_blocks_in_place doc sample_cycles
           sample_updated changes Ha).
Defined.

Lemma apply_updates_raises_on_unparseable_latest_witness :
  let doc := sample_doc "10.2.x" in
  (forall c e, sample_cycles !! c = Some e ->
     is_Some (parse_version (version e)) -> Str.all plain_char (date e) = true) /\
  (forall c e, sample_cycles !! c = Some e ->
     (Str.len (version e) <= int_max_str_digits)%nat) /\
  (forall r s, r ∈ parse_md_releases doc -> latest r = Some s ->
     (Str.len s <= int_max_str_digits)%nat) /\
  (forall x, apply_updates doc (parse_md_releases doc) sample_cycles = Raise x ->
             x = TypeError) /\
  ((exists x, apply_updates doc (parse_md_releases doc) sample_cycles = Raise x) <->
   exists r, r ∈ parse_md_releases doc /\ comparison_fails sample_cycles r) /\
  ((forall r, r ∈ parse_md_releases doc -> ~ comparison_fails sample_cycles r) ->
   exists out changes,
     apply_updates doc (parse_md_releases doc) sample_cycles = Ok (out, changes)).
Proof.
  intros doc.
  assert (Hd : forall c e, sample_cycles !! c = Some e ->
            is_Some (parse_version (version e)) ->
            Str.all plain_char (date e) = true).
  { intros c e H _. unfold sample_cycles in H.
    apply lookup_singleton_Some in H as [_ <-]. reflexivity. }
  assert (Hv : forall c e, sample_cycles !! c = Some e ->
            (Str.len (version e) <= int_max_str_digits)%nat).
  { intros c e H. unfold sample_cycles in H.
    apply lookup_singleton_Some in H as [_ <-].
    unfold int_max_str_digits. simpl. lia. }
  assert (Hl : forall r s, r ∈ parse_md_releases doc -> latest r = Some s ->
            (Str.len s <= int_max_str_digits)%nat).
  { intros r s Hr. vm_compute in Hr. apply list_elem_of_singleton in Hr.
    rewrite Hr. intros [= <-]. unfold int_max_str_digits. simpl. lia. }
  split; [exact Hd |]. split; [exact Hv |]. split; [exact Hl |].
  exact (apply_updates_raises_on_unparseable_latest sample_cycles Hd doc
           (parse_md_releases doc) Hv Hl).
Defined.

Lemma rewritten_block_reads_new_version_witness :
  latest_line_first "10.2.3" sample_block_no_link /\
  version_format "10.2.4-h1" /\ iso_date "2025-06-01" /\
  exists updated,
    update_block sample_block_no_link "10.2.4-h1" "2025-06-01" = Ok updated /\
    latest_line_first "10.2.4-h1" updated /\
    extract "latest" updated = Some "10.2.4-h1" /\
    forall json_cycles r e,
      latest r = extract "latest" updated ->
      json_cycles !! releaseCycle r = Some e -> version e = "10.2.4-h1" ->
      newer_entry json_cycles r = None.
Proof.
  assert (Hl : latest_line_first "10.2.3" sample_block_no_link).
  { exists ("  - releaseCycle: " +:+ q +:+ "10.2" +:+ q),
      (nl +:+ "    latestReleaseDate: 2025-01-01").
    split; [reflexivity |]. split; [reflexivity |]. right. eexists. reflexivity. }
  assert (Hf : version_format "10.2.4-h1").
  { apply (vf_hotfix "10" "2" "4" "1"); split; (discriminate || reflexivity). }
  assert (Hd : iso_date "2025-06-01") by (split; [discriminate | reflexivity]).
  split; [exact Hl |]. split; [exact Hf |]. split; [exact Hd |].
  exact (rewritten_block_reads_new_version sample_block_no_link "10.2.3"
           "10.2.4-h1" "2025-06-01" Hl eq_refl Hf Hd).
Defined.

Lemma update_block_without_fields_witness :
  is_Some (parse_version "10.2.4-h1") /\
  Str.contains (latest_head +:+ q) sample_block_plain = false /\
  re_sub match_latest latest_head (q +:+ "10.2.4-h1" +:+ q) sample_block_plain
  = Ok sample_block_plain /\
  (Str.contains date_head sample_block_plain = false ->
   has_link_field sample_block_plain = false ->
   update_block sample_block_plain "10.2.4-h1" "2025-06-01" = Ok sample_block_plain).
Proof.
  assert (Hp : is_Some (parse_version "10.2.4-h1"))
    by (exists (10, 2, 4, 1); reflexivity).
  split; [exact Hp |]. split; [reflexivity |].
  exact (update_block_without_fields sample_block_plain "10.2.4-h1" "2025-06-01"
           Hp eq_refl eq_refl).
Defined.
